(** * Bean-sprout planter: the browser scripts of the AI consultation page

    A shallow embedding of the page scripts: the shared utilities
    ([storage], [showNotification], [calculatePercentage], [apiCall]),
    the dashboard's harvest display and the two revisions of
    [ai-consultation.js] (the text-only one and the one with image
    attachment), followed by the properties of the consultation history,
    the tag selection, the question guard and the harvest display.

    Conventions of the embedding.
    - A JavaScript string is the list of its UTF-16 code units.
    - A JavaScript number is a binary64 float.
    - A value parsed from JSON is a [json]; a property read off it, which
      may be [undefined], is an [option json]. An element looked up in
      the document, [null] when it is missing, is an option.
    - A method is a computation over the page (manager fields, object heap,
      DOM, localStorage, console, network log) that completes normally or
      throws; what it changed before throwing stays changed.
    - What the environment decides (the clock, an error localStorage
      throws, the HTTP response) is an explicit argument placed before
      the arguments the method has in the source. *)

From Stdlib Require Import PrimFloat.
From Stdlib Require Import List.
From stdpp Require Import base option list numbers strings gmap pretty.

Set Default Proof Using "Type".
Set Warnings "-inexact-float,-register-all".

(** ** JavaScript strings *)

Module JsString.

Abbreviation jsstring := (list N).

Definition byte_of (a : Ascii.ascii) : N := Ascii.N_of_ascii a.

Fixpoint bytes_of (s : string) : list N :=
  match s with
  | EmptyString => []
  | String a s' => byte_of a :: bytes_of s'
  end.

Definition cont (b : N) : N := N.land b 63.

(** UTF-8 bytes of a source literal to UTF-16 code units. *)
Fixpoint utf16 (bs : list N) : jsstring :=
  match bs with
  | [] => []
  | b0 :: r0 =>
      if (b0 <? 128)%N then b0 :: utf16 r0
      else if (b0 <? 224)%N then
        match r0 with
        | b1 :: r1 => N.lor (N.shiftl (N.land b0 31) 6) (cont b1) :: utf16 r1
        | [] => [65533%N]
        end
      else if (b0 <? 240)%N then
        match r0 with
        | b1 :: b2 :: r2 =>
            N.lor (N.shiftl (N.land b0 15) 12)
              (N.lor (N.shiftl (cont b1) 6) (cont b2)) :: utf16 r2
        | _ => [65533%N]
        end
      else
        match r0 with
        | b1 :: b2 :: b3 :: r3 =>
            let cp := N.lor (N.shiftl (N.land b0 7) 18)
                        (N.lor (N.shiftl (cont b1) 12)
                           (N.lor (N.shiftl (cont b2) 6) (cont b3))) in
            let v := (cp - 65536)%N in
            (55296 + N.shiftr v 10)%N :: (56320 + N.land v 1023)%N :: utf16 r3
        | _ => [65533%N]
        end
  end.

(** A string literal of the source. *)
Definition js (s : string) : jsstring := utf16 (bytes_of s).

(** ECMAScript WhiteSpace and LineTerminator code units, the ones
    [String.prototype.trim] strips. *)
Definition is_white_space (c : N) : bool :=
  ((c =? 9) || (c =? 10) || (c =? 11) || (c =? 12) || (c =? 13) || (c =? 32)
   || (c =? 160) || (c =? 5760) || ((8192 <=? c) && (c <=? 8202))
   || (c =? 8232) || (c =? 8233) || (c =? 8239) || (c =? 8287)
   || (c =? 12288) || (c =? 65279))%N.

Fixpoint trimStart (s : jsstring) : jsstring :=
  match s with
  | [] => []
  | c :: s' => if is_white_space c then trimStart s' else s
  end.

Definition trimEnd (s : jsstring) : jsstring := reverse (trimStart (reverse s)).

Definition trim (s : jsstring) : jsstring := trimEnd (trimStart s).

(** [!s] for a string [s]: only the empty string is falsy. *)
Definition falsy (s : jsstring) : bool :=
  match s with [] => true | _ :: _ => false end.

(** Template interpolation [${v}] of a value that may be [undefined]. *)
Definition interpolate (v : option jsstring) : jsstring :=
  match v with Some s => s | None => js "undefined" end.

(** [items.join(separator)] on strings. *)
Fixpoint join (separator : jsstring) (items : list jsstring) : jsstring :=
  match items with
  | [] => []
  | item :: items' =>
      match items' with
      | [] => item
      | _ :: _ => item ++ separator ++ join separator items'
      end
  end.

(** [s.replace(/\n/g, '<br>')]. *)
Fixpoint replace_newlines (s : jsstring) : jsstring :=
  match s with
  | [] => []
  | c :: s' =>
      (if (c =? 10)%N then js "<br>" else [c]) ++ replace_newlines s'
  end.

End JsString.
Import JsString.

(** ** JavaScript numbers *)

Module JsNumber.

Open Scope float_scope.

(** 2^52: from here on every binary64 value is an integer. *)
Definition two52 : float := 4503599627370496.

(** [Math.round]: the nearest integer, a tie going towards +Infinity;
    NaN, the infinities and the zeros are returned as they are, and a
    negative argument that rounds to zero gives -0. *)
Definition Math_round (x : float) : float :=
  if is_nan x then x
  else if PrimFloat.eqb x 0 then x
  else if PrimFloat.leb two52 (abs x) then x
  else
    let a := abs x in
    let r := (a + two52) - two52 in
    let fl := if PrimFloat.ltb a r then r - 1 else r in
    let frac := a - fl in
    if PrimFloat.ltb x 0
    then - (if PrimFloat.ltb 0.5 frac then fl + 1 else fl)
    else (if PrimFloat.leb 0.5 frac then fl + 1 else fl).

(** [x === 0] on numbers: true of +0 and -0, false of NaN. *)
Definition strict_eq_zero (x : float) : bool := PrimFloat.eqb x 0.

Close Scope float_scope.

End JsNumber.
Import JsNumber.

(** ** JSON values *)

Module Json.

(** What [JSON.parse] and [response.json()] give: [null], a boolean, a
    number, a string, an array, or an object, as the list of its
    properties, each key once. *)
Inductive json : Type :=
  | JNull
  | JBool (b : bool)
  | JNumber (x : float)
  | JString (s : jsstring)
  | JArray (items : list json)
  | JObject (properties : list (jsstring * json)).

(** A string as a value that may be [undefined]. *)
Definition str (s : jsstring) : option json := Some (JString s).

(** The property [key] among the properties of an object, [None] being
    [undefined]. *)
Fixpoint property (key : jsstring) (properties : list (jsstring * json))
  : option json :=
  match properties with
  | [] => None
  | (k, v) :: rest => if decide (k = key) then Some v else property key rest
  end.

(** [data[key]] on a value that is not [null], for the keys the scripts
    read ([status], [answer], [error], [confidence], ...), none of which
    a prototype defines. *)
Definition field (data : json) (key : jsstring) : option json :=
  match data with
  | JObject properties => property key properties
  | _ => None
  end.

(** [value === s] for a string [s]. *)
Definition strict_eq_string (value : option json) (s : jsstring) : bool :=
  match value with
  | Some (JString s') => bool_decide (s' = s)
  | _ => false
  end.

(** What [JSON.parse(JSON.stringify(value))] gives: a number that is
    not finite is written as [null] and the negative zero as [0]; the
    rest is written as it is. *)
Fixpoint serialised (value : json) : json :=
  match value with
  | JNumber x =>
      if negb (PrimFloat.is_finite x) then JNull
      else if PrimFloat.is_zero x then JNumber 0
      else JNumber x
  | JArray items => JArray (List.map serialised items)
  | JObject properties =>
      JObject (List.map (fun '(key, v) => (key, serialised v)) properties)
  | _ => value
  end.

End Json.
Import Json.

(** ** The page: manager fields, object heap, DOM and browser state *)

Module Page.

(** The object literal [historyItem] built by [addToHistory]. *)
Record HistoryItem : Type := mkHistoryItem {
  timestamp : jsstring;
  question : jsstring;
  answer : option json;
  tag : option jsstring
}.

(** A [File] picked in the image input. *)
Record File : Type := mkFile {
  file_name : jsstring;
  file_type : jsstring;
  file_size : N
}.

(** The values the fourth argument of [addMessageToChat] receives: a
    string, or the attached image ([File] or [null]). *)
Inductive value : Type :=
  | Str (s : jsstring)
  | Obj (f : File)
  | Null.

(** One [div.message-container] as [addMessageToChat] fills it in. *)
Record message : Type := mkMessage {
  messageClass : jsstring;
  bubbleClass : jsstring;
  variantClass : jsstring;
  isLoading : bool;
  icon : jsstring;
  contentClass : option jsstring;
  messageContent : jsstring;
  messageTime : jsstring
}.

(** A child of [#chat-container]: markup of the template, or a message. *)
Inductive chat_node : Type :=
  | static_node
  | message_node (m : message).

(** One [div.history-item]: [item.tag], [formatDate(item.timestamp)] and
    [item.question] as interpolated. *)
Record history_row : Type := mkRow {
  row_tag : jsstring;
  row_time : jsstring;
  row_question : jsstring
}.

(** [innerHTML] of [#history-container]. *)
Inductive history_html : Type :=
  | template_html
  | no_history_notice
  | history_rows (rows : list history_row).

(** [innerHTML] of [#harvest-status] on the dashboard: the markup of the
    template, the spinner of [showLoading], the result card of
    [checkHarvest] with the values it interpolates, an error panel, or
    content followed by an error panel. *)
Inductive harvest_status_html : Type :=
  | status_template
  | loading_spinner
  | harvest_status_card (icon message confidence recommendation days : jsstring)
  | error_panel (message : jsstring)
  | followed_by_error (original : harvest_status_html) (message : jsstring).

(** An element of class [tag-item]: its [data-tag] and whether it has
    the class [active]. *)
Record tag_item : Type := mkTagItem {
  data_tag : option jsstring;
  active : bool
}.

(** The body handed to [fetch]. *)
Inductive request_body : Type :=
  | no_body
  | json_body (question : jsstring) (tag : option jsstring)
  | form_data (question : jsstring) (tag : option jsstring) (image : option File).

Record request : Type := mkRequest {
  url : jsstring;
  method : jsstring;
  body : request_body
}.

(** The fields [this.*] of [AIConsultationManager]. The history array
    holds references to the item objects of the heap. *)
Record manager : Type := mkManager {
  selectedTag : option jsstring;
  chatHistory : list nat;
  maxHistoryLength : nat
}.

(** The part of the document the scripts touch. An element looked up by
    id is [None] when the page has no such element. [chat_scrollTop] is
    the [scrollTop] of [#chat-container] as the user left it or as a
    script last assigned it (the browser shows it clamped to the
    scrollable range). *)
Record dom : Type := mkDom {
  question_input : option jsstring;
  chat_container : option (list chat_node);
  history_container : option history_html;
  tag_items : list tag_item;
  image_preview : option bool;
  image_input : option jsstring;
  harvest_status : option harvest_status_html;
  notifications : list (jsstring * jsstring);
  chat_scrollTop : N
}.

(** Heap of history item objects (a reference is an index; objects are
    only ever allocated at the end), localStorage with each entry as
    the array of items its JSON text denotes, the [console.error] lines
    and the requests handed to [fetch]. *)
Record browser : Type := mkBrowser {
  heap : list HistoryItem;
  localStorage : gmap (list N) (list HistoryItem);
  console : list (jsstring * jsstring);
  network : list request
}.

(** The manager [aiConsultationManager], the [attachedImage] of the
    global [imageAttachment], the document and the browser. *)
Record page : Type := mkPage {
  this : manager;
  attachedImage : option File;
  document : dom;
  window : browser
}.

#[global] Instance File_eq_dec : EqDecision File.
Proof. solve_decision. Defined.
#[global] Instance value_eq_dec : EqDecision value.
Proof. solve_decision. Defined.
#[global] Instance message_eq_dec : EqDecision message.
Proof. solve_decision. Defined.
#[global] Instance chat_node_eq_dec : EqDecision chat_node.
Proof. solve_decision. Defined.
#[global] Instance request_body_eq_dec : EqDecision request_body.
Proof. solve_decision. Defined.
#[global] Instance request_eq_dec : EqDecision request.
Proof. solve_decision. Defined.

(** Field updates. *)
Definition set_this (f : manager -> manager) (w : page) : page :=
  mkPage (f (this w)) (attachedImage w) (document w) (window w).
Definition set_attachedImage (i : option File) (w : page) : page :=
  mkPage (this w) i (document w) (window w).
Definition set_document (f : dom -> dom) (w : page) : page :=
  mkPage (this w) (attachedImage w) (f (document w)) (window w).
Definition set_window (f : browser -> browser) (w : page) : page :=
  mkPage (this w) (attachedImage w) (document w) (f (window w)).

Definition with_selectedTag (t : option jsstring) (m : manager) : manager :=
  mkManager t (chatHistory m) (maxHistoryLength m).
Definition with_chatHistory (h : list nat) (m : manager) : manager :=
  mkManager (selectedTag m) h (maxHistoryLength m).

Definition with_question_input (v : option jsstring) (d : dom) : dom :=
  mkDom v (chat_container d) (history_container d) (tag_items d)
    (image_preview d) (image_input d) (harvest_status d) (notifications d)
    (chat_scrollTop d).
Definition with_chat_container (v : option (list chat_node)) (d : dom) : dom :=
  mkDom (question_input d) v (history_container d) (tag_items d)
    (image_preview d) (image_input d) (harvest_status d) (notifications d)
    (chat_scrollTop d).
Definition with_history_container (v : option history_html) (d : dom) : dom :=
  mkDom (question_input d) (chat_container d) v (tag_items d)
    (image_preview d) (image_input d) (harvest_status d) (notifications d)
    (chat_scrollTop d).
Definition with_tag_items (v : list tag_item) (d : dom) : dom :=
  mkDom (question_input d) (chat_container d) (history_container d) v
    (image_preview d) (image_input d) (harvest_status d) (notifications d)
    (chat_scrollTop d).
Definition with_image_preview (v : option bool) (d : dom) : dom :=
  mkDom (question_input d) (chat_container d) (history_container d)
    (tag_items d) v (image_input d) (harvest_status d) (notifications d)
    (chat_scrollTop d).
Definition with_image_input (v : option jsstring) (d : dom) : dom :=
  mkDom (question_input d) (chat_container d) (history_container d)
    (tag_items d) (image_preview d) v (harvest_status d) (notifications d)
    (chat_scrollTop d).
Definition with_notifications (v : list (jsstring * jsstring)) (d : dom) : dom :=
  mkDom (question_input d) (chat_container d) (history_container d)
    (tag_items d) (image_preview d) (image_input d) (harvest_status d) v
    (chat_scrollTop d).
Definition with_chat_scrollTop (v : N) (d : dom) : dom :=
  mkDom (question_input d) (chat_container d) (history_container d)
    (tag_items d) (image_preview d) (image_input d) (harvest_status d)
    (notifications d) v.

Definition with_heap (h : list HistoryItem) (b : browser) : browser :=
  mkBrowser h (localStorage b) (console b) (network b).
Definition with_localStorage (s : gmap (list N) (list HistoryItem))
    (b : browser) : browser :=
  mkBrowser (heap b) s (console b) (network b).
Definition with_console (c : list (jsstring * jsstring)) (b : browser) : browser :=
  mkBrowser (heap b) (localStorage b) c (network b).
Definition with_network (n : list request) (b : browser) : browser :=
  mkBrowser (heap b) (localStorage b) (console b) n.

End Page.
Import Page.

(** ** Computations that may throw *)

Module Script.

(** How a statement list completes: normally with a value, or by a
    thrown error, kept as its message. *)
Inductive completion (A : Type) : Type :=
  | Normal (a : A)
  | Throw (e : jsstring).
Arguments Normal {A} a.
Arguments Throw {A} e.

Definition script (A : Type) : Type := page -> completion A * page.

Definition ret {A} (a : A) : script A := fun w => (Normal a, w).

Definition throw {A} (e : jsstring) : script A := fun w => (Throw e, w).

Definition bind {A B} (m : script A) (k : A -> script B) : script B :=
  fun w =>
    match m w with
    | (Normal a, w') => k a w'
    | (Throw e, w') => (Throw e, w')
    end.

(** [try { body } catch (error) { handler }]. *)
Definition try_catch {A} (body : script A) (handler : jsstring -> script A)
  : script A :=
  fun w =>
    match body w with
    | (Normal a, w') => (Normal a, w')
    | (Throw e, w') => handler e w'
    end.

Definition read {A} (f : page -> A) : script A := fun w => (Normal (f w), w).

Definition update (f : page -> page) : script unit := fun w => (Normal tt, f w).

(** The page a computation leaves behind. *)
Definition exec {A} (m : script A) (w : page) : page := snd (m w).

End Script.
Import Script.

Declare Scope script_scope.
Delimit Scope script_scope with script.
Notation "x <- m ;; k" := (bind m (fun x => k))
(at level 100, m at next level, right associativity) : script_scope.
Notation "m ;; k" := (bind m (fun _ => k))
(at level 100, right associativity) : script_scope.
Open Scope script_scope.

(** ** What the browser provides *)

(** Built-ins whose result the scripts only pass on: locale date
  formatting, [Number.prototype.toFixed], the conversions between
  numbers and strings, the optional [marked] library with what its
  [parse] does on a value (a string or not), the CSS engine behind
  [document.querySelector], which returns the index of the first
  matching tag element or throws on a selector it cannot parse, and the
  layout, which gives the [scrollHeight] of the chat for its children. *)
Class Host : Type := {
toLocaleString : jsstring -> jsstring;
toFixed : float -> nat -> jsstring;
Number_toString : float -> jsstring;
Number_of_string : jsstring -> float;
marked : option (option json -> completion jsstring);
querySelector : jsstring -> list tag_item -> completion (option nat);
scrollHeight : list chat_node -> N
}.

(** ** The common script: shared utilities *)

Module Common.
Section Common.

Context `{Host}.

Definition console_error (label error : jsstring) : script unit :=
  update (set_window (fun b => with_console (console b ++ [(label, error)]) b)).

(** [showNotification(message, type)]: appends an alert to the body.
    (Its removal three seconds later is a timer and is not modelled.) *)
Definition showNotification (message type : jsstring) : script unit :=
  update (set_document
            (fun d => with_notifications (notifications d ++ [(message, type)]) d)).

(** [formatDate(dateString)]. *)
Definition formatDate (dateString : jsstring) : jsstring :=
  toLocaleString dateString.


(** The error thrown on reading a property of [null] or [undefined].
    The text of its message is the engine's own; this one stands for
    it. *)
Definition TypeError : jsstring := js "TypeError: Cannot read properties of null".

(** The error thrown on calling [replace] on a value that has none; the
    text stands for the engine's, as above. *)
Definition TypeError_not_a_function : jsstring :=
  js "TypeError: markdownText.replace is not a function".

(** [data[key]] on a parsed body: reading a property of [null] throws. *)
Definition get (data : json) (key : jsstring) : script (option json) :=
  match data with
  | JNull => throw TypeError
  | _ => ret (field data key)
  end.

(** The string a value converts to: an array joins its items, [null]
    items as the empty string; an object is [[object Object]]. *)
Fixpoint toString (value : json) : jsstring :=
  match value with
  | JNull => js "null"
  | JBool true => js "true"
  | JBool false => js "false"
  | JNumber x => Number_toString x
  | JString s => s
  | JArray items =>
      join (js ",")
        (List.map (fun item => match item with
                               | JNull => []
                               | _ => toString item
                               end) items)
  | JObject _ => js "[object Object]"
  end.

(** Template interpolation [${value}] of a value that may be
    [undefined]. *)
Definition template (value : option json) : jsstring :=
  match value with
  | Some v => toString v
  | None => js "undefined"
  end.

(** The number a value converts to, as in [value * 100]. *)
Definition toNumber (value : option json) : float :=
  match value with
  | None => nan
  | Some JNull => 0
  | Some (JBool true) => 1
  | Some (JBool false) => 0
  | Some (JNumber x) => x
  | Some (JString s) => Number_of_string s
  | Some v => Number_of_string (toString v)
  end.

(** Whether a value is truthy, as in [value ? a : b] and [value || b]. *)
Definition toBoolean (value : option json) : bool :=
  match value with
  | None => false
  | Some JNull => false
  | Some (JBool b) => b
  | Some (JNumber x) => negb (PrimFloat.eqb x 0 || is_nan x)
  | Some (JString s) => negb (falsy s)
  | Some _ => true
  end.

(** A division that also reports the divisor it was given. *)
Definition divide (x y : float) : float * list float := ((x / y)%float, [y]).

(** [calculatePercentage(value, total)], with the divisors of the
    divisions it evaluated. *)
Definition calculatePercentage_divisors (value total : float)
  : float * list float :=
  if strict_eq_zero total then (0%float, [])
  else
    let (q, ds) := divide value total in
    (Math_round (q * 100)%float, ds).

Definition calculatePercentage (value total : float) : float :=
  fst (calculatePercentage_divisors value total).

(** A history item as its JSON text has it: an [answer] that is
    [undefined] is left out, another one is written as JSON writes it. *)
Definition serialised_item (item : HistoryItem) : HistoryItem :=
  mkHistoryItem (timestamp item) (question item) (serialised <$> answer item)
    (tag item).

(** [JSON.stringify] of an array of history items: the objects the
    references point to, by value, as JSON writes them. *)
Definition JSON_stringify (value : list nat) : script (list HistoryItem) :=
  read (fun w => serialised_item <$> omap (fun l => heap (window w) !! l) value).

(** [JSON.parse] of such a text: fresh objects, allocated in order. *)
Definition JSON_parse (item : list HistoryItem) : script (list nat) :=
  first <- read (fun w => length (heap (window w))) ;;
  update (set_window (fun b => with_heap (heap b ++ item) b)) ;;
  ret (seq first (length item)).

(** The three localStorage calls; [throws] is the error the browser
    makes this call fail with (quota exceeded, storage disabled), if it
    does. *)
Definition localStorage_setItem (throws : option jsstring) (key : jsstring)
    (text : list HistoryItem) : script unit :=
  match throws with
  | Some error => throw error
  | None =>
      update (set_window
                (fun b => with_localStorage (<[key := text]> (localStorage b)) b))
  end.

Definition localStorage_getItem (throws : option jsstring) (key : jsstring)
  : script (option (list HistoryItem)) :=
  match throws with
  | Some error => throw error
  | None => read (fun w => localStorage (window w) !! key)
  end.

Definition localStorage_removeItem (throws : option jsstring) (key : jsstring)
  : script unit :=
  match throws with
  | Some error => throw error
  | None =>
      update (set_window
                (fun b => with_localStorage (delete key (localStorage b)) b))
  end.

(** [storage.set(key, value)]. *)
Definition storage_set (throws : option jsstring) (key : jsstring) (value : list nat)
  : script unit :=
  try_catch
    (text <- JSON_stringify value ;;
     localStorage_setItem throws key text)
    (fun error => console_error (js "ローカルストレージ保存エラー:") error).

(** [storage.get(key, defaultValue)]. *)
Definition storage_get (throws : option jsstring) (key : jsstring)
    (defaultValue : list nat) : script (list nat) :=
  try_catch
    (item <- localStorage_getItem throws key ;;
     match item with
     | Some text => JSON_parse text
     | None => ret defaultValue
     end)
    (fun error =>
       console_error (js "ローカルストレージ取得エラー:") error ;;
       ret defaultValue).

(** [storage.remove(key)]. *)
Definition storage_remove (throws : option jsstring) (key : jsstring) : script unit :=
  try_catch
    (localStorage_removeItem throws key)
    (fun error => console_error (js "ローカルストレージ削除エラー:") error).

End Common.
End Common.
Import Common.

(** ** The common script: requests and unhandled rejections *)

Module Api.

(** What comes back for a request: [fetch] rejects, or a response
    arrives whose body [response.json()] parses or fails to parse. *)
Inductive response (A : Type) : Type :=
  | rejected (message : jsstring)
  | received (ok : bool) (status : N) (body : completion A).
Arguments rejected {A} message.
Arguments received {A} ok status body.

Section Api.

Context `{Host}.

(** [fetch(url, options)] up to the point where the caller awaits: the
    request is on its way. *)
Definition fetch (url method : jsstring) (body : request_body) : script unit :=
  update (set_window (fun b => with_network (network b ++ [mkRequest url method body]) b)).

Definition settle {A} (c : completion A) : script A :=
  match c with
  | Normal a => ret a
  | Throw e => throw e
  end.

(** [apiCall(url, options)] from the moment the response is there. *)
Definition apiCall_resume {A} (r : response A) : script A :=
  try_catch
    (match r with
     | rejected message => throw message
     | received ok status body =>
         if negb ok
         then throw (js "HTTP error! status: " ++ js (pretty status))
         else settle body
     end)
    (fun error =>
       console_error (js "API呼び出しエラー:") error ;;
       throw error).

(** The [unhandledrejection] listener of the window. *)
Definition unhandledrejection (reason : jsstring) : script unit :=
  console_error (js "未処理のPromise拒否:") reason ;;
  showNotification (js "ネットワークエラーが発生しました。") (js "warning").

(** Calling an async method and dropping its promise: the caller goes
    on whatever happens, a rejection reaches the window listener. *)
Definition detached {A} (m : script A) : script (option A) :=
  try_catch
    (a <- m ;; ret (Some a))
    (fun reason => unhandledrejection reason ;; ret None).

End Api.
End Api.
Import Api.

(** ** ai-consultation.js: what both revisions share *)

Module Manager.
Section Manager.

Context `{Host}.

Definition history_key : jsstring := js "ai_consultation_history".

(** [constructor()]. *)
Definition new_AIConsultationManager : manager :=
  mkManager (Some (js "general")) [] 50.

(** The selector [[data-tag="${tag}"]]. *)
Definition data_tag_selector (tag : option jsstring) : jsstring :=
  js "[data-tag=" ++ [34%N] ++ interpolate tag ++ [34%N] ++ js "]".

Definition deactivate (item : tag_item) : tag_item :=
  mkTagItem (data_tag item) false.

Definition activate (item : tag_item) : tag_item :=
  mkTagItem (data_tag item) true.

(** [selectTag(tag)]. *)
Definition selectTag (tag : option jsstring) : script unit :=
  update (set_this (with_selectedTag tag)) ;;
  update (set_document (fun d => with_tag_items (deactivate <$> tag_items d) d)) ;;
  items <- read (fun w => tag_items (document w)) ;;
  selectedElement <- settle (querySelector (data_tag_selector tag) items) ;;
  match selectedElement with
  | Some i =>
      update (set_document (fun d => with_tag_items (alter activate i (tag_items d)) d))
  | None => ret tt
  end.

(** [selectDefaultTag()]. *)
Definition selectDefaultTag : script unit :=
  selectTag (Some (js "general")).

(** [removeLastMessage()]. *)
Definition removeLastMessage : script unit :=
  chatContainer <- read (fun w => chat_container (document w)) ;;
  match chatContainer with
  | None => throw TypeError
  | Some children =>
      match last children with
      | Some _ =>
          update (set_document
                    (with_chat_container (Some (take (length children - 1) children))))
      | None => ret tt
      end
  end.

(** Allocation of an object literal. *)
Definition new_object (o : HistoryItem) : script nat :=
  l <- read (fun w => length (heap (window w))) ;;
  update (set_window (fun b => with_heap (heap b ++ [o]) b)) ;;
  ret l.

(** [addToHistory(question, answer, tag)]; [now] is
    [new Date().toISOString()]. *)
Definition addToHistory (now : jsstring) (storage_throws : option jsstring)
    (question : jsstring) (answer : option json) (tag : option jsstring)
  : script unit :=
  historyItem <- new_object (mkHistoryItem now question answer tag) ;;
  update (set_this (fun m => with_chatHistory (historyItem :: chatHistory m) m)) ;;
  m <- read this ;;
  (if decide (maxHistoryLength m < length (chatHistory m))
   then update (set_this
                  (with_chatHistory (take (maxHistoryLength m) (chatHistory m))))
   else ret tt) ;;
  value <- read (fun w => chatHistory (this w)) ;;
  storage_set storage_throws history_key value.

Definition render_row (item : HistoryItem) : history_row :=
  mkRow (interpolate (tag item)) (formatDate (timestamp item)) (question item).

(** [updateHistoryDisplay()]. *)
Definition updateHistoryDisplay : script unit :=
  historyContainer <- read (fun w => history_container (document w)) ;;
  match historyContainer with
  | None => ret tt
  | Some _ =>
      history <- read (fun w => chatHistory (this w)) ;;
      if decide (length history = 0)
      then update (set_document (with_history_container (Some no_history_notice)))
      else
        let recentHistory := take 5 history in
        items <- read (fun w => omap (fun l => heap (window w) !! l) recentHistory) ;;
        update (set_document
                  (with_history_container (Some (history_rows (render_row <$> items)))))
  end.

(** [loadConsultationHistory()]. *)
Definition loadConsultationHistory (storage_throws : option jsstring) : script unit :=
  value <- storage_get storage_throws history_key [] ;;
  update (set_this (with_chatHistory value)) ;;
  updateHistoryDisplay.

(** [clearHistory()]. *)
Definition clearHistory (storage_throws : option jsstring) : script unit :=
  update (set_this (with_chatHistory [])) ;;
  storage_remove storage_throws history_key ;;
  updateHistoryDisplay ;;
  showNotification (js "相談履歴をクリアしました") (js "info").

End Manager.
End Manager.
Import Manager.

(** ** ai-consultation.js, the text-only revision
  ([src/web/static/js/ai-consultation.js]) *)

Module TextOnly.
Section TextOnly.

Context `{Host}.

(** [addMessageToChat(type, message, isLoading = false, variant = 'default')];
    [now] is [new Date()]. *)
Definition addMessageToChat (now : jsstring) (type : jsstring)
    (message : option json) (isLoading : bool) (variant : value) : script unit :=
  chatContainer <- read (fun w => chat_container (document w)) ;;
  let messageClass := if decide (type = js "user") then js "message-user" else js "message-ai" in
  let bubbleClass := if decide (type = js "user") then js "user" else js "ai" in
  let icon := if decide (type = js "user") then js "fas fa-user" else js "fas fa-robot" in
  let variantClass := if decide (variant = Str (js "danger")) then js "text-danger" else [] in
  let messageDiv :=
    mkMessage messageClass bubbleClass variantClass isLoading icon None
      (template message) (formatDate now) in
  match chatContainer with
  | None => throw TypeError
  | Some children =>
      let children' := children ++ [message_node messageDiv] in
      update (set_document (with_chat_container (Some children'))) ;;
      update (set_document (with_chat_scrollTop (scrollHeight children')))
  end.

(** [sendQuestion()] up to its [await]. It returns the question the
    suspended call holds, or [None] when the call has returned. *)
Definition sendQuestion (now : jsstring) : script (option jsstring) :=
  questionInput <- read (fun w => question_input (document w)) ;;
  match questionInput with
  | None => throw TypeError
  | Some value =>
      let question := trim value in
      if falsy question then
        showNotification (js "質問を入力してください") (js "warning") ;;
        ret None
      else
        addMessageToChat now (js "user") (str question) false (Str (js "default")) ;;
        update (set_document (with_question_input (Some []))) ;;
        addMessageToChat now (js "ai") (str (js "考え中...")) true (Str (js "default")) ;;
        tag <- read (fun w => selectedTag (this w)) ;;
        fetch (js "/api/ai/consultation") (js "POST") (json_body question tag) ;;
        ret (Some question)
  end.

(** [sendQuestion()] from the response on. *)
Definition sendQuestion_resume (now : jsstring) (storage_throws : option jsstring)
    (r : response json) (question : jsstring) : script unit :=
  try_catch
    (data <- apiCall_resume r ;;
     removeLastMessage ;;
     status <- get data (js "status") ;;
     if strict_eq_string status (js "success") then
       addMessageToChat now (js "ai") (field data (js "answer")) false
         (Str (js "default")) ;;
       tag <- read (fun w => selectedTag (this w)) ;;
       addToHistory now storage_throws question (field data (js "answer")) tag ;;
       showNotification (js "AI相談が完了しました") (js "success")
     else
       addMessageToChat now (js "ai")
         (str (js "エラー: " ++ template (field data (js "error"))))
         false (Str (js "danger")) ;;
       showNotification (js "AI相談でエラーが発生しました") (js "danger"))
    (fun error =>
       removeLastMessage ;;
       addMessageToChat now (js "ai") (str (js "エラー: " ++ error)) false
         (Str (js "danger")) ;;
       showNotification (js "AI相談でエラーが発生しました") (js "danger")).

(** [executeQuickAction(action)]. The result is that of the
    [sendQuestion()] it starts, if it starts one. *)
Definition executeQuickAction (now : jsstring) (action : option jsstring)
  : script (option jsstring) :=
  let question :=
    if decide (action = Some (js "harvest"))
    then Some (js "現在の豆苗の収穫タイミングを判断してください")
    else if decide (action = Some (js "disease"))
    then Some (js "豆苗の病気を診断してください")
    else if decide (action = Some (js "cooking"))
    then Some (js "収穫した豆苗の調理例を教えてください")
    else None in
  match question with
  | None => ret None
  | Some question =>
      questionInput <- read (fun w => question_input (document w)) ;;
      match questionInput with
      | Some _ => update (set_document (with_question_input (Some question)))
      | None => ret tt
      end ;;
      selectTag action ;;
      pending <- detached (sendQuestion now) ;;
      ret (mjoin pending)
  end.

End TextOnly.
End TextOnly.

(** ** ai-consultation.js, the revision with image attachment *)

Module WithImage.
Section WithImage.

Context `{Host}.

(** [MarkdownRenderer.render(markdownText)]: without [marked], only a
    string has a [replace] to call. *)
Definition render (markdownText : option json) : completion jsstring :=
  match marked with
  | Some parse => parse markdownText
  | None =>
      match markdownText with
      | Some (JString s) => Normal (replace_newlines s)
      | Some JNull | None => Throw TypeError
      | Some _ => Throw TypeError_not_a_function
      end
  end.

(** [ImageAttachment.getAttachedImage()]. *)
Definition getAttachedImage : script (option File) := read attachedImage.

(** [ImageAttachment.removeImage()]. *)
Definition removeImage : script unit :=
  update (set_attachedImage None) ;;
  preview <- read (fun w => image_preview (document w)) ;;
  imageInput <- read (fun w => image_input (document w)) ;;
  match preview with
  | Some _ => update (set_document (with_image_preview (Some false)))
  | None => ret tt
  end ;;
  match imageInput with
  | Some _ => update (set_document (with_image_input (Some [])))
  | None => ret tt
  end.

(** [addMessageToChat(type, message, isLoading = false, variant = 'default')]. *)
Definition addMessageToChat (now : jsstring) (type : jsstring)
    (message : option json) (isLoading : bool) (variant : value) : script unit :=
  chatContainer <- read (fun w => chat_container (document w)) ;;
  let messageClass := if decide (type = js "user") then js "message-user" else js "message-ai" in
  let bubbleClass := if decide (type = js "user") then js "user" else js "ai" in
  let icon := if decide (type = js "user") then js "fas fa-user" else js "fas fa-robot" in
  let variantClass := if decide (variant = Str (js "danger")) then js "text-danger" else [] in
  let rendered := bool_decide (type = js "ai") && negb isLoading in
  messageContent <- (if rendered then settle (render message)
                     else ret (template message)) ;;
  let messageDiv :=
    mkMessage messageClass bubbleClass variantClass isLoading icon
      (Some (if rendered then js "markdown-content" else []))
      messageContent (formatDate now) in
  match chatContainer with
  | None => throw TypeError
  | Some children =>
      let children' := children ++ [message_node messageDiv] in
      update (set_document (with_chat_container (Some children'))) ;;
      update (set_document (with_chat_scrollTop (scrollHeight children')))
  end.

Definition of_file (f : option File) : value :=
  match f with Some f => Obj f | None => Null end.

(** [sendQuestion()] up to its first [await]. *)
Definition sendQuestion (now : jsstring) : script (option jsstring) :=
  questionInput <- read (fun w => question_input (document w)) ;;
  match questionInput with
  | None => throw TypeError
  | Some value =>
      let question := trim value in
      attachedImage <- getAttachedImage ;;
      if falsy question && negb (bool_decide (is_Some attachedImage)) then
        showNotification (js "質問を入力するか画像を添付してください") (js "warning") ;;
        ret None
      else
        addMessageToChat now (js "user") (str question) false (of_file attachedImage) ;;
        update (set_document (with_question_input (Some []))) ;;
        addMessageToChat now (js "ai") (str (js "考え中...")) true (Str (js "default")) ;;
        tag <- read (fun w => selectedTag (this w)) ;;
        fetch (js "/api/ai/consultation") (js "POST")
          (form_data question tag attachedImage) ;;
        ret (Some question)
  end.

(** [sendQuestion()] from the response on: the [fetch] is not checked
    for [response.ok], the body is parsed whatever the status. *)
Definition sendQuestion_resume (now : jsstring) (storage_throws : option jsstring)
    (r : response json) (question : jsstring) : script unit :=
  try_catch
    (data <- match r with
             | rejected message => throw message
             | received _ _ body => settle body
             end ;;
     removeLastMessage ;;
     status <- get data (js "status") ;;
     (if strict_eq_string status (js "success") then
        addMessageToChat now (js "ai") (field data (js "answer")) false
          (Str (js "default")) ;;
        tag <- read (fun w => selectedTag (this w)) ;;
        addToHistory now storage_throws question (field data (js "answer")) tag ;;
        showNotification (js "AI相談が完了しました") (js "success")
      else
        addMessageToChat now (js "ai")
          (str (js "エラー: " ++ template (field data (js "error"))))
          false (Str (js "danger")) ;;
        showNotification (js "AI相談でエラーが発生しました") (js "danger")) ;;
     removeImage)
    (fun error =>
       removeLastMessage ;;
       addMessageToChat now (js "ai") (str (js "エラー: " ++ error)) false
         (Str (js "danger")) ;;
       showNotification (js "AI相談でエラーが発生しました") (js "danger")).

(** [executeQuickAction(action)]. *)
Definition executeQuickAction (now : jsstring) (action : option jsstring)
  : script (option jsstring) :=
  let question :=
    if decide (action = Some (js "harvest"))
    then Some (js "現在の豆苗の収穫タイミングを判断してください")
    else if decide (action = Some (js "disease"))
    then Some (js "豆苗の病気を診断してください")
    else if decide (action = Some (js "cooking"))
    then Some (js "収穫した豆苗の調理例を教えてください")
    else None in
  match question with
  | None => ret None
  | Some question =>
      questionInput <- read (fun w => question_input (document w)) ;;
      match questionInput with
      | Some _ => update (set_document (with_question_input (Some question)))
      | None => ret tt
      end ;;
      selectTag action ;;
      pending <- detached (sendQuestion now) ;;
      ret (mjoin pending)
  end.

End WithImage.
End WithImage.

(** ** The dashboard script: the harvest judgment *)

Module Dashboard.

(** What [displayHarvestResult] writes into the elements of
    [#harvest-result] that exist. *)
Record harvest_result : Type := mkResult {
  ready_text : jsstring;
  ready_class : jsstring;
  confidence_percent : float;
  confidence_class : jsstring;
  recommendation_text : jsstring;
  updated_text : jsstring
}.

Section Dashboard.

Context `{Host}.





(** [displayHarvestResult(data)] of the later dashboard revision, for
    the body [data] of a response with [status === 'success']; [now] is
    [new Date()]. *)
Definition displayHarvestResult (now : jsstring) (data : json) : harvest_result :=
  let ready := toBoolean (field data (js "harvest_ready")) in
  let confidence := Math_round (toNumber (field data (js "confidence")) * 100)%float in
  mkResult
    (if ready then js "はい" else js "いいえ")
    (js "badge " ++ (if ready then js "bg-success" else js "bg-warning")
       ++ js " fs-6")
    confidence
    (js "badge "
       ++ (if PrimFloat.ltb 70 confidence then js "bg-success"
           else if PrimFloat.ltb 50 confidence then js "bg-warning"
           else js "bg-danger")
       ++ js " fs-6")
    (if toBoolean (field data (js "recommendation"))
     then template (field data (js "recommendation"))
     else js "特にありません")
    (formatDate now).

End Dashboard.
End Dashboard.

(** ** The judgment schema and its validator *)

Module Validator.

(** Modelled from the spec: the numeric range of a confidence, section 3
    ("All confidence fields must lie in [0,1]"). The server-side parser
    and validator are not among the sources. *)
Definition in_unit_interval (c : float) : bool :=
  PrimFloat.leb 0 c && PrimFloat.leb c 1.

(** Modelled from the spec: the Harvest variant of StructuredJudgment,
    section 3. *)
Record Harvest : Type := mkHarvest {
  harvestReady : bool;
  harvestConfidence : float;
  recommendation : jsstring;
  daysRemaining : Z;
  growthStage : jsstring;
  qualityScore : float
}.

(** Modelled from the spec: the Disease variant, section 3. *)
Record Disease : Type := mkDisease {
  diseaseDetected : jsstring;
  diseaseConfidence : float;
  treatment : jsstring;
  prevention : jsstring;
  severity : jsstring;
  affectedArea : jsstring
}.

(** Modelled from the spec: the Cooking variant, section 3; it has no
    confidence field. *)
Record Cooking : Type := mkCooking {
  recommendedDishes : list jsstring;
  cookingTips : jsstring;
  nutritionInfo : jsstring;
  storageTips : jsstring
}.

(** Modelled from the spec: the General variant, section 3. *)
Record General : Type := mkGeneral {
  generalAnswer : jsstring;
  generalConfidence : float;
  relatedTopics : list jsstring;
  nextSteps : list jsstring
}.

(** Modelled from the spec: StructuredJudgment, "a tagged union, one
    variant per tag". *)
Inductive StructuredJudgment : Type :=
  | harvest_judgment (j : Harvest)
  | disease_judgment (j : Disease)
  | cooking_judgment (j : Cooking)
  | general_judgment (j : General).

(** Modelled from the spec: what decoding a provider's output yields
    before validation (section 4.4, steps 1 and 2), every field present
    or missing. *)
Inductive candidate : Type :=
  | harvest_candidate (ready : option bool) (confidence : option float)
      (recommendation : option jsstring) (days : option Z)
      (stage : option jsstring) (quality : option float)
  | disease_candidate (detected : option jsstring) (confidence : option float)
      (treatment prevention severity area : option jsstring)
  | cooking_candidate (dishes : option (list jsstring))
      (tips nutrition storage : option jsstring)
  | general_candidate (answer : option jsstring) (confidence : option float)
      (topics steps : option (list jsstring)).

(** Modelled from the spec: the confidence a candidate carries, if its
    variant has one and the field is present. *)
Definition candidate_confidence (c : candidate) : option float :=
  match c with
  | harvest_candidate _ confidence _ _ _ _ => confidence
  | disease_candidate _ confidence _ _ _ _ => confidence
  | cooking_candidate _ _ _ _ => None
  | general_candidate _ confidence _ _ => confidence
  end.

(** Modelled from the spec: whether the variant has a confidence field. *)
Definition has_confidence_field (c : candidate) : bool :=
  match c with
  | cooking_candidate _ _ _ _ => false
  | _ => true
  end.

(** Modelled from the spec: step 3 of section 4.4, "validate every
    field's type and range per section 3 invariants. Any missing required
    field, out-of-range numeric value, or empty required string yields
    ParseError - the record is discarded wholesale", [None] being
    ParseError. The values of an accepted record are those of the
    candidate: nothing is clamped. *)
Definition validate (c : candidate) : option StructuredJudgment :=
  match c with
  | harvest_candidate (Some ready) (Some confidence) (Some recommendation)
      (Some days) (Some stage) (Some quality) =>
      if in_unit_interval confidence && (0 <=? days)%Z
         && (negb ready || (days =? 0)%Z)
      then Some (harvest_judgment
                   (mkHarvest ready confidence recommendation days stage quality))
      else None
  | disease_candidate (Some detected) (Some confidence) (Some treatment)
      (Some prevention) (Some severity) (Some area) =>
      if in_unit_interval confidence
      then Some (disease_judgment
                   (mkDisease detected confidence treatment prevention severity area))
      else None
  | cooking_candidate (Some (dish :: dishes)) (Some tips) (Some nutrition)
      (Some storage) =>
      Some (cooking_judgment (mkCooking (dish :: dishes) tips nutrition storage))
  | general_candidate (Some (c0 :: answer)) (Some confidence) (Some topics)
      (Some steps) =>
      if in_unit_interval confidence
      then Some (general_judgment (mkGeneral (c0 :: answer) confidence topics steps))
      else None
  | _ => None
  end.

(** Modelled from the spec: the confidence fields of a judgment. *)
Definition confidences (j : StructuredJudgment) : list float :=
  match j with
  | harvest_judgment h => [harvestConfidence h]
  | disease_judgment d => [diseaseConfidence d]
  | cooking_judgment _ => []
  | general_judgment g => [generalConfidence g]
  end.

End Validator.

(** ** The request router *)

Module Router.

(** Modelled from the spec: the tags, section 3 ("tag (enum:
    general|harvest|disease|cooking)"), each naming the service of
    section 2 that handles it. The server-side Request Router is not
    among the sources. *)
Inductive Tag : Type := General | Harvest | Disease | Cooking.

(** Modelled from the spec: the name of a tag, as in the enumeration of
    section 3. *)
Definition name (t : Tag) : jsstring :=
  match t with
  | General => js "general"
  | Harvest => js "harvest"
  | Disease => js "disease"
  | Cooking => js "cooking"
  end.

(** Modelled from the spec: section 4.1, "Resolves tag to the matching
    service, defaulting unknown tags to General", and section 3,
    "unknown tag maps to general". [tag] is the tag of the request as
    it arrives, [None] when the request has none. *)
Definition resolve (tag : option jsstring) : Tag :=
  if decide (tag = Some (js "harvest")) then Harvest
  else if decide (tag = Some (js "disease")) then Disease
  else if decide (tag = Some (js "cooking")) then Cooking
  else General.

End Router.

(** ** Sequences of history operations *)

Module History.
Section History.

Context `{Host}.

(** The operations on the consultation history, each with what the
    environment decides for it. *)
Inductive history_op : Type :=
  | load (storage_throws : option jsstring)
  | add (now : jsstring) (storage_throws : option jsstring)
      (question : jsstring) (answer : option json) (tag : option jsstring)
  | render
  | clear (storage_throws : option jsstring).

(** A page as it is when the script starts: the manager just
    constructed, nothing attached, no object allocated, nothing logged;
    localStorage is what earlier visits left. *)
Definition start_page (d : dom) (stored : gmap (list N) (list HistoryItem)) : page :=
  mkPage new_AIConsultationManager None d (mkBrowser [] stored [] []).

Definition perform (op : history_op) : script unit :=
  match op with
  | load storage_throws => loadConsultationHistory storage_throws
  | add now storage_throws question answer tag =>
      addToHistory now storage_throws question answer tag
  | render => updateHistoryDisplay
  | clear storage_throws => clearHistory storage_throws
  end.

Fixpoint run (ops : list history_op) (w : page) : page :=
  match ops with
  | [] => w
  | op :: ops' => run ops' (exec (perform op) w)
  end.

(** One visit of the page: it opens on the document [v.1] with the
    localStorage left behind, and the operations [v.2] follow. *)
Definition visit (w : page) (v : dom * list history_op) : page :=
  run v.2 (start_page v.1 (localStorage (window w))).

(** Visit after visit, from a browser that has never seen the page. *)
Definition visits (vs : list (dom * list history_op)) : page :=
  foldl visit (start_page (mkDom None None None [] None None None [] 0) ∅) vs.

(** The history as the items its references denote, newest first. *)
Definition entries (w : page) : list HistoryItem :=
  omap (fun l => heap (window w) !! l) (chatHistory (this w)).

(** The number of items stored under the history key. *)
Definition stored_length (w : page) : nat :=
  match localStorage (window w) !! history_key with
  | Some items => length items
  | None => 0
  end.

(** Every reference of the history points into the heap. *)
Definition well_formed (w : page) : Prop :=
  Forall (fun l => l < length (heap (window w))) (chatHistory (this w)).

(** The page [addToHistory] leaves, written out. *)
Definition added (now : jsstring) (storage_throws : option jsstring)
    (question : jsstring) (answer : option json) (tag : option jsstring)
    (w : page) : page :=
  let item := mkHistoryItem now question answer tag in
  let objects := heap (window w) ++ [item] in
  let history :=
    take (maxHistoryLength (this w))
      (length (heap (window w)) :: chatHistory (this w)) in
  mkPage (with_chatHistory history (this w)) (attachedImage w) (document w)
    (match storage_throws with
     | Some error =>
         mkBrowser objects (localStorage (window w))
           (console (window w) ++ [(js "ローカルストレージ保存エラー:", error)])
           (network (window w))
     | None =>
         mkBrowser objects
           (<[history_key := serialised_item <$> omap (fun l => objects !! l) history]>
              (localStorage (window w)))
           (console (window w)) (network (window w))
     end).

(** The items [loadConsultationHistory] reads. *)
Definition loaded_items (storage_throws : option jsstring) (w : page)
  : list HistoryItem :=
  match storage_throws with
  | Some _ => []
  | None => default [] (localStorage (window w) !! history_key)
  end.

(** Adding a given item: the clock reads its timestamp. *)
Definition add_item (a : option jsstring * HistoryItem) : history_op :=
  add (timestamp a.2) a.1 (question a.2) (answer a.2) (tag a.2).

(** The bound of 50 on the history in memory and on the stored one. *)
Definition within_capacity (w : page) : Prop :=
  maxHistoryLength (this w) = 50
  ∧ length (chatHistory (this w)) ≤ 50
  ∧ stored_length w ≤ 50.

End History.
End History.
Import History.

(** The four tags of the consultation API. *)
Definition enumerated (tag : option jsstring) : bool :=
  bool_decide (tag = Some (js "general")) || bool_decide (tag = Some (js "harvest"))
  || bool_decide (tag = Some (js "disease")) || bool_decide (tag = Some (js "cooking")).

(** The actions [executeQuickAction] has a case for. *)
Definition quick_action (action : option jsstring) : bool :=
  bool_decide (action = Some (js "harvest")) || bool_decide (action = Some (js "disease"))
  || bool_decide (action = Some (js "cooking")).

(** The three cases of the [switch] of [executeQuickAction]: an action
    with the question assigned for it. *)
Definition quick_questions : list (option jsstring * jsstring) :=
  [(Some (js "harvest"), js "現在の豆苗の収穫タイミングを判断してください");
   (Some (js "disease"), js "豆苗の病気を診断してください");
   (Some (js "cooking"), js "収穫した豆苗の調理例を教えてください")].

(** A host for running the scripts on examples: dates and numbers are
    not formatted, [marked] is not loaded, and a selector matches the
    first tag element whose [data-tag] it names. *)
Definition example_host : Host := {|
  toLocaleString := fun s => s;
  toFixed := fun _ _ => [];
  Number_toString := fun _ => [];
  Number_of_string := fun _ => nan;
  marked := None;
  querySelector := fun selector items =>
    Normal (fst <$> list_find
                      (fun i => is_Some (data_tag i)
                                ∧ data_tag_selector (data_tag i) = selector) items);
  scrollHeight := fun children => N.of_nat (length children)
|}.

Definition empty_dom : dom :=
  mkDom (Some []) (Some []) (Some template_html) [] None None (Some status_template) []
    0.

(** [after] differs from [w] by one more notification, a warning. *)
Definition only_warned (w after : page) : Prop :=
  this after = this w
  ∧ attachedImage after = attachedImage w
  ∧ window after = window w
  ∧ question_input (document after) = question_input (document w)
  ∧ chat_container (document after) = chat_container (document w)
  ∧ history_container (document after) = history_container (document w)
  ∧ tag_items (document after) = tag_items (document w)
  ∧ ∃ warning,
      notifications (document after)
      = notifications (document w) ++ [(warning, js "warning")].

(** Fifty-one additions of distinct items, of which the writes of the
    even ones fail. *)
Definition fifty_one_additions : list (option jsstring * HistoryItem) :=
  (fun i : nat =>
     (if Nat.even i then Some (js "QuotaExceededError") else None,
      mkHistoryItem (js "2025-10-15T09:30:" ++ js (pretty i)) (js "q")
        (str (js "a")) (Some (js "general")))) <$> seq 1 51.

(** Two pages that differ at most in localStorage and in the console. *)
Definition same_but_storage (w1 w2 : page) : Prop :=
  this w1 = this w2
  ∧ attachedImage w1 = attachedImage w2
  ∧ document w1 = document w2
  ∧ heap (window w1) = heap (window w2)
  ∧ network (window w1) = network (window w2).

(** Two computations that, from such pages, complete alike and lead to
    such pages again. *)
Definition blind {A} (m1 m2 : script A) : Prop :=
  ∀ w1 w2, same_but_storage w1 w2 →
    fst (m1 w1) = fst (m2 w2) ∧ same_but_storage (snd (m1 w1)) (snd (m2 w2)).

(** Decides the comparisons of a [switch] on a known string. *)
Ltac resolve_switch :=
  cbv zeta;
  repeat match goal with
    | |- context [decide (?a = ?b)] =>
        let Heq := fresh "Heq" in
        destruct (decide (a = b)) as [Heq|Heq];
        [try (vm_compute in Heq; discriminate)
        |try (exfalso; apply Heq; reflexivity)]
    end.

(** ** Postconditions *)

(** [post m N T w]: run from [w], [m] either completes normally with a
    value and a page that satisfy [N], or throws an error on a page that
    satisfy [T]. *)
Definition post {A} (m : script A) (N : A → page → Prop)
    (T : jsstring → page → Prop) (w : page) : Prop :=
  match m w with
  | (Normal a, w') => N a w'
  | (Throw e, w') => T e w'
  end.

(** No error is thrown. *)
Definition never : jsstring → page → Prop := fun _ _ => False.

(** ** What the rest of [sendQuestion] leaves behind *)

(** What [apiCall] ends with for a response: the parsed body, or the
    error it throws (the request was rejected, the status is not ok or
    the body could not be parsed). *)
Definition apiCall_outcome {A} (r : response A) : completion A :=
  match r with
  | rejected message => Throw message
  | received ok status body =>
      if negb ok then Throw (js "HTTP error! status: " ++ js (pretty status))
      else body
  end.

(** What [fetch] followed by [response.json()] ends with, in the
    revision with image attachment: the status is not looked at. *)
Definition json_outcome {A} (r : response A) : completion A :=
  match r with
  | rejected message => Throw message
  | received _ _ body => body
  end.

(** The body carries an answer: it is not [null], its [status] is
    ['success'], and [answer] is what its [answer] reads as. *)
Definition answers (data : json) (answer : option json) : Prop :=
  data ≠ JNull
  ∧ strict_eq_string (field data (js "status")) (js "success") = true
  ∧ field data (js "answer") = answer.

(** What the success branch leaves, for either revision, on a page
    whose chat had [children] before its last message: that last
    message is gone, the answer is there as [shown], the chat is
    scrolled to its end, the history has one more item and a success
    notification is shown. *)
Definition recorded `{Host} (now q : jsstring) (answer : option json)
    (children : list chat_node) (shown : jsstring) (w after : page) : Prop :=
  chatHistory (this after)
  = take (maxHistoryLength (this w))
      (length (heap (window w)) :: chatHistory (this w))
  ∧ heap (window after)
    = heap (window w) ++ [mkHistoryItem now q answer (selectedTag (this w))]
  ∧ (∃ node,
       chat_container (document after) = Some (children ++ [message_node node])
       ∧ chat_scrollTop (document after)
         = scrollHeight (children ++ [message_node node])
       ∧ messageContent node = shown
       ∧ isLoading node = false
       ∧ variantClass node = [])
  ∧ notifications (document after)
    = notifications (document w) ++ [(js "AI相談が完了しました", js "success")]
  ∧ network (window after) = network (window w).

(** The manager, the item objects, the store and the requests of
    [after] are those of [w]. *)
Definition same_history (w after : page) : Prop :=
  this after = this w
  ∧ heap (window after) = heap (window w)
  ∧ localStorage (window after) = localStorage (window w)
  ∧ network (window after) = network (window w).

(** What the error branches leave on a page whose chat had [children]:
    the history as it was, the last [removed] chat messages gone, an
    error message with the content [shown] in their place, the chat
    scrolled to its end, and a danger notification. *)
Definition reported `{Host} (removed : nat) (children : list chat_node)
    (shown : jsstring) (w after : page) : Prop :=
  same_history w after
  ∧ (∃ node,
       chat_container (document after)
       = Some (take (length children - removed) children ++ [message_node node])
       ∧ chat_scrollTop (document after)
         = scrollHeight (take (length children - removed) children
                         ++ [message_node node])
       ∧ messageContent node = shown
       ∧ isLoading node = false
       ∧ variantClass node = js "text-danger")
  ∧ notifications (document after)
    = notifications (document w) ++ [(js "AI相談でエラーが発生しました", js "danger")].

(** The ways the text-only revision gets no answer, each with the number
    of chat messages the rest of [sendQuestion] then removes and the
    detail of the error message it shows: [apiCall] fails; the body is
    [null], on which reading [data.status] throws after the first
    removal; the status is not ['success']. *)
Definition TextOnly_unanswered `{Host} (r : response json) (removed : nat)
    (detail : jsstring) : Prop :=
  match apiCall_outcome r with
  | Throw error => removed = 1 ∧ detail = error
  | Normal JNull => removed = 2 ∧ detail = TypeError
  | Normal data =>
      strict_eq_string (field data (js "status")) (js "success") = false
      ∧ removed = 1
      ∧ detail = template (field data (js "error"))
  end.

(** The same for the revision with image attachment, where moreover an
    answer that [render] throws on is reported as an error, after the
    first removal. *)
Definition WithImage_unanswered `{Host} (r : response json) (removed : nat)
    (detail : jsstring) : Prop :=
  match json_outcome r with
  | Throw error => removed = 1 ∧ detail = error
  | Normal JNull => removed = 2 ∧ detail = TypeError
  | Normal data =>
      if strict_eq_string (field data (js "status")) (js "success")
      then removed = 2 ∧ WithImage.render (field data (js "answer")) = Throw detail
      else removed = 1 ∧ detail = template (field data (js "error"))
  end.

(** The message the revision with image attachment shows for a body
    that is not [null], before it detaches the image. *)
Definition WithImage_message `{Host} (data : json) : option json :=
  if strict_eq_string (field data (js "status")) (js "success")
  then field data (js "answer")
  else str (js "エラー: " ++ template (field data (js "error"))).

(** [m] leaves the part [f] of the page as it was, whether it returns
    or throws. *)
Definition keeps {A B} (f : page → B) (m : script A) : Prop :=
  ∀ w, f (snd (m w)) = f w.

(** The part of the page [same_history] is about. *)
Definition history_part (w : page) :=
  (this w, heap (window w), localStorage (window w), network (window w)).


(** The page with one more message at the end of the chat, which had
    [children], and the chat scrolled to its end. *)
Definition appended `{Host} (children : list chat_node) (node : message) (w : page)
  : page :=
  set_document (with_chat_scrollTop (scrollHeight (children ++ [message_node node])))
    (set_document (with_chat_container (Some (children ++ [message_node node]))) w).

(** The content the revision with image attachment gives a message:
    rendered, for a message of the assistant that is not the "thinking"
    one. *)
Definition WithImage_content `{Host} (type : jsstring) (isLoading : bool)
    (message : option json) : completion jsstring :=
  if bool_decide (type = js "ai") && negb isLoading
  then WithImage.render message
  else Normal (template message).

(** What [sendQuestion] leaves when it goes ahead: the question as a user
    message followed by the "thinking" message, the question field
    emptied, one more request (to [/api/ai/consultation], by POST, with
    [body]), and the rest as it was. *)
Definition sent `{Host} (body : request_body) (question : jsstring)
    (children : list chat_node) (w after : page) : Prop :=
  this after = this w
  ∧ attachedImage after = attachedImage w
  ∧ heap (window after) = heap (window w)
  ∧ localStorage (window after) = localStorage (window w)
  ∧ network (window after)
    = network (window w) ++ [mkRequest (js "/api/ai/consultation") (js "POST") body]
  ∧ question_input (document after) = Some []
  ∧ notifications (document after) = notifications (document w)
  ∧ tag_items (document after) = tag_items (document w)
  ∧ ∃ user thinking,
      chat_container (document after)
      = Some (children ++ [message_node user; message_node thinking])
      ∧ chat_scrollTop (document after)
        = scrollHeight (children ++ [message_node user; message_node thinking])
      ∧ messageContent user = question
      ∧ messageClass user = js "message-user"
      ∧ isLoading user = false
      ∧ messageClass thinking = js "message-ai"
      ∧ isLoading thinking = true.

(** What a quick action that is carried out leaves: its tag selected, its
    question shown in the chat, followed by the "thinking" message, the
    question field emptied and one more request, with [body]. *)
Definition asked `{Host} (action : option jsstring) (body : request_body)
    (question : jsstring) (children : list chat_node) (w after : page) : Prop :=
  selectedTag (this after) = action
  ∧ chatHistory (this after) = chatHistory (this w)
  ∧ network (window after)
    = network (window w) ++ [mkRequest (js "/api/ai/consultation") (js "POST") body]
  ∧ question_input (document after) = Some []
  ∧ notifications (document after) = notifications (document w)
  ∧ ∃ user thinking,
      chat_container (document after)
      = Some (children ++ [message_node user; message_node thinking])
      ∧ chat_scrollTop (document after)
        = scrollHeight (children ++ [message_node user; message_node thinking])
      ∧ messageContent user = question
      ∧ isLoading thinking = true.

(** What a quick action leaves on a page without question field: its tag
    selected, no request, and the rejection of [sendQuestion] logged and
    shown by the window's handler as a network error. *)
Definition rejected_unasked (action : option jsstring) (w after : page) : Prop :=
  selectedTag (this after) = action
  ∧ chatHistory (this after) = chatHistory (this w)
  ∧ network (window after) = network (window w)
  ∧ chat_container (document after) = chat_container (document w)
  ∧ console (window after)
    = console (window w) ++ [(js "未処理のPromise拒否:", TypeError)]
  ∧ notifications (document after)
    = notifications (document w)
      ++ [(js "ネットワークエラーが発生しました。", js "warning")].

(** ** The image attachment of the revision with images *)

Module ImageAttachment.
Section ImageAttachment.

Context `{Host}.

(** [s.startsWith(searchString)]. *)
Fixpoint startsWith (s searchString : jsstring) : bool :=
  match searchString, s with
  | [], _ => true
  | c :: searchString', d :: s' => bool_decide (d = c) && startsWith s' searchString'
  | _ :: _, [] => false
  end.

(** [handleImageSelect(event)], with [files] the [event.target.files].
    The [showPreview] it ends with only starts a [FileReader]; what
    that does once the file is read is [showPreview_onload]. *)
Definition handleImageSelect (files : list File) : script unit :=
  match files !! 0 with
  | Some file =>
      if (5 * 1024 * 1024 <? file_size file)%N then
        showNotification (js "画像サイズは5MB以下にしてください") (js "warning")
      else if negb (startsWith (file_type file) (js "image/")) then
        showNotification (js "画像ファイルを選択してください") (js "warning")
      else
        update (set_attachedImage (Some file))
  | None => ret tt
  end.

(** The [onload] handler [showPreview] installs; [previewImage] tells
    whether the page has an element [#preview-image]. *)
Definition showPreview_onload (previewImage : bool) : script unit :=
  preview <- read (fun w => image_preview (document w)) ;;
  match preview with
  | Some _ =>
      if previewImage
      then update (set_document (with_image_preview (Some true)))
      else ret tt
  | None => ret tt
  end.

(** What happens on the consultation page with image attachment, each
    event with what the environment decides for it. *)
Inductive page_event : Type :=
  | image_selected (files : list File)
  | preview_loaded (previewImage : bool)
  | remove_clicked
  | tag_clicked (tag : option jsstring)
  | send_clicked (now : jsstring)
  | quick_clicked (now : jsstring) (action : option jsstring)
  | responded (now : jsstring) (storage_throws : option jsstring)
      (r : response json) (question : jsstring).

(** The [error] listener of the window. *)
Definition window_error (error : jsstring) : script unit :=
  console_error (js "JavaScriptエラー:") error ;;
  showNotification (js "エラーが発生しました。ページを再読み込みしてください。")
    (js "danger").

(** An event listener: what it throws reaches the [error] listener. *)
Definition listener {A} (m : script A) : script unit :=
  try_catch (m ;; ret tt) window_error.

Definition handle (e : page_event) : script unit :=
  match e with
  | image_selected files => listener (handleImageSelect files)
  | preview_loaded previewImage => listener (showPreview_onload previewImage)
  | remove_clicked => listener WithImage.removeImage
  | tag_clicked tag => listener (selectTag tag)
  | send_clicked now => listener (detached (WithImage.sendQuestion now))
  | quick_clicked now action => listener (WithImage.executeQuickAction now action)
  | responded now storage_throws r question =>
      detached (WithImage.sendQuestion_resume now storage_throws r question) ;;
      ret tt
  end.

(** The page after the events, one after the other. *)
Fixpoint events (es : list page_event) (w : page) : page :=
  match es with
  | [] => w
  | e :: es' => events es' (exec (handle e) w)
  end.

(** A file [handleImageSelect] lets through. *)
Definition accepted (f : File) : Prop :=
  (file_size f ≤ 5 * 1024 * 1024)%N
  ∧ startsWith (file_type f) (js "image/") = true.

Definition checked (image : option File) : Prop :=
  match image with Some f => accepted f | None => True end.

(** The image a request carries, if it carries one. *)
Definition image_of (r : request) : option File :=
  match body r with
  | form_data _ _ image => image
  | _ => None
  end.

(** The attached image and the image of every request have passed the
    checks of [handleImageSelect]. *)
Definition images_checked (w : page) : Prop :=
  checked (attachedImage w)
  ∧ Forall (fun r => checked (image_of r)) (network (window w)).

End ImageAttachment.
End ImageAttachment.
Import ImageAttachment.

(** A computation that preserves an invariant of the page, however it
    ends. *)
Definition preserves {A} (I : page → Prop) (m : script A) : Prop :=
  ∀ w, I w → I (snd (m w)).

(** ** The harvest check of the dashboard *)


(** ** The dashboard manager: temperature chart and update timer *)

Module DashboardManager.

(** An item of the temperature history: [item.timestamp], and
    [item.temperature] and [item.value] as the values they read as,
    [None] being [undefined] (a [null] is [Some JNull]). *)
Record reading : Type := mkReading {
  reading_timestamp : jsstring;
  reading_temperature : option json;
  reading_value : option json
}.

(** [chart.data.labels] and [chart.data.datasets[0].data] of the
    temperature chart. *)
Record chart : Type := mkChart {
  chart_labels : list jsstring;
  chart_data : list (option json)
}.

(** The fields [this.*] of [DashboardManager], and the intervals of the
    window that are set, by their handles (integers greater than
    zero). *)
Record dashboard : Type := mkDashboard {
  updateTimer : option positive;
  isUpdating : bool;
  isInitialized : bool;
  temperatureChart : option chart;
  historyLoaded : bool;
  intervals : list positive
}.

Definition with_updateTimer (t : option positive) (d : dashboard) : dashboard :=
  mkDashboard t (isUpdating d) (isInitialized d) (temperatureChart d) (historyLoaded d)
    (intervals d).

Definition with_isInitialized (b : bool) (d : dashboard) : dashboard :=
  mkDashboard (updateTimer d) (isUpdating d) b (temperatureChart d) (historyLoaded d)
    (intervals d).

Definition with_temperatureChart (c : option chart) (d : dashboard) : dashboard :=
  mkDashboard (updateTimer d) (isUpdating d) (isInitialized d) c (historyLoaded d)
    (intervals d).

Definition with_historyLoaded (b : bool) (d : dashboard) : dashboard :=
  mkDashboard (updateTimer d) (isUpdating d) (isInitialized d) (temperatureChart d) b
    (intervals d).

Definition with_intervals (l : list positive) (d : dashboard) : dashboard :=
  mkDashboard (updateTimer d) (isUpdating d) (isInitialized d) (temperatureChart d)
    (historyLoaded d) l.

(** [constructor()], in a window without intervals. *)
Definition new_DashboardManager : dashboard :=
  mkDashboard None false false None false [].

(** [setInterval(callback, delay)] returning [handle]. *)
Definition setInterval (handle : positive) (d : dashboard) : dashboard :=
  with_intervals (intervals d ++ [handle]) d.

(** [clearInterval(id)]. *)
Definition clearInterval (id : positive) (d : dashboard) : dashboard :=
  with_intervals (filter (fun i => i ≠ id) (intervals d)) d.

(** [stopAutoUpdate()], the same in both revisions. *)
Definition stopAutoUpdate (d : dashboard) : dashboard :=
  match updateTimer d with
  | Some t => with_updateTimer None (clearInterval t d)
  | None => d
  end.

(** [startAutoUpdate()]; [handle] is what [setInterval] returns. *)
Definition startAutoUpdate (handle : positive) (d : dashboard) : dashboard :=
  with_updateTimer (Some handle) (setInterval handle (stopAutoUpdate d)).

(** [destroyChart()]. *)
Definition destroyChart (d : dashboard) : dashboard :=
  match temperatureChart d with
  | Some _ => with_temperatureChart None d
  | None => d
  end.

(** [cleanup()]. *)
Definition cleanup (d : dashboard) : dashboard :=
  with_historyLoaded false (with_isInitialized false (destroyChart (stopAutoUpdate d))).

(** The first revision of the dashboard script. *)
Module First.

(** [startAutoUpdate()] as it first was: no [stopAutoUpdate] before. *)
Definition startAutoUpdate (handle : positive) (d : dashboard) : dashboard :=
  with_updateTimer (Some handle) (setInterval handle d).

(** [cleanup()]. *)
Definition cleanup (d : dashboard) : dashboard := stopAutoUpdate d.

End First.

Section Chart.

(** [new Date(timestamp).toLocaleTimeString('ja-JP', ...)]. *)
Variable toLocaleTimeString : jsstring → jsstring.

(** [initializeChart()] up to the history it asks for; [ctx] tells
    whether the page has [#temperature-chart]. *)
Definition initializeChart (ctx : bool) (d : dashboard) : dashboard :=
  if ctx then with_temperatureChart (Some (mkChart [] [])) d else d.

(** [item.temperature !== undefined ? item.temperature : item.value]: a
    [null] temperature is defined and is taken. *)
Definition tempValue (item : reading) : option json :=
  match reading_temperature item with
  | Some temperature => Some temperature
  | None => reading_value item
  end.

(** [updateChartData(history)]. *)
Definition updateChartData (history : option (list reading)) (d : dashboard)
  : dashboard :=
  match temperatureChart d, history with
  | Some _, Some (item :: items) =>
      let labels := (fun item => toLocaleTimeString (reading_timestamp item))
                      <$> item :: items in
      let temperatures := tempValue <$> item :: items in
      with_temperatureChart (Some (mkChart labels temperatures)) d
  | _, _ => d
  end.

(** [loadSampleData()]; [time i] is the hour [i] hours ago and
    [temperature i] the number drawn for it. *)
Definition loadSampleData (time : nat → jsstring) (temperature : nat → float)
    (d : dashboard) : dashboard :=
  let sampleData :=
    (fun i => mkReading (time i) (Some (JNumber (temperature i)))
                (Some (JNumber (temperature i))))
      <$> reverse (seq 0 24) in
  updateChartData (Some sampleData) d.

(** [addDatapointToChart(timestamp, temperature)]. *)
Definition addDatapointToChart (timestamp : jsstring) (temperature : option json)
    (d : dashboard) : dashboard :=
  match temperatureChart d with
  | None => d
  | Some chart =>
      let labels := chart_labels chart ++ [toLocaleTimeString timestamp] in
      let data := chart_data chart ++ [temperature] in
      if decide (24 < length labels)
      then with_temperatureChart (Some (mkChart (tail labels) (tail data))) d
      else with_temperatureChart (Some (mkChart labels data)) d
  end.

(** The calls on the manager, each with what the environment decides
    for it. *)
Inductive manager_call : Type :=
  | call_initializeChart (ctx : bool)
  | call_updateChartData (history : option (list reading))
  | call_loadSampleData (time : nat → jsstring) (temperature : nat → float)
  | call_addDatapointToChart (timestamp : jsstring) (temperature : option json)
  | call_destroyChart
  | call_startAutoUpdate (handle : positive)
  | call_stopAutoUpdate
  | call_cleanup.

Definition call (c : manager_call) : dashboard → dashboard :=
  match c with
  | call_initializeChart ctx => initializeChart ctx
  | call_updateChartData history => updateChartData history
  | call_loadSampleData time temperature => loadSampleData time temperature
  | call_addDatapointToChart timestamp temperature =>
      addDatapointToChart timestamp temperature
  | call_destroyChart => destroyChart
  | call_startAutoUpdate handle => startAutoUpdate handle
  | call_stopAutoUpdate => stopAutoUpdate
  | call_cleanup => cleanup
  end.

Definition calls (cs : list manager_call) (d : dashboard) : dashboard :=
  foldl (fun d c => call c d) d cs.

(** Live data points added one after the other. *)
Definition add_points (points : list (jsstring * option json)) (d : dashboard)
  : dashboard :=
  foldl (fun d p => addDatapointToChart p.1 p.2 d) d points.

(** The chart has as many labels as temperatures. *)
Definition aligned (d : dashboard) : Prop :=
  match temperatureChart d with
  | Some chart => length (chart_labels chart) = length (chart_data chart)
  | None => True
  end.

End Chart.

End DashboardManager.

(** ** The system status of the first dashboard revision *)

Module SystemStatus.

(** A badge [#<component>-status]. *)
Record badge : Type := mkBadge {
  textContent : jsstring;
  className : jsstring
}.

(** The manager's [isUpdating], the badges of the page by id, the
    console, the notifications, and how many requests to [/api/status]
    were issued and how many of them were settled. *)
Record status_page : Type := mkStatusPage {
  isUpdating : bool;
  badges : gmap (list N) badge;
  console : list (jsstring * jsstring);
  notifications : list (jsstring * jsstring);
  issued : nat;
  settled : nat
}.

Definition with_isUpdating (b : bool) (p : status_page) : status_page :=
  mkStatusPage b (badges p) (console p) (notifications p) (issued p) (settled p).

Definition with_badges (m : gmap (list N) badge) (p : status_page) : status_page :=
  mkStatusPage (isUpdating p) m (console p) (notifications p) (issued p) (settled p).

Definition console_error (label error : jsstring) (p : status_page) : status_page :=
  mkStatusPage (isUpdating p) (badges p) (console p ++ [(label, error)])
    (notifications p) (issued p) (settled p).

Definition showNotification (message type : jsstring) (p : status_page) : status_page :=
  mkStatusPage (isUpdating p) (badges p) (console p)
    (notifications p ++ [(message, type)]) (issued p) (settled p).

Definition fetch (p : status_page) : status_page :=
  mkStatusPage (isUpdating p) (badges p) (console p) (notifications p)
    (S (issued p)) (settled p).

(** A page as the script finds it: nothing logged, nothing requested. *)
Definition start (elements : gmap (list N) badge) : status_page :=
  mkStatusPage false elements [] [] 0 0.

(** The body of [/api/status]: [null] ([None]), or an object with its
    [components], if it has some, as the list of their entries. *)
Definition status_data : Type := option (option (list (jsstring * jsstring))).

(** The text and the class a status is shown with. *)
Definition status_text (status : jsstring) : jsstring :=
  if decide (status = js "available") then js "利用可能"
  else if decide (status = js "not_implemented") then js "未実装"
  else js "エラー".

Definition status_class (status : jsstring) : jsstring :=
  js "badge "
  ++ (if decide (status = js "available") then js "bg-success"
      else if decide (status = js "not_implemented") then js "bg-warning"
      else js "bg-danger").

Definition badge_id (component : jsstring) : jsstring := component ++ js "-status".

(** [updateSystemStatusDisplay(data)]. *)
Definition updateSystemStatusDisplay (data : status_data) (p : status_page)
  : completion unit * status_page :=
  match data with
  | None => (Throw TypeError, p)
  | Some components =>
      (Normal tt,
       foldl (fun p entry =>
                match badges p !! badge_id entry.1 with
                | Some _ =>
                    with_badges
                      (<[badge_id entry.1 :=
                           mkBadge (status_text entry.2) (status_class entry.2)]>
                         (badges p)) p
                | None => p
                end)
         p (default [] components))
  end.

(** [apiCall('/api/status')] from the moment the response is there. *)
Definition apiCall_resume (r : response status_data) (p : status_page)
  : completion status_data * status_page :=
  let failed error := (Throw error, console_error (js "API呼び出しエラー:") error p) in
  match r with
  | rejected message => failed message
  | received ok status json =>
      if negb ok then failed (js "HTTP error! status: " ++ js (pretty status))
      else match json with
           | Normal data => (Normal data, p)
           | Throw error => failed error
           end
  end.

(** [updateSystemStatus()] up to its [await]: the flag tells whether a
    request was issued. *)
Definition updateSystemStatus (p : status_page) : status_page :=
  if isUpdating p then p else fetch (with_isUpdating true p).

(** [updateSystemStatus()] from the response on, with its [catch] and
    [finally]. *)
Definition updateSystemStatus_resume (r : response status_data) (p : status_page)
  : status_page :=
  let handler error p :=
    showNotification (js "システム状態の取得に失敗しました") (js "warning")
      (console_error (js "システム状態取得エラー:") error p) in
  let tried :=
    match apiCall_resume r p with
    | (Normal data, p') =>
        match updateSystemStatusDisplay data p' with
        | (Normal _, p'') => p''
        | (Throw error, p'') => handler error p''
        end
    | (Throw error, p') => handler error p'
    end in
  with_isUpdating false tried.

(** What happens: [updateSystemStatus] is called (on load, by the
    interval), or the response to a request that is under way arrives. *)
Inductive status_event : Type :=
  | status_called
  | status_arrived (r : response status_data).

Definition step (p : status_page) (e : status_event) : status_page :=
  match e with
  | status_called => updateSystemStatus p
  | status_arrived r =>
      if decide (settled p < issued p)
      then updateSystemStatus_resume r
             (mkStatusPage (isUpdating p) (badges p) (console p) (notifications p)
                (issued p) (S (settled p)))
      else p
  end.

Definition steps (es : list status_event) (p : status_page) : status_page :=
  foldl step p es.

(** The three ways a badge is shown. *)
Definition shown_badges : list badge :=
  [mkBadge (js "利用可能") (js "badge bg-success");
   mkBadge (js "未実装") (js "badge bg-warning");
   mkBadge (js "エラー") (js "badge bg-danger")].

End SystemStatus.

(** * Properties *)

(** ** Effects of the history methods *)

Section Effects.

Context `{Host}.

Lemma addToHistory_added now t q a tag w :
  addToHistory now t q a tag w = (Normal tt, added now t q a tag w).
Proof.
  unfold addToHistory, added, bind, new_object, read, update, ret. simpl.
  case_decide as Hlen; simpl.
  - destruct t; reflexivity.
  - rewrite take_ge by (simpl; lia).
    destruct w as [[tg hist mx] img d [hp ls co nw]]; destruct t; reflexivity.
Qed.

Lemma updateHistoryDisplay_document w :
  ∃ d, updateHistoryDisplay w
       = (Normal tt, mkPage (this w) (attachedImage w) d (window w)).
Proof.
  unfold updateHistoryDisplay, bind, read, update, ret. simpl.
  destruct w as [m img d b]; simpl.
  destruct (history_container d); [case_decide|]; simpl; eauto.
Qed.

Lemma loadConsultationHistory_loads t w :
  ∃ d co,
    loadConsultationHistory t w
    = (Normal tt,
       mkPage
         (with_chatHistory
            (seq (length (heap (window w))) (length (loaded_items t w))) (this w))
         (attachedImage w) d
         (mkBrowser (heap (window w) ++ loaded_items t w)
            (localStorage (window w)) co (network (window w)))).
Proof.
  unfold loadConsultationHistory, storage_get, localStorage_getItem, loaded_items.
  destruct w as [m img d [hp ls co nw]].
  destruct t; unfold bind, try_catch, throw, console_error, read, update, ret; simpl.
  - match goal with |- context [updateHistoryDisplay ?w'] =>
      destruct (updateHistoryDisplay_document w') as [d' ->] end.
    rewrite app_nil_r. eauto.
  - destruct (ls !! history_key) as [items|]; simpl;
      unfold JSON_parse, bind, read, update, ret; simpl;
      match goal with |- context [updateHistoryDisplay ?w'] =>
        destruct (updateHistoryDisplay_document w') as [d' ->] end;
      rewrite ?app_nil_r; eauto.
Qed.

Lemma clearHistory_clears t w :
  ∃ d ls co,
    clearHistory t w
    = (Normal tt,
       mkPage (with_chatHistory [] (this w)) (attachedImage w) d
         (mkBrowser (heap (window w)) ls co (network (window w))))
    ∧ (ls = localStorage (window w) ∨ ls = delete history_key (localStorage (window w))).
Proof.
  unfold clearHistory, storage_remove, localStorage_removeItem, showNotification.
  destruct w as [m img d [hp ls co nw]].
  destruct t; unfold bind, try_catch, throw, console_error, read, update, ret; simpl;
    match goal with |- context [updateHistoryDisplay ?w'] =>
      destruct (updateHistoryDisplay_document w') as [d' ->] end;
    simpl; eauto 10.
Qed.

End Effects.

(** ** List facts used below *)

Section Lists.

Context {A B : Type}.

Lemma length_omap_le (f : A → option B) (l : list A) :
  length (omap f l) ≤ length l.
Proof.
  induction l as [|x l IH]; csimpl; [lia|].
  destruct (f x); csimpl; lia.
Qed.

Lemma omap_take_total (f : A → option B) (l : list A) (n : nat) :
  Forall (fun x => is_Some (f x)) l → omap f (take n l) = take n (omap f l).
Proof.
  intros Hl. revert n. induction Hl as [|x l [y Hy] _ IH]; intros [|n]; csimpl; try done.
  rewrite Hy. csimpl. by rewrite IH.
Qed.

Lemma take_app_take (l k : list A) (n : nat) :
  take n (l ++ take n k) = take n (l ++ k).
Proof.
  rewrite !take_app, take_take. f_equal. f_equal. lia.
Qed.

End Lists.

(** ** The capacity of the history *)

Section Capacity.

Context `{Host}.

Lemma perform_within_capacity op w :
  within_capacity w → within_capacity (exec (perform op) w).
Proof.
  intros (Hmax & Hlen & Hst). unfold within_capacity.
  destruct op as [t|now t q a tg| |t]; unfold exec; simpl.
  - destruct (loadConsultationHistory_loads t w) as (d & co & ->). simpl.
    repeat split; [done| |done].
    rewrite length_seq. unfold loaded_items. destruct t; simpl; [lia|].
    unfold stored_length in Hst. by destruct (localStorage (window w) !! history_key).
  - rewrite addToHistory_added. unfold added. simpl.
    assert (length (take (maxHistoryLength (this w))
                      (length (heap (window w)) :: chatHistory (this w))) ≤ 50) as Hcut.
    { rewrite length_take, Hmax. lia. }
    repeat split; [done|done|].
    destruct t; unfold stored_length; simpl; [exact Hst|].
    rewrite lookup_insert_eq, length_fmap. etrans; [apply length_omap_le|done].
  - destruct (updateHistoryDisplay_document w) as (d & ->). done.
  - destruct (clearHistory_clears t w) as (d & ls & co & -> & Hls). simpl.
    repeat split; [done|simpl; lia|].
    unfold stored_length; simpl. destruct Hls as [->| ->]; [exact Hst|].
    rewrite lookup_delete_eq. lia.
Qed.

(** [loadConsultationHistory] takes the stored array as it is. *)
Lemma loadConsultationHistory_length w :
  length (chatHistory (this (exec (loadConsultationHistory None) w)))
  = stored_length w.
Proof.
  unfold exec. destruct (loadConsultationHistory_loads None w) as (d & co & ->).
  simpl. rewrite length_seq. unfold loaded_items, stored_length.
  by destruct (localStorage (window w) !! history_key).
Qed.

Lemma run_within_capacity ops w :
  within_capacity w → within_capacity (run ops w).
Proof.
  revert w. induction ops as [|op ops IH]; intros w Hw; simpl; [done|].
  by apply IH, perform_within_capacity.
Qed.

Lemma start_page_within_capacity d stored :
  stored_length (start_page d stored) ≤ 50 →
  within_capacity (start_page d stored).
Proof. intros Hst. repeat split; [simpl; lia|exact Hst]. Qed.

Lemma visit_within_capacity w v :
  within_capacity w → within_capacity (visit w v).
Proof.
  intros (_ & _ & Hst). apply run_within_capacity, start_page_within_capacity.
  exact Hst.
Qed.

Lemma visits_within_capacity vs : within_capacity (visits vs).
Proof.
  unfold visits. induction vs as [|v vs IH] using rev_ind; simpl.
  - apply start_page_within_capacity. unfold stored_length; simpl.
    rewrite lookup_empty. lia.
  - rewrite foldl_snoc. by apply visit_within_capacity.
Qed.

End Capacity.

(** C1. Whatever sequence of history operations is performed (loading
    the stored history, adding an entry, rendering, clearing), over
    however many visits of the page since the browser first saw it, and
    whichever of the localStorage calls fail, the history array never
    holds more than 50 references and no more than 50 items are stored.
    (The bound is on the states between calls: inside [addToHistory] the
    array holds 51 references between [unshift] and [slice].) *)
Theorem history_never_exceeds_50 `{Host} (vs : list (dom * list history_op)) :
  length (chatHistory (this (visits vs))) ≤ 50
  ∧ length (entries (visits vs)) ≤ 50
  ∧ stored_length (visits vs) ≤ 50.
Proof.
  destruct (visits_within_capacity vs) as (_ & Hlen & Hst).
  repeat split; [done| |done].
  etrans; [apply length_omap_le|done].
Qed.

(** ** Additions: newest first, oldest evicted *)

Section Eviction.

Context `{Host}.

Lemma added_heap now t q a tg w :
  heap (window (added now t q a tg w))
  = heap (window w) ++ [mkHistoryItem now q a tg].
Proof. unfold added. by destruct t. Qed.

Lemma added_well_formed now t q a tg w :
  well_formed w → well_formed (added now t q a tg w).
Proof.
  unfold well_formed. intros Hw. rewrite added_heap, length_app. simpl.
  apply Forall_take. constructor; [lia|].
  eapply Forall_impl; [exact Hw|]. simpl. lia.
Qed.

Lemma entries_added now t q a tg w :
  well_formed w →
  entries (added now t q a tg w)
  = take (maxHistoryLength (this w)) (mkHistoryItem now q a tg :: entries w).
Proof.
  intros Hw. unfold entries. rewrite added_heap. unfold added; simpl.
  rewrite omap_take_total.
  - f_equal. csimpl. rewrite list_lookup_middle by done. csimpl. f_equal.
    apply list_omap_ext, Forall_Forall2_diag.
    eapply Forall_impl; [exact Hw|]. simpl. intros l Hl. by rewrite lookup_app_l.
  - constructor.
    + rewrite list_lookup_middle by done. eauto.
    + eapply Forall_impl; [exact Hw|]. simpl. intros l Hl.
      apply lookup_lt_is_Some. rewrite length_app. lia.
Qed.

Lemma run_additions (additions : list (option jsstring * HistoryItem)) w :
  well_formed w →
  maxHistoryLength (this w) = 50 →
  length (chatHistory (this w)) ≤ 50 →
  entries (run (add_item <$> additions) w)
  = take 50 (reverse additions.*2 ++ entries w).
Proof.
  revert w. induction additions as [|[t [now q a tg]] additions IH]; intros w Hw Hmax Hlen.
  - simpl. rewrite take_ge; [done|].
    etrans; [apply length_omap_le|done].
  - simpl. unfold exec. rewrite addToHistory_added. simpl. rewrite IH.
    + rewrite entries_added, Hmax, take_app_take by done.
      by rewrite reverse_cons, <-app_assoc.
    + by apply added_well_formed.
    + done.
    + unfold added; simpl. rewrite length_take. lia.
Qed.

End Eviction.

(** C2. From an empty history, 51 additions of distinct items leave
    exactly the 2nd to the 51st of them, the newest first: the history
    then has 50 entries and the item added first is not among them. *)
Theorem fifty_first_addition_evicts_the_oldest `{Host}
    (additions : list (option jsstring * HistoryItem)) (w : page) :
  maxHistoryLength (this w) = 50 →
  chatHistory (this w) = [] →
  length additions = 51 →
  NoDup additions.*2 →
  entries (run (add_item <$> additions) w) = reverse (drop 1 additions.*2)
  ∧ length (entries (run (add_item <$> additions) w)) = 50
  ∧ (∀ first, head additions.*2 = Some first →
       first ∉ entries (run (add_item <$> additions) w)).
Proof.
  intros Hmax Hempty Hlen Hdistinct.
  assert (entries (run (add_item <$> additions) w) = reverse (drop 1 additions.*2))
    as ->.
  { rewrite run_additions.
    - unfold entries at 1. rewrite Hempty. csimpl. rewrite app_nil_r, take_reverse.
      by rewrite length_fmap, Hlen.
    - unfold well_formed. rewrite Hempty. constructor.
    - done.
    - rewrite Hempty. simpl. lia. }
  split; [done|]. split.
  - rewrite length_reverse, length_drop, length_fmap. lia.
  - intros first Hfirst. destruct (additions.*2) as [|x items]; [done|].
    injection Hfirst as ->. simpl. rewrite drop_0, elem_of_reverse.
    by apply NoDup_cons in Hdistinct as [? _].
Qed.

Lemma fifty_first_addition_evicts_the_oldest_witness :
  let w := start_page empty_dom ∅ in
  let after := entries (run (H := example_host) (add_item <$> fifty_one_additions) w) in
  (maxHistoryLength (this w) = 50
   ∧ chatHistory (this w) = []
   ∧ length fifty_one_additions = 51
   ∧ NoDup fifty_one_additions.*2)
  ∧ after = reverse (drop 1 fifty_one_additions.*2)
  ∧ length after = 50
  ∧ ∀ first, head fifty_one_additions.*2 = Some first → first ∉ after.
Proof.
  assert (NoDup fifty_one_additions.*2) as Hdistinct.
  { apply (NoDup_fmap_1 timestamp), (bool_decide_unpack _). vm_compute. exact I. }
  split; [repeat split; [reflexivity..|exact Hdistinct]|].
  apply (fifty_first_addition_evicts_the_oldest (H := example_host));
    [reflexivity..|exact Hdistinct].
Defined.

(** C7. When the localStorage write fails, with whatever error,
    [addToHistory] still completes normally: the error is logged by
    [storage.set], the new item is the first entry of the history in
    memory, and the stored history is left as it was. *)
Theorem storage_failure_does_not_fail_addToHistory
    (now error q : jsstring) (a : option json) (tg : option jsstring) (w : page) :
  0 < maxHistoryLength (this w) →
  fst (addToHistory now (Some error) q a tg w) = Normal tt
  ∧ head (entries (exec (addToHistory now (Some error) q a tg) w))
    = Some (mkHistoryItem now q a tg)
  ∧ console (window (exec (addToHistory now (Some error) q a tg) w))
    = console (window w) ++ [(js "ローカルストレージ保存エラー:", error)]
  ∧ localStorage (window (exec (addToHistory now (Some error) q a tg) w))
    = localStorage (window w).
Proof.
  intros Hmax. unfold exec. rewrite addToHistory_added. simpl.
  repeat split. unfold entries, added. simpl.
  destruct (maxHistoryLength (this w)) as [|n]; [lia|]. csimpl.
  by rewrite list_lookup_middle.
Qed.

Lemma storage_failure_does_not_fail_addToHistory_witness :
  let w := start_page empty_dom ∅ in
  let call :=
    addToHistory (js "2025-10-15T09:30:00.000Z")
      (Some (js "QuotaExceededError")) (js "q") (str (js "a")) (Some (js "general")) in
  0 < maxHistoryLength (this w)
  ∧ fst (call w) = Normal tt
  ∧ head (entries (exec call w))
    = Some (mkHistoryItem (js "2025-10-15T09:30:00.000Z") (js "q") (str (js "a"))
              (Some (js "general"))).
Proof.
  simpl. split; [lia|].
  destruct (storage_failure_does_not_fail_addToHistory
              (js "2025-10-15T09:30:00.000Z") (js "QuotaExceededError")
              (js "q") (str (js "a")) (Some (js "general")) (start_page empty_dom ∅))
    as (Hret & Hhead & _); [simpl; lia|].
  split; [exact Hret|exact Hhead].
Defined.

(** ** A failed write leaves no trace in the response *)

Section Blind.

Context `{Host}.

Lemma same_but_storage_refl w : same_but_storage w w.
Proof. by repeat split. Qed.

Lemma blind_ret {A} (a : A) : blind (ret a) (ret a).
Proof. by intros w1 w2 Hw. Qed.

Lemma blind_throw {A} e : blind (throw (A := A) e) (throw e).
Proof. by intros w1 w2 Hw. Qed.

Lemma blind_bind {A B} (m1 m2 : script A) (k1 k2 : A → script B) :
  blind m1 m2 → (∀ a, blind (k1 a) (k2 a)) → blind (bind m1 k1) (bind m2 k2).
Proof.
  intros Hm Hk w1 w2 Hw. unfold bind. destruct (Hm w1 w2 Hw) as [Hfst Hsnd].
  destruct (m1 w1) as [[a|e] w1'], (m2 w2) as [[a'|e'] w2']; simpl in *;
    try discriminate; injection Hfst as ->; [by apply Hk|by split].
Qed.

Lemma blind_try_catch {A} (b1 b2 : script A) (h1 h2 : jsstring → script A) :
  blind b1 b2 → (∀ e, blind (h1 e) (h2 e)) →
  blind (try_catch b1 h1) (try_catch b2 h2).
Proof.
  intros Hb Hh w1 w2 Hw. unfold try_catch. destruct (Hb w1 w2 Hw) as [Hfst Hsnd].
  destruct (b1 w1) as [[a|e] w1'], (b2 w2) as [[a'|e'] w2']; simpl in *;
    try discriminate; injection Hfst as ->; [by split|by apply Hh].
Qed.

Lemma blind_read {A} (f : page → A) :
  (∀ w1 w2, same_but_storage w1 w2 → f w1 = f w2) → blind (read f) (read f).
Proof. intros Hf w1 w2 Hw. unfold read. simpl. by rewrite (Hf w1 w2 Hw). Qed.

Lemma blind_set_document (f : dom → dom) :
  blind (update (set_document f)) (update (set_document f)).
Proof.
  intros w1 w2 (Ht & Hi & Hd & Hh & Hn). unfold update, same_but_storage. simpl.
  by rewrite Hd.
Qed.

Lemma blind_set_attachedImage i :
  blind (update (set_attachedImage i)) (update (set_attachedImage i)).
Proof. by intros w1 w2 (Ht & Hi & Hd & Hh & Hn). Qed.

Lemma blind_console_error label e :
  blind (console_error label e) (console_error label e).
Proof. by intros w1 w2 (Ht & Hi & Hd & Hh & Hn). Qed.

Lemma blind_showNotification m t : blind (showNotification m t) (showNotification m t).
Proof. apply blind_set_document. Qed.

Lemma blind_addToHistory now t1 t2 q a tg :
  blind (addToHistory now t1 q a tg) (addToHistory now t2 q a tg).
Proof.
  intros w1 w2 (Ht & Hi & Hd & Hh & Hn). rewrite !addToHistory_added.
  split; [done|]. unfold same_but_storage, added. simpl.
  rewrite Ht, Hi, Hd, Hh. by destruct t1, t2.
Qed.

Lemma blind_removeLastMessage : blind removeLastMessage removeLastMessage.
Proof.
  apply blind_bind; [apply blind_read; by intros ?? (?&?&->&?)|].
  intros [children|]; [|apply blind_throw].
  destruct (last children); [apply blind_set_document|apply blind_ret].
Qed.

Lemma blind_settle {A} (c : completion A) : blind (settle c) (settle c).
Proof. destruct c; [apply blind_ret|apply blind_throw]. Qed.

Lemma blind_get data key : blind (get data key) (get data key).
Proof. destruct data; first [apply blind_throw|apply blind_ret]. Qed.

Lemma blind_TextOnly_addMessageToChat now ty m l v :
  blind (TextOnly.addMessageToChat now ty m l v)
    (TextOnly.addMessageToChat now ty m l v).
Proof.
  apply blind_bind; [apply blind_read; by intros ?? (?&?&->&?)|].
  intros [children|]; [|apply blind_throw].
  apply blind_bind; [apply blind_set_document|intros _; apply blind_set_document].
Qed.

Lemma blind_WithImage_addMessageToChat now ty m l v :
  blind (WithImage.addMessageToChat now ty m l v)
    (WithImage.addMessageToChat now ty m l v).
Proof.
  apply blind_bind; [apply blind_read; by intros ?? (?&?&->&?)|].
  intros chatContainer. apply blind_bind.
  { destruct (_ && _); [apply blind_settle|apply blind_ret]. }
  intros messageContent. destruct chatContainer as [children|]; [|apply blind_throw].
  apply blind_bind; [apply blind_set_document|intros _; apply blind_set_document].
Qed.

Lemma blind_removeImage : blind WithImage.removeImage WithImage.removeImage.
Proof.
  apply blind_bind; [apply blind_set_attachedImage|]. intros _.
  apply blind_bind; [apply blind_read; by intros ?? (?&?&->&?)|]. intros preview.
  apply blind_bind; [apply blind_read; by intros ?? (?&?&->&?)|]. intros imageInput.
  apply blind_bind.
  - destruct preview; [apply blind_set_document|apply blind_ret].
  - intros _. destruct imageInput; [apply blind_set_document|apply blind_ret].
Qed.

Lemma blind_apiCall_resume {A} (r : response A) :
  blind (apiCall_resume r) (apiCall_resume r).
Proof.
  apply blind_try_catch.
  - destruct r as [m|[|] st json]; simpl;
      [apply blind_throw|apply blind_settle|apply blind_throw].
  - intros e. apply blind_bind; [apply blind_console_error|intros; apply blind_throw].
Qed.

Lemma blind_TextOnly_resume now t1 t2 r q :
  blind (TextOnly.sendQuestion_resume now t1 r q)
    (TextOnly.sendQuestion_resume now t2 r q).
Proof.
  apply blind_try_catch.
  - apply blind_bind; [apply blind_apiCall_resume|]. intros data.
    apply blind_bind; [apply blind_removeLastMessage|]. intros _.
    apply blind_bind; [apply blind_get|]. intros status.
    destruct (strict_eq_string status (js "success")).
    + apply blind_bind; [apply blind_TextOnly_addMessageToChat|]. intros _.
      apply blind_bind; [apply blind_read; by intros ?? (->&?)|]. intros tg.
      apply blind_bind; [apply blind_addToHistory|]. intros _.
      apply blind_showNotification.
    + apply blind_bind; [apply blind_TextOnly_addMessageToChat|]. intros _.
      apply blind_showNotification.
  - intros e.
    apply blind_bind; [apply blind_removeLastMessage|]. intros _.
    apply blind_bind; [apply blind_TextOnly_addMessageToChat|]. intros _.
    apply blind_showNotification.
Qed.

Lemma blind_WithImage_resume now t1 t2 r q :
  blind (WithImage.sendQuestion_resume now t1 r q)
    (WithImage.sendQuestion_resume now t2 r q).
Proof.
  apply blind_try_catch.
  - apply blind_bind.
    { destruct r as [m|ok st json]; [apply blind_throw|apply blind_settle]. }
    intros data.
    apply blind_bind; [apply blind_removeLastMessage|]. intros _.
    apply blind_bind; [apply blind_get|]. intros status.
    apply blind_bind; [|intros _; apply blind_removeImage].
    destruct (strict_eq_string status (js "success")).
    + apply blind_bind; [apply blind_WithImage_addMessageToChat|]. intros _.
      apply blind_bind; [apply blind_read; by intros ?? (->&?)|]. intros tg.
      apply blind_bind; [apply blind_addToHistory|]. intros _.
      apply blind_showNotification.
    + apply blind_bind; [apply blind_WithImage_addMessageToChat|]. intros _.
      apply blind_showNotification.
  - intros e.
    apply blind_bind; [apply blind_removeLastMessage|]. intros _.
    apply blind_bind; [apply blind_WithImage_addMessageToChat|]. intros _.
    apply blind_showNotification.
Qed.

(** Whether or not the write of the history fails, the rest of
    [sendQuestion] completes the same way and shows the same document;
    the manager, the heap and the requests are the same too. *)
Lemma consultation_response_ignores_storage_failure now error r q w :
  (fst (TextOnly.sendQuestion_resume now (Some error) r q w)
   = fst (TextOnly.sendQuestion_resume now None r q w)
   ∧ same_but_storage (exec (TextOnly.sendQuestion_resume now (Some error) r q) w)
       (exec (TextOnly.sendQuestion_resume now None r q) w))
  ∧ (fst (WithImage.sendQuestion_resume now (Some error) r q w)
     = fst (WithImage.sendQuestion_resume now None r q w)
     ∧ same_but_storage (exec (WithImage.sendQuestion_resume now (Some error) r q) w)
         (exec (WithImage.sendQuestion_resume now None r q) w)).
Proof.
  split.
  - apply blind_TextOnly_resume, same_but_storage_refl.
  - apply blind_WithImage_resume, same_but_storage_refl.
Qed.

End Blind.

(** ** Items are written once *)

Section Frame.

Context `{Host}.

Lemma perform_heap op w :
  ∃ new, heap (window (exec (perform op) w)) = heap (window w) ++ new.
Proof.
  destruct op as [t|now t q a tg| |t]; unfold exec; simpl.
  - destruct (loadConsultationHistory_loads t w) as (d & co & ->). simpl. eauto.
  - rewrite addToHistory_added. cbn [snd]. rewrite added_heap. eauto.
  - destruct (updateHistoryDisplay_document w) as (d & ->). simpl.
    exists []. by rewrite app_nil_r.
  - destruct (clearHistory_clears t w) as (d & ls & co & -> & _). simpl.
    exists []. by rewrite app_nil_r.
Qed.

Lemma perform_references op w :
  Forall (fun l => l ∈ chatHistory (this w) ∨ length (heap (window w)) ≤ l)
    (chatHistory (this (exec (perform op) w))).
Proof.
  destruct op as [t|now t q a tg| |t]; unfold exec; simpl.
  - destruct (loadConsultationHistory_loads t w) as (d & co & ->). simpl.
    apply Forall_forall. intros l Hl. apply elem_of_seq in Hl. lia.
  - rewrite addToHistory_added. unfold added. simpl.
    apply Forall_take. constructor; [lia|].
    apply Forall_forall. auto.
  - destruct (updateHistoryDisplay_document w) as (d & ->). simpl.
    apply Forall_forall. auto.
  - destruct (clearHistory_clears t w) as (d & ls & co & -> & _). simpl.
    constructor.
Qed.

Lemma run_heap ops w :
  ∃ new, heap (window (run ops w)) = heap (window w) ++ new.
Proof.
  revert w. induction ops as [|op ops IH]; intros w; simpl.
  - exists []. by rewrite app_nil_r.
  - destruct (IH (exec (perform op) w)) as [new2 ->].
    destruct (perform_heap op w) as [new1 ->].
    exists (new1 ++ new2). by rewrite app_assoc.
Qed.

Lemma run_references ops w :
  Forall (fun l => l ∈ chatHistory (this w) ∨ length (heap (window w)) ≤ l)
    (chatHistory (this (run ops w))).
Proof.
  revert w. induction ops as [|op ops IH]; intros w; simpl.
  - apply Forall_forall. auto.
  - eapply Forall_impl; [apply IH|]. simpl. intros l [Hl|Hl].
    + pose proof (perform_references op w) as Hstep.
      rewrite Forall_forall in Hstep. by apply Hstep.
    + right. destruct (perform_heap op w) as [new Hnew].
      rewrite Hnew, length_app in Hl. lia.
Qed.

End Frame.

(** C8. No history operation changes an item once it is created:
    through any sequence of additions, renderings, loads and clearings,
    an item object keeps its timestamp, question, answer and tag; and
    the history afterwards refers only to items it referred to before or
    to objects created since. *)
Theorem history_items_are_never_mutated `{Host} (ops : list history_op) (w : page) :
  (∀ l item,
     heap (window w) !! l = Some item →
     heap (window (run ops w)) !! l = Some item)
  ∧ Forall (fun l => l ∈ chatHistory (this w) ∨ length (heap (window w)) ≤ l)
      (chatHistory (this (run ops w))).
Proof.
  split; [|apply run_references].
  intros l item Hl. destruct (run_heap ops w) as [new ->].
  by apply lookup_app_l_Some.
Qed.

Lemma history_items_are_never_mutated_witness :
  let item := mkHistoryItem (js "2025-10-15T09:30:00.000Z") (js "q") (str (js "a"))
                (Some (js "general")) in
  let w := run (H := example_host) [add_item (None, item)] (start_page empty_dom ∅) in
  let ops := [add_item (None, item); render; load None; clear None] in
  heap (window w) !! 0 = Some item
  ∧ heap (window (run (H := example_host) ops w)) !! 0 = Some item.
Proof.
  intros item w ops. split; [reflexivity|].
  apply (proj1 (history_items_are_never_mutated (H := example_host) ops w)).
  reflexivity.
Defined.

(** ** The guard of [sendQuestion] *)

Section Guard.

Context `{Host}.

Lemma TextOnly_sendQuestion_blank now value w :
  question_input (document w) = Some value →
  trim value = [] →
  TextOnly.sendQuestion now w
  = (Normal None,
     set_document
       (fun d => with_notifications
                   (notifications d ++ [(js "質問を入力してください", js "warning")]) d) w).
Proof.
  intros Hq Ht. unfold TextOnly.sendQuestion, bind, read. simpl.
  rewrite Hq, Ht. reflexivity.
Qed.

Lemma WithImage_sendQuestion_blank now value w :
  question_input (document w) = Some value →
  trim value = [] →
  attachedImage w = None →
  WithImage.sendQuestion now w
  = (Normal None,
     set_document
       (fun d => with_notifications
                   (notifications d
                      ++ [(js "質問を入力するか画像を添付してください", js "warning")]) d) w).
Proof.
  intros Hq Ht Hi.
  unfold WithImage.sendQuestion, WithImage.getAttachedImage, bind, read. simpl.
  rewrite Hq, Ht, Hi. reflexivity.
Qed.

Lemma TextOnly_sendQuestion_no_input now w :
  question_input (document w) = None →
  TextOnly.sendQuestion now w = (Throw TypeError, w).
Proof.
  intros Hq. unfold TextOnly.sendQuestion, bind, read. simpl. by rewrite Hq.
Qed.

Lemma WithImage_sendQuestion_no_input now w :
  question_input (document w) = None →
  WithImage.sendQuestion now w = (Throw TypeError, w).
Proof.
  intros Hq. unfold WithImage.sendQuestion, bind, read. simpl. by rewrite Hq.
Qed.

End Guard.

(** C5. With an empty or whitespace-only question and no image attached,
    [sendQuestion] (in both revisions; the text-only one knows no image)
    returns after showing a warning: no request is handed to [fetch],
    and the chat, the question field, the manager and its history are as
    before. A request is issued only when the trimmed question is
    non-empty or, in the revision with image attachment, an image is
    attached. *)
Theorem blank_question_sends_no_request `{Host} (now : jsstring) (w : page) :
  (∀ value,
     question_input (document w) = Some value →
     trim value = [] →
     attachedImage w = None →
     fst (WithImage.sendQuestion now w) = Normal None
     ∧ only_warned w (exec (WithImage.sendQuestion now) w))
  ∧ (∀ value,
       question_input (document w) = Some value →
       trim value = [] →
       fst (TextOnly.sendQuestion now w) = Normal None
       ∧ only_warned w (exec (TextOnly.sendQuestion now) w))
  ∧ (network (window (exec (WithImage.sendQuestion now) w)) ≠ network (window w) →
     ∃ value, question_input (document w) = Some value
              ∧ (trim value ≠ [] ∨ is_Some (attachedImage w)))
  ∧ (network (window (exec (TextOnly.sendQuestion now) w)) ≠ network (window w) →
     ∃ value, question_input (document w) = Some value ∧ trim value ≠ []).
Proof.
  repeat apply conj.
  - intros value Hq Ht Hi. unfold exec.
    rewrite (WithImage_sendQuestion_blank now value w Hq Ht Hi).
    unfold only_warned; simpl; eauto 10.
  - intros value Hq Ht. unfold exec.
    rewrite (TextOnly_sendQuestion_blank now value w Hq Ht).
    unfold only_warned; simpl; eauto 10.
  - intros Hnet. destruct (question_input (document w)) as [value|] eqn:Hq.
    + exists value. split; [done|].
      destruct (trim value) as [|c q] eqn:Ht; [|by left].
      destruct (attachedImage w) as [f|] eqn:Hi; [right; eauto|].
      exfalso. apply Hnet. unfold exec.
      by rewrite (WithImage_sendQuestion_blank now value w Hq Ht Hi).
    + exfalso. apply Hnet. unfold exec.
      by rewrite (WithImage_sendQuestion_no_input now w Hq).
  - intros Hnet. destruct (question_input (document w)) as [value|] eqn:Hq.
    + exists value. split; [done|].
      destruct (trim value) as [|c q] eqn:Ht; [|done].
      exfalso. apply Hnet. unfold exec.
      by rewrite (TextOnly_sendQuestion_blank now value w Hq Ht).
    + exfalso. apply Hnet. unfold exec.
      by rewrite (TextOnly_sendQuestion_no_input now w Hq).
Qed.

Lemma blank_question_sends_no_request_witness :
  let w := set_document (with_question_input (Some (js "  　 ")))
             (start_page empty_dom ∅) in
  (question_input (document w) = Some (js "  　 ")
   ∧ trim (js "  　 ") = []
   ∧ attachedImage w = None)
  ∧ fst (WithImage.sendQuestion (H := example_host) (js "now") w) = Normal None
  ∧ only_warned w (exec (WithImage.sendQuestion (H := example_host) (js "now")) w).
Proof.
  intros w. split; [repeat split|].
  exact (proj1 (blank_question_sends_no_request (H := example_host) (js "now") w)
           (js "  　 ") eq_refl eq_refl eq_refl).
Defined.

(** C10. [executeQuickAction] with an action other than harvest, disease
    and cooking (or with no action at all) returns at once, in both
    revisions: the page is exactly as before, so the question field, the
    selected tag, the chat and the history are unchanged and no request
    is issued. *)
Theorem unknown_quick_action_is_a_no_op `{Host} (now : jsstring)
    (action : option jsstring) (w : page) :
  quick_action action = false →
  TextOnly.executeQuickAction now action w = (Normal None, w)
  ∧ WithImage.executeQuickAction now action w = (Normal None, w).
Proof.
  unfold quick_action. intros Hno.
  apply orb_false_elim in Hno as [Hno Hcooking].
  apply orb_false_elim in Hno as [Hharvest Hdisease].
  apply bool_decide_eq_false in Hharvest, Hdisease, Hcooking.
  unfold TextOnly.executeQuickAction, WithImage.executeQuickAction.
  rewrite !decide_False by done. done.
Qed.

Lemma unknown_quick_action_is_a_no_op_witness :
  let w := start_page empty_dom ∅ in
  quick_action (Some (js "watering")) = false
  ∧ TextOnly.executeQuickAction (H := example_host) (js "now") (Some (js "watering")) w
    = (Normal None, w)
  ∧ WithImage.executeQuickAction (H := example_host) (js "now") (Some (js "watering")) w
    = (Normal None, w).
Proof.
  intros w. split; [reflexivity|].
  apply (unknown_quick_action_is_a_no_op (H := example_host)). reflexivity.
Defined.

(** ** The selected tag *)

Section Tags.

Context `{Host}.

Lemma selectTag_this tag w :
  this (exec (selectTag tag) w) = with_selectedTag tag (this w).
Proof.
  unfold exec, selectTag, settle, bind, read, update, ret, throw. simpl.
  destruct (querySelector _ _) as [[i|]|e]; reflexivity.
Qed.

Lemma TextOnly_sendQuestion_this now w :
  this (exec (TextOnly.sendQuestion now) w) = this w.
Proof.
  unfold exec, TextOnly.sendQuestion, TextOnly.addMessageToChat, fetch,
    showNotification, bind, read, update, ret, throw. simpl.
  destruct (question_input (document w)); simpl; [|done].
  destruct (falsy _); simpl; [done|].
  destruct (chat_container (document w)); done.
Qed.

Lemma WithImage_sendQuestion_this now w :
  this (exec (WithImage.sendQuestion now) w) = this w.
Proof.
  unfold exec, WithImage.sendQuestion, WithImage.addMessageToChat,
    WithImage.getAttachedImage, fetch, showNotification, bind, read, update,
    ret, throw. simpl.
  destruct (question_input (document w)); simpl; [|done].
  destruct (_ && _); simpl; [done|].
  destruct (chat_container (document w)); done.
Qed.

Lemma detached_this {A} (m : script A) w :
  this (exec m w) = this w → this (exec (detached m) w) = this w.
Proof.
  unfold exec, detached, unhandledrejection, console_error, showNotification,
    try_catch, bind, update, ret.
  destruct (m w) as [[a|e] w']; simpl; done.
Qed.

Lemma TextOnly_sendQuestion_request now w q :
  fst (TextOnly.sendQuestion now w) = Normal (Some q) →
  network (window (exec (TextOnly.sendQuestion now) w))
  = network (window w)
    ++ [mkRequest (js "/api/ai/consultation") (js "POST")
          (json_body q (selectedTag (this w)))].
Proof.
  unfold exec, TextOnly.sendQuestion, TextOnly.addMessageToChat, fetch,
    showNotification, bind, read, update, ret, throw. simpl.
  destruct (question_input (document w)); simpl; [|done].
  destruct (falsy _); simpl; [done|].
  destruct (chat_container (document w)); simpl; [|done].
  by intros [= ->].
Qed.

Lemma WithImage_sendQuestion_request now w q :
  fst (WithImage.sendQuestion now w) = Normal (Some q) →
  network (window (exec (WithImage.sendQuestion now) w))
  = network (window w)
    ++ [mkRequest (js "/api/ai/consultation") (js "POST")
          (form_data q (selectedTag (this w)) (attachedImage w))].
Proof.
  unfold exec, WithImage.sendQuestion, WithImage.addMessageToChat,
    WithImage.getAttachedImage, fetch, showNotification, bind, read, update,
    ret, throw. simpl.
  destruct (question_input (document w)); simpl; [|done].
  destruct (_ && _); simpl; [done|].
  destruct (chat_container (document w)); simpl; [|done].
  by intros [= ->].
Qed.

Lemma quick_action_enumerated action :
  quick_action action = true → enumerated action = true.
Proof.
  unfold quick_action, enumerated. intros Hq.
  apply orb_true_iff in Hq as [Hq| ->]; [|by rewrite orb_true_r].
  apply orb_true_iff in Hq as [->| ->]; by rewrite ?orb_true_r.
Qed.

Lemma exec_bind {A B} (m : script A) (k : A → script B) w :
  exec (bind m k) w
  = match fst (m w) with
    | Normal a => exec (k a) (exec m w)
    | Throw _ => exec m w
    end.
Proof. unfold exec, bind. by destruct (m w) as [[a|e] w']. Qed.

(** The statements of [executeQuickAction] after its [switch], for
    either revision's [sendQuestion]. *)
Lemma quick_action_selects (send : script (option jsstring)) action question w :
  (∀ w', this (exec send w') = this w') →
  this (exec (questionInput <- read (fun w => question_input (document w)) ;;
              match questionInput with
              | Some _ => update (set_document (with_question_input (Some question)))
              | None => ret tt
              end ;;
              selectTag action ;;
              pending <- detached send ;;
              ret (mjoin pending)) w)
  = with_selectedTag action (this w).
Proof.
  intros Hsend. rewrite exec_bind. cbn [fst read exec snd].
  rewrite exec_bind.
  assert (∀ w1, this (exec (selectTag action ;;
                            pending <- detached send ;;
                            ret (mjoin pending)) w1)
                = with_selectedTag action (this w1)) as Htail.
  { intros w1. rewrite exec_bind. destruct (fst (selectTag action w1)).
    - rewrite exec_bind. destruct (fst (detached send _)); cbn [exec ret snd];
        by rewrite detached_this, selectTag_this.
    - apply selectTag_this. }
  destruct (question_input (document w)); cbn [fst update ret]; by rewrite Htail.
Qed.

Lemma TextOnly_executeQuickAction_this now action w :
  quick_action action = true →
  this (exec (TextOnly.executeQuickAction now action) w)
  = with_selectedTag action (this w).
Proof.
  unfold quick_action. intros Hq.
  apply orb_true_iff in Hq as [Hq|Hq]; [apply orb_true_iff in Hq as [Hq|Hq]|];
    apply bool_decide_eq_true in Hq; subst action;
    unfold TextOnly.executeQuickAction; resolve_switch;
    apply quick_action_selects, TextOnly_sendQuestion_this.
Qed.

Lemma WithImage_executeQuickAction_this now action w :
  quick_action action = true →
  this (exec (WithImage.executeQuickAction now action) w)
  = with_selectedTag action (this w).
Proof.
  unfold quick_action. intros Hq.
  apply orb_true_iff in Hq as [Hq|Hq]; [apply orb_true_iff in Hq as [Hq|Hq]|];
    apply bool_decide_eq_true in Hq; subst action;
    unfold WithImage.executeQuickAction; resolve_switch;
    apply quick_action_selects, WithImage_sendQuestion_this.
Qed.

End Tags.

(** The client keeps the tag it is given. The selected tag of a new
    manager is general, and [selectDefaultTag] selects general; a quick
    action that is carried out selects its own tag, one of harvest,
    disease and cooking; [selectTag] makes the tag it is given the
    selected one, and the request [sendQuestion] issues carries the
    selected tag as it is: resolving it is left to the server. *)
Lemma selected_tag_is_sent_as_it_is `{Host} :
  (∀ w, selectedTag (this (exec selectDefaultTag w)) = Some (js "general"))
  ∧ (∀ tag w, selectedTag (this (exec (selectTag tag) w)) = tag)
  ∧ (∀ now action w,
       quick_action action = true →
       enumerated action = true
       ∧ selectedTag (this (exec (TextOnly.executeQuickAction now action) w)) = action
       ∧ selectedTag (this (exec (WithImage.executeQuickAction now action) w)) = action)
  ∧ (∀ now w q,
       fst (TextOnly.sendQuestion now w) = Normal (Some q) →
       network (window (exec (TextOnly.sendQuestion now) w))
       = network (window w)
         ++ [mkRequest (js "/api/ai/consultation") (js "POST")
               (json_body q (selectedTag (this w)))])
  ∧ (∀ now w q,
       fst (WithImage.sendQuestion now w) = Normal (Some q) →
       network (window (exec (WithImage.sendQuestion now) w))
       = network (window w)
         ++ [mkRequest (js "/api/ai/consultation") (js "POST")
               (form_data q (selectedTag (this w)) (attachedImage w))]).
Proof.
  repeat apply conj.
  - intros w. unfold selectDefaultTag. by rewrite selectTag_this.
  - intros tag w. by rewrite selectTag_this.
  - intros now action w Hq. split; [by apply quick_action_enumerated|].
    by rewrite TextOnly_executeQuickAction_this, WithImage_executeQuickAction_this.
  - apply TextOnly_sendQuestion_request.
  - apply WithImage_sendQuestion_request.
Qed.

(** C6. The tag of a consultation lies in the enumeration: a new
    manager has general selected, and the router resolves the tag of
    every request, whatever the client sent, to one of general,
    harvest, disease and cooking: a tag of the enumeration to itself,
    any other tag, and a missing one, to general. *)
Theorem request_tag_is_resolved_within_the_enumeration :
  selectedTag new_AIConsultationManager = Some (js "general")
  ∧ Router.resolve (selectedTag new_AIConsultationManager) = Router.General
  ∧ (∀ tag, enumerated (Some (Router.name (Router.resolve tag))) = true)
  ∧ (∀ tag, enumerated tag = true → Some (Router.name (Router.resolve tag)) = tag)
  ∧ (∀ tag, enumerated tag = false → Router.resolve tag = Router.General).
Proof.
  split; [reflexivity|]. split; [reflexivity|].
  assert (∀ tag, enumerated tag
                 = bool_decide (Some (Router.name (Router.resolve tag)) = tag)) as Hres.
  { intros tag. unfold enumerated, Router.resolve.
    destruct (decide (tag = Some (js "harvest"))) as [->|Hh]; [reflexivity|].
    destruct (decide (tag = Some (js "disease"))) as [->|Hd]; [reflexivity|].
    destruct (decide (tag = Some (js "cooking"))) as [->|Hc]; [reflexivity|].
    rewrite (bool_decide_eq_false_2 _ Hh), (bool_decide_eq_false_2 _ Hd),
      (bool_decide_eq_false_2 _ Hc), !orb_false_r.
    apply bool_decide_ext. split; [intros ->; reflexivity|intros <-; reflexivity]. }
  split; [|split].
  - intros tag. by destruct (Router.resolve tag).
  - intros tag. rewrite Hres. apply bool_decide_eq_true.
  - intros tag. rewrite Hres. intros Hne. apply bool_decide_eq_false in Hne.
    unfold Router.resolve in *. by repeat case_decide; subst.
Qed.

(** A request with the tag the page has selected after a click on an
    unknown tag is resolved to general. *)
Lemma request_tag_is_resolved_within_the_enumeration_witness :
  let w := exec (selectTag (H := example_host) (Some (js "weather")))
             (start_page empty_dom ∅) in
  enumerated (selectedTag (this w)) = false
  ∧ Router.resolve (selectedTag (this w)) = Router.General.
Proof.
  intros w. split; [reflexivity|].
  apply (proj2 (proj2 (proj2 (proj2 request_tag_is_resolved_within_the_enumeration)))).
  reflexivity.
Defined.

(** ** [calculatePercentage] *)

(** C9. [calculatePercentage] never divides by zero: with a total of
    zero (of either sign) it returns 0 without dividing, and with any
    other total it returns [Math.round((value / total) * 100)], the
    only divisor being that total. *)
Theorem calculatePercentage_never_divides_by_zero (value total : float) :
  calculatePercentage value 0 = 0%float
  ∧ calculatePercentage value (-0) = 0%float
  ∧ (strict_eq_zero total = true →
     calculatePercentage_divisors value total = (0%float, []))
  ∧ (strict_eq_zero total = false →
     calculatePercentage_divisors value total
     = (Math_round ((value / total) * 100)%float, [total]))
  ∧ Forall (fun d => strict_eq_zero d = false)
      (snd (calculatePercentage_divisors value total)).
Proof.
  repeat apply conj; try reflexivity.
  - intros Hz. unfold calculatePercentage_divisors. by rewrite Hz.
  - intros Hz. unfold calculatePercentage_divisors. by rewrite Hz.
  - unfold calculatePercentage_divisors.
    destruct (strict_eq_zero total) eqn:Hz; simpl; repeat constructor. exact Hz.
Qed.

Lemma calculatePercentage_never_divides_by_zero_witness :
  (strict_eq_zero 0 = true ∧ strict_eq_zero 200 = false)
  ∧ calculatePercentage 29 0 = 0%float
  ∧ calculatePercentage 29 200 = 14%float
  ∧ calculatePercentage 1 3 = 33%float
  ∧ calculatePercentage 1 200 = 1%float.
Proof.
  split; [split; reflexivity|].
  destruct (calculatePercentage_never_divides_by_zero 29 0) as (_ & _ & H0 & _).
  destruct (calculatePercentage_never_divides_by_zero 29 200) as (_ & _ & _ & H200 & _).
  unfold calculatePercentage.
  rewrite (H0 eq_refl), (H200 eq_refl). repeat split; reflexivity.
Defined.

(** ** Confidence of a validated judgment *)

(** C3. Every confidence field of a judgment the validator lets through
    lies in [0,1] and is the value the provider gave, unchanged; a
    candidate whose variant has a confidence field is rejected when the
    field is missing or its value is outside [0,1] (NaN included),
    never adjusted into range. (The Cooking variant has no confidence
    field.) *)
Theorem validated_confidence_lies_in_unit_interval (c : Validator.candidate) :
  (∀ j, Validator.validate c = Some j →
        Forall (fun x => PrimFloat.leb 0 x = true ∧ PrimFloat.leb x 1 = true)
          (Validator.confidences j)
        ∧ Validator.confidences j = option_list (Validator.candidate_confidence c))
  ∧ (Validator.has_confidence_field c = true →
     Validator.candidate_confidence c = None →
     Validator.validate c = None)
  ∧ (∀ x, Validator.candidate_confidence c = Some x →
          Validator.in_unit_interval x = false →
          Validator.validate c = None).
Proof.
  repeat apply conj.
  - intros j Hj. destruct c as [r x re d s q|de x t p s a|dishes t n s|a x t s].
    + destruct r as [r|], x as [x|], re, d as [d|], s, q; try done. simpl in Hj.
      destruct (Validator.in_unit_interval x) eqn:Hx; [|done]. simpl in Hj.
      destruct ((0 <=? d)%Z && (negb r || (d =? 0)%Z)); [|done].
      injection Hj as <-. simpl. split; [|done].
      apply andb_prop in Hx. repeat constructor; tauto.
    + destruct de, x as [x|], t, p, s, a; try done. simpl in Hj.
      destruct (Validator.in_unit_interval x) eqn:Hx; [|done]. simpl in Hj.
      injection Hj as <-. simpl. split; [|done].
      apply andb_prop in Hx. repeat constructor; tauto.
    + destruct dishes as [[|dish dishes]|], t, n, s; try done.
      injection Hj as <-. simpl. split; [constructor|done].
    + destruct a as [[|c0 a]|], x as [x|], t, s; try done. simpl in Hj.
      destruct (Validator.in_unit_interval x) eqn:Hx; [|done]. simpl in Hj.
      injection Hj as <-. simpl. split; [|done].
      apply andb_prop in Hx. repeat constructor; tauto.
  - intros Hfield Hmissing.
    destruct c as [r x re d s q|de x t p s a|dishes t n s|a x t s];
      simpl in *; try discriminate; subst x.
    + by destruct r.
    + by destruct de.
    + by destruct a as [[|]|].
  - intros x Hx Hout.
    destruct c as [r x' re d s q|de x' t p s a|dishes t n s|a x' t s];
      simpl in *; try discriminate; subst x'.
    + destruct r, re, d, s, q; try done. by rewrite Hout.
    + destruct de, t, p, s, a; try done. by rewrite Hout.
    + destruct a as [[|]|], t, s; try done. by rewrite Hout.
Qed.

Lemma validated_confidence_lies_in_unit_interval_witness :
  let good :=
    Validator.harvest_candidate (Some true) (Some 0.9%float) (Some (js "ready"))
      (Some 0%Z) (Some (js "mature")) (Some 8.5%float) in
  let high :=
    Validator.general_candidate (Some (js "water daily")) (Some 1.5%float)
      (Some []) (Some []) in
  let bare :=
    Validator.disease_candidate (Some (js "none")) None (Some (js "none"))
      (Some (js "air")) (Some (js "mild")) (Some (js "leaves")) in
  (∃ j, Validator.validate good = Some j ∧ Validator.confidences j = [0.9%float])
  ∧ (Validator.candidate_confidence high = Some 1.5%float
     ∧ Validator.in_unit_interval 1.5 = false
     ∧ Validator.validate high = None)
  ∧ (Validator.has_confidence_field bare = true
     ∧ Validator.candidate_confidence bare = None
     ∧ Validator.validate bare = None).
Proof.
  intros good high bare. split; [|split].
  - eexists. split; [reflexivity|].
    apply (proj1 (validated_confidence_lies_in_unit_interval good)). reflexivity.
  - split; [reflexivity|]. split; [reflexivity|].
    apply (proj2 (proj2 (validated_confidence_lies_in_unit_interval high)) 1.5%float);
      reflexivity.
  - split; [reflexivity|]. split; [reflexivity|].
    apply (proj1 (proj2 (validated_confidence_lies_in_unit_interval bare)));
      reflexivity.
Defined.

(** ** The harvest invariant *)

(** C4. Every harvest judgment the validator accepts satisfies the
    invariant of section 3: when it is ready to harvest, no days
    remain (and the days remaining are never negative). Its values are
    those of the candidate, so a candidate that is ready with days
    remaining is rejected, not patched. *)
Theorem ready_harvest_has_no_days_remaining (c : Validator.candidate)
    (h : Validator.Harvest) :
  Validator.validate c = Some (Validator.harvest_judgment h) →
  (Validator.harvestReady h = true → Validator.daysRemaining h = 0%Z)
  ∧ (0 ≤ Validator.daysRemaining h)%Z
  ∧ c = Validator.harvest_candidate
          (Some (Validator.harvestReady h)) (Some (Validator.harvestConfidence h))
          (Some (Validator.recommendation h)) (Some (Validator.daysRemaining h))
          (Some (Validator.growthStage h)) (Some (Validator.qualityScore h)).
Proof.
  intros Hv.
  destruct c as [r x re d s q|de x t p s a|dishes t n s|a x t s]; simpl in Hv.
  - destruct r as [r|], x as [x|], re as [re|], d as [d|], s as [s|], q as [q|];
      try discriminate.
    destruct (_ && _) eqn:Hok; [|discriminate]. injection Hv as <-. simpl.
    apply andb_prop in Hok as [Hok Hready]. apply andb_prop in Hok as [_ Hdays].
    split; [|split; [lia|done]].
    intros ->. simpl in Hready. lia.
  - destruct de, x, t, p, s, a; try discriminate.
    by destruct (Validator.in_unit_interval _).
  - by destruct dishes as [[|]|], t, n, s.
  - destruct a as [[|]|], x, t, s; try discriminate.
    by destruct (Validator.in_unit_interval _).
Qed.

Lemma ready_harvest_has_no_days_remaining_witness :
  let ready :=
    Validator.mkHarvest true 0.9%float (js "ready") 0 (js "mature") 8.5%float in
  let candidate :=
    Validator.harvest_candidate (Some true) (Some 0.9%float) (Some (js "ready"))
      (Some 0%Z) (Some (js "mature")) (Some 8.5%float) in
  Validator.validate candidate = Some (Validator.harvest_judgment ready)
  ∧ Validator.daysRemaining ready = 0%Z.
Proof.
  intros ready candidate. split; [reflexivity|].
  apply (proj1 (ready_harvest_has_no_days_remaining candidate ready eq_refl)).
  reflexivity.
Defined.

(** A candidate that is ready to harvest with days remaining does not
    pass validation, whatever its other fields. *)
Lemma ready_with_days_remaining_is_rejected confidence recommendation stage quality
    (days : Z) :
  days ≠ 0%Z →
  Validator.validate
    (Validator.harvest_candidate (Some true) confidence recommendation (Some days)
       stage quality) = None.
Proof.
  intros Hdays. apply Z.eqb_neq in Hdays.
  destruct confidence, recommendation, stage, quality; simpl; try done.
  by rewrite Hdays, andb_false_r.
Qed.

(** ** The harvest judgment on the dashboard *)

(** The dashboard shows a confidence as it came, as a percentage: 0.85 as
    85, the float nearest to 0.145 as 14, and 1.5 as 150 with the badge
    of a high confidence; a missing one as NaN and a [null] as 0. *)
Example displayHarvestResult_confidence :
  let shown confidence :=
    let r := Dashboard.displayHarvestResult (H := example_host) (js "now")
               (JObject ((js "harvest_ready", JBool true) :: confidence)) in
    (Dashboard.confidence_percent r, Dashboard.confidence_class r) in
  shown [(js "confidence", JNumber 0.85)] = (85%float, js "badge bg-success fs-6")
  ∧ shown [(js "confidence", JNumber 0.145)] = (14%float, js "badge bg-danger fs-6")
  ∧ shown [(js "confidence", JNumber 1.5)] = (150%float, js "badge bg-success fs-6")
  ∧ PrimFloat.is_nan (fst (shown [])) = true
  ∧ shown [(js "confidence", JNull)] = (0%float, js "badge bg-danger fs-6").
Proof. vm_compute. repeat split. Qed.

(** Fifty-one additions on a first visit, then the page is opened again
    and the history loaded: the fifty newest items are back, newest
    first, as fresh objects. *)
Example history_survives_a_reload :
  let w := visits (H := example_host)
             [(empty_dom, add_item <$> fifty_one_additions);
              (empty_dom, [load None])] in
  entries w = reverse (drop 1 fifty_one_additions.*2)
  ∧ chatHistory (this w) = seq 0 50.
Proof. vm_compute. split; reflexivity. Qed.

(** * Further properties of the scripts *)

Arguments js : simpl never.

(** ** The storage helpers *)

Section Storage.

Lemma omap_lookup_fresh {A} (h t : list A) :
  omap (fun l => (h ++ t) !! l) (seq (length h) (length t)) = t.
Proof.
  revert h. induction t as [|x t IH]; intros h; [done|]. csimpl.
  rewrite list_lookup_middle by done. csimpl. f_equal.
  specialize (IH (h ++ [x])). rewrite length_app, <-app_assoc in IH. simpl in IH.
  by rewrite Nat.add_1_r in IH.
Qed.

Lemma storage_set_page throws key value w :
  storage_set throws key value w
  = (Normal tt,
     match throws with
     | Some error =>
         set_window (fun b => with_console
           (console b ++ [(js "ローカルストレージ保存エラー:", error)]) b) w
     | None =>
         set_window (with_localStorage
           (<[key := serialised_item <$> omap (fun l => heap (window w) !! l) value]>
              (localStorage (window w)))) w
     end).
Proof. by destruct throws. Qed.

Lemma storage_get_page throws key d w :
  storage_get throws key d w
  = match throws with
    | Some error =>
        (Normal d,
         set_window (fun b => with_console
           (console b ++ [(js "ローカルストレージ取得エラー:", error)]) b) w)
    | None =>
        match localStorage (window w) !! key with
        | Some text =>
            (Normal (seq (length (heap (window w))) (length text)),
             set_window (with_heap (heap (window w) ++ text)) w)
        | None => (Normal d, w)
        end
    end.
Proof.
  destruct throws; [done|].
  unfold storage_get, localStorage_getItem, try_catch, bind, read. simpl.
  by destruct (localStorage (window w) !! key).
Qed.

Lemma storage_remove_page throws key w :
  storage_remove throws key w
  = (Normal tt,
     match throws with
     | Some error =>
         set_window (fun b => with_console
           (console b ++ [(js "ローカルストレージ削除エラー:", error)]) b) w
     | None =>
         set_window (with_localStorage (delete key (localStorage (window w)))) w
     end).
Proof. by destruct throws. Qed.

End Storage.

(** Writing a value as JSON a second time changes nothing more, and a
    string is written as it is. *)
Lemma serialised_idempotent : ∀ value, serialised (serialised value) = serialised value.
Proof.
  fix IH 1. intros [|b|x|s|items|properties]; simpl; try done.
  - destruct (PrimFloat.is_finite x) eqn:Hfinite; simpl; [|done].
    destruct (PrimFloat.is_zero x) eqn:Hzero; simpl; [done|].
    by rewrite Hfinite, Hzero.
  - f_equal. induction items as [|item items IHitems]; simpl; [done|].
    by rewrite IH, IHitems.
  - f_equal. induction properties as [|[key v] properties IHproperties]; simpl; [done|].
    by rewrite IH, IHproperties.
Qed.

Lemma serialised_item_idempotent item :
  serialised_item (serialised_item item) = serialised_item item.
Proof.
  destruct item as [t q [a|] tg]; unfold serialised_item; simpl; [|done].
  by rewrite serialised_idempotent.
Qed.

Lemma serialised_item_string t q s tg :
  serialised_item (mkHistoryItem t q (str s) tg) = mkHistoryItem t q (str s) tg.
Proof. done. Qed.

(** X1. What [storage.set] writes, [storage.get] reads back: the array
    returned consists of fresh objects, distinct from one another and
    from every object there was, whose contents are those of the items
    that were stored, as JSON writes them; the objects there were are
    untouched. *)
Theorem storage_set_get_round_trip (key : jsstring) (value d : list nat) (w : page) :
  let stored := exec (storage_set None key value) w in
  let got := storage_get None key d stored in
  ∃ refs,
    fst got = Normal refs
    ∧ omap (fun l => heap (window (snd got)) !! l) refs
      = serialised_item <$> omap (fun l => heap (window w) !! l) value
    ∧ Forall (fun l => length (heap (window w)) ≤ l) refs
    ∧ NoDup refs
    ∧ ∀ l item, heap (window w) !! l = Some item →
                heap (window (snd got)) !! l = Some item.
Proof.
  intros stored got. subst stored got. unfold exec.
  rewrite storage_set_page. cbn [snd]. rewrite storage_get_page. simpl.
  rewrite lookup_insert_eq. eexists. split; [reflexivity|]. simpl.
  split; [apply omap_lookup_fresh|]. split.
  - apply Forall_forall. intros l Hl. apply elem_of_seq in Hl. lia.
  - split; [apply NoDup_seq|]. intros l item Hl. by apply lookup_app_l_Some.
Qed.

(** X2. The storage helpers never throw. When localStorage fails, each
    of them logs the error once and leaves the store as it was, and
    [storage.get] returns the default; [storage.get] also returns the
    default, changing nothing, when the key is not stored. *)
Theorem storage_helpers_never_throw (throws : option jsstring) (key : jsstring)
    (value d : list nat) (w : page) :
  fst (storage_set throws key value w) = Normal tt
  ∧ fst (storage_remove throws key w) = Normal tt
  ∧ (∃ refs, fst (storage_get throws key d w) = Normal refs)
  ∧ (∀ error, throws = Some error →
       fst (storage_get throws key d w) = Normal d
       ∧ ∀ after,
           after = exec (storage_set throws key value) w
           ∨ after = exec (storage_get throws key d) w
           ∨ after = exec (storage_remove throws key) w →
           localStorage (window after) = localStorage (window w)
           ∧ heap (window after) = heap (window w)
           ∧ ∃ label, console (window after) = console (window w) ++ [(label, error)])
  ∧ (throws = None → localStorage (window w) !! key = None →
     storage_get throws key d w = (Normal d, w)).
Proof.
  rewrite storage_set_page, storage_remove_page, storage_get_page.
  repeat apply conj; try done.
  - destruct throws; [eauto|]. destruct (localStorage (window w) !! key); eauto.
  - intros error ->. split; [done|]. intros after Hafter. unfold exec in Hafter.
    rewrite storage_set_page, storage_remove_page, storage_get_page in Hafter.
    destruct Hafter as [->|[->| ->]]; simpl; eauto.
  - intros -> Hmissing. by rewrite Hmissing.
Qed.

Lemma storage_helpers_never_throw_witness :
  let w := start_page empty_dom ∅ in
  (Some (js "SecurityError") = Some (js "SecurityError")
   ∧ (None : option jsstring) = None
   ∧ localStorage (window w) !! history_key = None)
  ∧ fst (storage_get (Some (js "SecurityError")) history_key [] w) = Normal []
  ∧ storage_get None history_key [] w = (Normal [], w).
Proof.
  intros w. split; [repeat split|].
  destruct (storage_helpers_never_throw (Some (js "SecurityError")) history_key [] [] w)
    as (_ & _ & _ & Hfail & _).
  destruct (storage_helpers_never_throw None history_key [] [] w)
    as (_ & _ & _ & _ & Hmiss).
  split; [apply (Hfail (js "SecurityError") eq_refl)|apply Hmiss; reflexivity].
Defined.

(** X3. [storage.set] and [storage.remove] touch no other key than
    theirs, and after [storage.remove] a [storage.get] of the key returns
    the default. *)
Theorem storage_keys_are_independent (throws : option jsstring)
    (key other : jsstring) (value d : list nat) (w : page) :
  (key ≠ other →
   localStorage (window (exec (storage_set throws key value) w)) !! other
   = localStorage (window w) !! other
   ∧ localStorage (window (exec (storage_remove throws key) w)) !! other
     = localStorage (window w) !! other)
  ∧ storage_get None key d (exec (storage_remove None key) w)
    = (Normal d, exec (storage_remove None key) w).
Proof.
  unfold exec. rewrite storage_set_page, !storage_remove_page. cbn [snd]. split.
  - intros Hne. destruct throws; simpl; [done|].
    by rewrite lookup_insert_ne, lookup_delete_ne.
  - rewrite storage_get_page. simpl. by rewrite lookup_delete_eq.
Qed.

Lemma storage_keys_are_independent_witness :
  let w := exec (storage_set None (js "theme") [])
             (exec (addToHistory (js "t") None (js "q") (str (js "a")) None)
                (start_page empty_dom ∅)) in
  history_key ≠ js "theme"
  ∧ localStorage (window (exec (storage_remove None history_key) w)) !! js "theme"
    = localStorage (window w) !! js "theme".
Proof.
  intros w. assert (history_key ≠ js "theme") as Hne by (vm_compute; discriminate).
  split; [exact Hne|].
  apply (proj1 (storage_keys_are_independent None history_key (js "theme") [] [] w)
           Hne).
Defined.

(** ** The history and the store *)

Section Persistence.

Context `{Host}.

Lemma load_on_start_page d ls :
  entries (exec (loadConsultationHistory None) (start_page d ls))
  = default [] (ls !! history_key).
Proof.
  unfold exec.
  destruct (loadConsultationHistory_loads None (start_page d ls)) as (d' & co & ->).
  unfold entries, loaded_items. simpl.
  apply (omap_lookup_fresh []).
Qed.

Lemma added_stored now q a tg w :
  localStorage (window (added now None q a tg w)) !! history_key
  = Some (serialised_item <$> entries (added now None q a tg w)).
Proof. unfold entries, added. simpl. by rewrite lookup_insert_eq. Qed.

Lemma clearHistory_page t w :
  ∃ d co,
    clearHistory t w
    = (Normal tt,
       mkPage (with_chatHistory [] (this w)) (attachedImage w) d
         (mkBrowser (heap (window w))
            (match t with
             | Some _ => localStorage (window w)
             | None => delete history_key (localStorage (window w))
             end)
            co (network (window w))))
    ∧ history_container d
      = (fun _ => no_history_notice) <$> history_container (document w)
    ∧ notifications d
      = notifications (document w) ++ [(js "相談履歴をクリアしました", js "info")].
Proof.
  unfold clearHistory, storage_remove, localStorage_removeItem, showNotification,
    updateHistoryDisplay.
  destruct w as [m img [qi cc hc ti ip ii hs nt] [hp ls co nw]].
  destruct t, hc;
    unfold bind, try_catch, throw, console_error, read, update, ret; simpl;
    do 2 eexists; (split; [reflexivity|]); split; reflexivity.
Qed.

End Persistence.

(** X4. The history survives leaving the page: after an addition whose
    write succeeded, loading on a newly opened page gives back the
    entries the history had, as JSON writes them and in the same
    order; after an addition whose write failed, it gives back what was
    stored before, without the new entry. *)
Theorem history_is_restored_from_the_store `{Host} (now q : jsstring) (a : option json)
    (tg : option jsstring) (d : dom) (w : page) :
  entries (exec (loadConsultationHistory None)
             (start_page d (localStorage (window
                (exec (addToHistory now None q a tg) w)))))
  = serialised_item <$> entries (exec (addToHistory now None q a tg) w)
  ∧ ∀ error,
      entries (exec (loadConsultationHistory None)
                 (start_page d (localStorage (window
                    (exec (addToHistory now (Some error) q a tg) w)))))
      = entries (exec (loadConsultationHistory None)
                   (start_page d (localStorage (window w)))).
Proof.
  split.
  - rewrite load_on_start_page. unfold exec. rewrite addToHistory_added. cbn [snd].
    by rewrite added_stored.
  - intros error. rewrite !load_on_start_page. unfold exec.
    by rewrite addToHistory_added.
Qed.

(** X5. [clearHistory] always completes: the history in memory is empty,
    the history panel (if the page has one) shows the notice for an empty
    history, and one info notification is added. If the removal from
    localStorage succeeded, a newly opened page loads an empty history;
    if it failed, the stored history is still there and comes back. *)
Theorem clearHistory_empties_the_history `{Host} (throws : option jsstring)
    (d : dom) (w : page) :
  fst (clearHistory throws w) = Normal tt
  ∧ entries (exec (clearHistory throws) w) = []
  ∧ history_container (document (exec (clearHistory throws) w))
    = (fun _ => no_history_notice) <$> history_container (document w)
  ∧ notifications (document (exec (clearHistory throws) w))
    = notifications (document w) ++ [(js "相談履歴をクリアしました", js "info")]
  ∧ entries (exec (loadConsultationHistory None)
               (start_page d (localStorage (window (exec (clearHistory throws) w)))))
    = match throws with
      | None => []
      | Some _ => default [] (localStorage (window w) !! history_key)
      end.
Proof.
  rewrite load_on_start_page. unfold exec.
  destruct (clearHistory_page throws w) as (d' & co & -> & Hpanel & Hnote). simpl.
  repeat split; [done..|].
  destruct throws; [done|]. by rewrite lookup_delete_eq.
Qed.



(** ** The chat *)

Section Chat.

Context `{Host}.

Lemma TextOnly_addMessageToChat_page now ty m l v w children :
  chat_container (document w) = Some children →
  ∃ node,
    TextOnly.addMessageToChat now ty m l v w = (Normal tt, appended children node w)
    ∧ messageContent node = template m
    ∧ isLoading node = l
    ∧ variantClass node
      = (if decide (v = Str (js "danger")) then js "text-danger" else [])
    ∧ messageClass node
      = (if decide (ty = js "user") then js "message-user" else js "message-ai").
Proof.
  intros Hc. unfold TextOnly.addMessageToChat, bind, read. simpl. rewrite Hc.
  eexists. split; [reflexivity|]. done.
Qed.

Lemma WithImage_addMessageToChat_page now ty m l v w children shown :
  chat_container (document w) = Some children →
  WithImage_content ty l m = Normal shown →
  ∃ node,
    WithImage.addMessageToChat now ty m l v w = (Normal tt, appended children node w)
    ∧ messageContent node = shown
    ∧ isLoading node = l
    ∧ variantClass node
      = (if decide (v = Str (js "danger")) then js "text-danger" else [])
    ∧ messageClass node
      = (if decide (ty = js "user") then js "message-user" else js "message-ai").
Proof.
  unfold WithImage_content. intros Hc Hs.
  unfold WithImage.addMessageToChat, bind, read. simpl. rewrite Hc.
  destruct (bool_decide (ty = js "ai") && negb l).
  - rewrite Hs. simpl. eexists. split; [reflexivity|]. done.
  - injection Hs as <-. simpl. eexists. split; [reflexivity|]. done.
Qed.

Lemma WithImage_addMessageToChat_throws now ty m l v w e :
  WithImage_content ty l m = Throw e →
  WithImage.addMessageToChat now ty m l v w = (Throw e, w).
Proof.
  unfold WithImage_content. intros Hs.
  unfold WithImage.addMessageToChat, bind, read. simpl.
  destruct (bool_decide (ty = js "ai") && negb l); [|done].
  by rewrite Hs.
Qed.

Lemma addMessageToChat_no_chat now ty m l v w :
  chat_container (document w) = None →
  TextOnly.addMessageToChat now ty m l v w = (Throw TypeError, w)
  ∧ ∃ e, WithImage.addMessageToChat now ty m l v w = (Throw e, w).
Proof.
  intros Hc. unfold TextOnly.addMessageToChat, WithImage.addMessageToChat, bind, read.
  simpl. rewrite Hc. split; [done|].
  destruct (bool_decide (ty = js "ai") && negb l); [|by eexists].
  destruct (WithImage.render m); by eexists.
Qed.

Lemma removeLastMessage_page w :
  removeLastMessage w
  = match chat_container (document w) with
    | None => (Throw TypeError, w)
    | Some [] => (Normal tt, w)
    | Some children =>
        (Normal tt,
         set_document
           (with_chat_container (Some (take (length children - 1) children))) w)
    end.
Proof.
  unfold removeLastMessage, bind, read. simpl.
  destruct (chat_container (document w)) as [children|]; [|done].
  destruct children as [|c children _] using rev_ind; [done|].
  rewrite last_snoc. destruct (children ++ [c]) eqn:Heq; [|done].
  by destruct children.
Qed.

Lemma set_chat_back w children :
  chat_container (document w) = Some children →
  set_document (with_chat_container (Some children)) w = w.
Proof.
  destruct w as [m img [qi cc hc ti ip ii hs nt sc] b]. simpl. by intros ->.
Qed.

Lemma removeLastMessage_some w children :
  chat_container (document w) = Some children →
  removeLastMessage w
  = (Normal tt,
     set_document (with_chat_container (Some (take (length children - 1) children))) w).
Proof.
  intros Hc. rewrite removeLastMessage_page, Hc. destruct children; [|done].
  simpl. by rewrite set_chat_back.
Qed.

Lemma take_all_but_last {A} (l : list A) x :
  take (length (l ++ [x]) - 1) (l ++ [x]) = l.
Proof. rewrite length_app. simpl. by rewrite Nat.add_sub, take_app_length. Qed.

Lemma take_all_but_two {A} (l : list A) :
  take (length (take (length l - 1) l) - 1) (take (length l - 1) l)
  = take (length l - 2) l.
Proof. rewrite length_take, take_take. f_equal. lia. Qed.

(** Removing the message that was just appended gives the chat back. *)
Lemma removed_after_appended children node w :
  chat_container (document w) = Some children →
  exec removeLastMessage (appended children node w)
  = set_document
      (with_chat_scrollTop (scrollHeight (children ++ [message_node node]))) w.
Proof.
  intros Hc. unfold exec. erewrite removeLastMessage_some by reflexivity.
  rewrite take_all_but_last.
  destruct w as [m img [qi cc hc ti ip ii hs nt sc] b]. simpl in *. by subst.
Qed.

End Chat.

(** X7. A message put into the chat and removed again leaves the page as
    it was except for the scroll position of the chat, which stays
    where adding the message put it, at the end of the chat with the
    message (this is how the "thinking" message comes and goes), in
    both revisions; [removeLastMessage] removes exactly the last child,
    does nothing on an empty chat, and throws when the page has no
    chat. *)
Theorem message_added_then_removed `{Host} (now ty : jsstring) (m : option json)
    (l : bool) (v : value) (w : page) :
  (∀ children,
     chat_container (document w) = Some children →
     (∃ node,
        exec removeLastMessage (exec (TextOnly.addMessageToChat now ty m l v) w)
        = set_document
            (with_chat_scrollTop (scrollHeight (children ++ [message_node node]))) w
        ∧ messageContent node = template m)
     ∧ (∀ shown,
          WithImage_content ty l m = Normal shown →
          ∃ node,
            exec removeLastMessage (exec (WithImage.addMessageToChat now ty m l v) w)
            = set_document
                (with_chat_scrollTop (scrollHeight (children ++ [message_node node])))
                w
            ∧ messageContent node = shown)
     ∧ chat_container (document (exec removeLastMessage w))
       = Some (take (length children - 1) children))
  ∧ (chat_container (document w) = Some [] → removeLastMessage w = (Normal tt, w))
  ∧ (chat_container (document w) = None → removeLastMessage w = (Throw TypeError, w)).
Proof.
  repeat apply conj.
  - intros children Hc. repeat split.
    + destruct (TextOnly_addMessageToChat_page now ty m l v w children Hc)
        as (node & Heq & Hm & _).
      exists node. unfold exec at 2. rewrite Heq. cbn [snd].
      by rewrite removed_after_appended.
    + intros shown Hs.
      destruct (WithImage_addMessageToChat_page now ty m l v w children shown Hc Hs)
        as (node & Heq & Hm & _).
      exists node. unfold exec at 2. rewrite Heq. cbn [snd].
      by rewrite removed_after_appended.
    + unfold exec. by erewrite removeLastMessage_some by done.
  - intros Hc. by rewrite removeLastMessage_page, Hc.
  - intros Hc. by rewrite removeLastMessage_page, Hc.
Qed.

Lemma message_added_then_removed_witness :
  let w := set_document (with_chat_container (Some [static_node]))
             (start_page empty_dom ∅) in
  chat_container (document w) = Some [static_node]
  ∧ ∃ node,
      exec removeLastMessage
        (exec (TextOnly.addMessageToChat (H := example_host) (js "now") (js "ai")
                 (str (js "...")) true (Str (js "default"))) w)
      = set_document (with_chat_scrollTop 2) w
      ∧ messageContent node = js "...".
Proof.
  intros w. split; [reflexivity|].
  destruct (proj1 (proj1 (message_added_then_removed (H := example_host) (js "now")
                            (js "ai") (str (js "...")) true (Str (js "default")) w)
                     [static_node] eq_refl)) as (node & Heq & Hm).
  exists node. split; [exact Heq|exact Hm].
Defined.

(** ** Reasoning with postconditions *)

Section Post.

Context {A B : Type}.

Lemma post_ret (a : A) N T w : N a w → post (ret a) N T w.
Proof. done. Qed.

Lemma post_throw e (N : A → page → Prop) T w : T e w → post (throw e) N T w.
Proof. done. Qed.

Lemma post_read (f : page → A) N T w : N (f w) w → post (read f) N T w.
Proof. done. Qed.

Lemma post_update f (N : unit → page → Prop) T w : N tt (f w) → post (update f) N T w.
Proof. done. Qed.

Lemma post_bind (m : script A) (k : A → script B) N T w :
  post m (fun a w' => post (k a) N T w') T w → post (bind m k) N T w.
Proof. unfold post, bind. by destruct (m w) as [[a|e] w']. Qed.

Lemma post_try_catch (b : script A) (h : jsstring → script A) N T w :
  post b N (fun e w' => post (h e) N T w') w → post (try_catch b h) N T w.
Proof. unfold post, try_catch. by destruct (b w) as [[a|e] w']. Qed.

Lemma post_equation (m : script A) c w' (N : A → page → Prop) T w :
  m w = (c, w') →
  match c with Normal a => N a w' | Throw e => T e w' end →
  post m N T w.
Proof. unfold post. by intros ->. Qed.

Lemma post_consequence (m : script A) (N N' : A → page → Prop) (T T' : jsstring → page → Prop) w :
  post m N T w →
  (∀ a w', N a w' → N' a w') → (∀ e w', T e w' → T' e w') →
  post m N' T' w.
Proof. unfold post. destruct (m w) as [[a|e] w']; auto. Qed.

Lemma post_never (m : script A) N w :
  post m N never w → ∃ a, fst (m w) = Normal a ∧ N a (exec m w).
Proof. unfold post, exec. destruct (m w) as [[a|e] w']; simpl; [eauto|done]. Qed.

End Post.

Lemma post_never_any {A} (m : script A) N T w :
  post m N never w → post m N T w.
Proof. intros Hp. by eapply post_consequence. Qed.

Lemma post_never_unit (m : script unit) N w :
  post m (fun _ => N) never w → fst (m w) = Normal tt ∧ N (exec m w).
Proof. intros Hp. apply post_never in Hp as ([] & ? & ?). done. Qed.

(** ** The response to a question *)

Section Outcome.

Context `{Host}.

Lemma apiCall_resume_outcome {A} (r : response A) w :
  apiCall_resume r w
  = match apiCall_outcome r with
    | Normal data => (Normal data, w)
    | Throw error =>
        (Throw error, exec (console_error (js "API呼び出しエラー:") error) w)
    end.
Proof. by destruct r as [message|[] status [data|error]]. Qed.

Lemma json_outcome_settle {A} (r : response A) :
  match r with
  | rejected message => throw message
  | received _ _ body => settle body
  end = settle (json_outcome r).
Proof. by destruct r. Qed.

Lemma get_not_null data key w :
  data ≠ JNull → get data key w = (Normal (field data key), w).
Proof. by destruct data. Qed.

Lemma get_null key w : get JNull key w = (Throw TypeError, w).
Proof. done. Qed.

Lemma WithImage_content_ai m : WithImage_content (js "ai") false m = WithImage.render m.
Proof. unfold WithImage_content. by rewrite bool_decide_eq_true_2. Qed.

Lemma WithImage_content_user l m :
  WithImage_content (js "user") l m = Normal (template m).
Proof.
  unfold WithImage_content. rewrite bool_decide_eq_false_2; [done|].
  vm_compute. discriminate.
Qed.

Lemma WithImage_content_loading ty m : WithImage_content ty true m = Normal (template m).
Proof. unfold WithImage_content. by rewrite andb_false_r. Qed.

Lemma TextOnly_unanswered_cases r removed detail :
  TextOnly_unanswered r removed detail →
  (∃ e, apiCall_outcome r = Throw e ∧ removed = 1 ∧ detail = e)
  ∨ (apiCall_outcome r = Normal JNull ∧ removed = 2 ∧ detail = TypeError)
  ∨ (∃ data,
       apiCall_outcome r = Normal data
       ∧ data ≠ JNull
       ∧ strict_eq_string (field data (js "status")) (js "success") = false
       ∧ removed = 1
       ∧ detail = template (field data (js "error"))).
Proof.
  unfold TextOnly_unanswered.
  destruct (apiCall_outcome r) as [[]|e]; intros Hr;
    [right; left; by destruct Hr|right; right; eexists; by destruct Hr as (?&?&?)..
    |left; eexists; by destruct Hr].
Qed.

Lemma WithImage_unanswered_cases r removed detail :
  WithImage_unanswered r removed detail →
  (∃ e, json_outcome r = Throw e ∧ removed = 1 ∧ detail = e)
  ∨ (json_outcome r = Normal JNull ∧ removed = 2 ∧ detail = TypeError)
  ∨ (∃ data,
       json_outcome r = Normal data
       ∧ data ≠ JNull
       ∧ strict_eq_string (field data (js "status")) (js "success") = true
       ∧ removed = 2
       ∧ WithImage.render (field data (js "answer")) = Throw detail)
  ∨ (∃ data,
       json_outcome r = Normal data
       ∧ data ≠ JNull
       ∧ strict_eq_string (field data (js "status")) (js "success") = false
       ∧ removed = 1
       ∧ detail = template (field data (js "error"))).
Proof.
  unfold WithImage_unanswered.
  destruct (json_outcome r) as [data|e]; [|intros [-> ->]; left; by eexists].
  destruct data; [intros [-> ->]; right; by left|..]; cbv beta iota;
    (destruct (strict_eq_string _ _) eqn:Hs; intros [-> Hd]; right; right;
     [left|right]; eexists; by rewrite Hs).
Qed.

(** [removeImage] detaches the image and leaves the chat, the
    notifications, the manager and the browser as they were. *)
Lemma removeImage_post w (N : unit → page → Prop) T :
  (∀ w2, this w2 = this w →
         window w2 = window w →
         chat_container (document w2) = chat_container (document w) →
         chat_scrollTop (document w2) = chat_scrollTop (document w) →
         notifications (document w2) = notifications (document w) →
         attachedImage w2 = None →
         N tt w2) →
  post WithImage.removeImage N T w.
Proof.
  intros HN. unfold post, WithImage.removeImage, bind, read, update, ret. simpl.
  destruct (image_preview (document w)), (image_input (document w)); by apply HN.
Qed.

Lemma reported_shift n k children shown w0 after :
  reported k (take (length children - n) children) shown w0 after →
  reported (n + k) children shown w0 after.
Proof.
  unfold reported.
  assert (take (length (take (length children - n) children) - k)
            (take (length children - n) children)
          = take (length children - (n + k)) children) as ->; [|done].
  rewrite length_take, take_take. f_equal. lia.
Qed.

End Outcome.

(** ** Parts of the page a computation keeps *)

Section Keeps.

Context {A B C : Type} (f : page → C).

Lemma keeps_ret (a : A) : keeps f (ret a).
Proof. done. Qed.

Lemma keeps_throw e : keeps f (throw (A := A) e).
Proof. done. Qed.

Lemma keeps_read (g : page → A) : keeps f (read g).
Proof. done. Qed.

Lemma keeps_update g : (∀ w, f (g w) = f w) → keeps f (update g).
Proof. intros Hg w. apply Hg. Qed.

Lemma keeps_bind (m : script A) (k : A → script B) :
  keeps f m → (∀ a, keeps f (k a)) → keeps f (bind m k).
Proof.
  intros Hm Hk w. unfold bind. specialize (Hm w).
  destruct (m w) as [[a|e] w']; simpl in *; [|done].
  by rewrite Hk.
Qed.

Lemma keeps_try_catch (b : script A) (h : jsstring → script A) :
  keeps f b → (∀ e, keeps f (h e)) → keeps f (try_catch b h).
Proof.
  intros Hb Hh w. unfold try_catch. specialize (Hb w).
  destruct (b w) as [[a|e] w']; simpl in *; [done|].
  by rewrite Hh.
Qed.

(** The same for one starting page, when what follows depends on how
    the first part ended. *)
Lemma kept_bind (m : script A) (k : A → script B) w :
  f (snd (m w)) = f w →
  (∀ a w', m w = (Normal a, w') → f (snd (k a w')) = f w') →
  f (snd (bind m k w)) = f w.
Proof.
  intros Hm Hk. unfold bind. destruct (m w) as [[a|e] w'] eqn:Heq; simpl in *; [|done].
  by rewrite (Hk a w').
Qed.

Lemma kept_try_catch (b : script A) (h : jsstring → script A) w :
  f (snd (b w)) = f w →
  (∀ e w', b w = (Throw e, w') → f (snd (h e w')) = f w') →
  f (snd (try_catch b h w)) = f w.
Proof.
  intros Hb Hh. unfold try_catch. destruct (b w) as [[a|e] w'] eqn:Heq; simpl in *;
    [done|].
  by rewrite (Hh e w').
Qed.

(** What is kept holds of the page a computation ends on, however it
    ends. *)
Lemma keeps_post (m : script A) (P : C → Prop) w :
  keeps f m → P (f w) → post m (fun _ after => P (f after)) (fun _ after => P (f after)) w.
Proof.
  intros Hm HP. unfold post. specialize (Hm w).
  destruct (m w) as [[a|e] w']; simpl in *; by rewrite Hm.
Qed.

End Keeps.

Lemma post_exec {A} (m : script A) (P : page → Prop) w :
  post m (fun _ => P) (fun _ => P) w → P (exec m w).
Proof. unfold post, exec. by destruct (m w) as [[a|e] w']. Qed.

(** Steps through a computation that keeps a part of the page. *)
Ltac keeps_step :=
  first
    [ apply keeps_ret
    | apply keeps_throw
    | apply keeps_read
    | apply keeps_update; intros; reflexivity
    | apply keeps_bind; [|intros]
    | apply keeps_try_catch; [|intros]
    | match goal with
      | |- keeps _ (match ?x with _ => _ end) => destruct x
      | |- keeps _ (if ?x then _ else _) => destruct x
      end ].

(** ** A response with an answer *)

Section Response.

Context `{Host}.

Lemma TextOnly_resume_success now throws r q data answer children w :
  apiCall_outcome r = Normal data →
  answers data answer →
  chat_container (document w) = Some children →
  post (TextOnly.sendQuestion_resume now throws r q)
    (fun _ => recorded now q answer (take (length children - 1) children)
                (template answer) w) never w.
Proof.
  intros Hr (Hnull & Hstatus & Hanswer) Hc. unfold TextOnly.sendQuestion_resume.
  apply post_try_catch, post_bind.
  eapply post_equation; [by rewrite apiCall_resume_outcome, Hr|].
  apply post_bind. eapply post_equation; [by apply removeLastMessage_some|].
  apply post_bind. eapply post_equation; [by apply get_not_null|].
  cbv beta iota. rewrite Hstatus, Hanswer.
  apply post_bind.
  edestruct TextOnly_addMessageToChat_page as (node & Heq & Hm & Hl & Hv & _);
    [|eapply post_equation; [exact Heq|]].
  { reflexivity. }
  apply post_bind, post_read, post_bind.
  eapply post_equation; [apply addToHistory_added|]. apply post_update.
  unfold recorded. simpl. repeat split; try (by destruct throws).
  exists node. by rewrite decide_False in Hv by done.
Qed.

Lemma WithImage_resume_success now throws r q data answer shown children w :
  json_outcome r = Normal data →
  answers data answer →
  WithImage.render answer = Normal shown →
  chat_container (document w) = Some children →
  post (WithImage.sendQuestion_resume now throws r q)
    (fun _ after =>
       recorded now q answer (take (length children - 1) children) shown w after
       ∧ attachedImage after = None)
    never w.
Proof.
  intros Hr (Hnull & Hstatus & Hanswer) Hshown Hc.
  unfold WithImage.sendQuestion_resume. rewrite json_outcome_settle, Hr.
  apply post_try_catch, post_bind.
  eapply post_equation; [reflexivity|].
  apply post_bind. eapply post_equation; [by apply removeLastMessage_some|].
  apply post_bind. eapply post_equation; [by apply get_not_null|].
  cbv beta iota. rewrite Hstatus, Hanswer.
  apply post_bind, post_bind.
  edestruct WithImage_addMessageToChat_page as (node & Heq & Hm & Hl & Hv & _);
    [| |eapply post_equation; [exact Heq|]].
  { reflexivity. }
  { by rewrite WithImage_content_ai. }
  apply post_bind, post_read, post_bind.
  eapply post_equation; [apply addToHistory_added|]. apply post_update.
  apply removeImage_post. intros w2 Ht Hw Hch Hsc Hn Hi. split; [|done].
  unfold recorded. rewrite Ht, Hw, Hch, Hsc, Hn. simpl.
  repeat split; try (by destruct throws).
  exists node. by rewrite decide_False in Hv by done.
Qed.

End Response.

(** X8. When the response carries an answer (a body that is not [null]
    with [status === 'success']; in the text-only revision the HTTP
    status must be ok, the revision with image attachment does not look
    at it) and the page has a chat, the rest of [sendQuestion] completes
    normally: the last chat message, whatever it is, is removed and the
    answer is put at the end of the chat, which is scrolled there; the
    history gets one new item with the question, the answer as it came
    and the tag selected when the response arrives; a success
    notification is shown and no request is issued. The text-only
    revision shows the answer as the template interpolates it; the
    revision with image attachment shows what [render] makes of it,
    when [render] does not throw, and detaches the image. *)
Theorem answer_is_shown_and_recorded `{Host} (now : jsstring)
    (throws : option jsstring) (r : response json) (q : jsstring) (data : json)
    (answer : option json) (children : list chat_node) (last : chat_node) (w : page) :
  chat_container (document w) = Some (children ++ [last]) →
  answers data answer →
  (apiCall_outcome r = Normal data →
   fst (TextOnly.sendQuestion_resume now throws r q w) = Normal tt
   ∧ recorded now q answer children (template answer) w
       (exec (TextOnly.sendQuestion_resume now throws r q) w))
  ∧ (∀ shown,
       json_outcome r = Normal data →
       WithImage.render answer = Normal shown →
       fst (WithImage.sendQuestion_resume now throws r q w) = Normal tt
       ∧ recorded now q answer children shown w
           (exec (WithImage.sendQuestion_resume now throws r q) w)
       ∧ attachedImage (exec (WithImage.sendQuestion_resume now throws r q) w) = None).
Proof.
  intros Hc Ha. split.
  - intros Hr.
    destruct (post_never_unit _ _ _
                (TextOnly_resume_success now throws r q data answer _ w Hr Ha Hc))
      as (Hret & Hrec).
    by rewrite take_all_but_last in Hrec.
  - intros shown Hr Hs.
    destruct (post_never_unit _ _ _
                (WithImage_resume_success now throws r q data answer shown _ w
                   Hr Ha Hs Hc))
      as (Hret & Hrec & Himg).
    by rewrite take_all_but_last in Hrec.
Qed.

Lemma answer_is_shown_and_recorded_witness :
  let w := set_document (with_chat_container (Some [static_node; static_node]))
             (start_page empty_dom ∅) in
  let data := JObject [(js "status", JString (js "success"));
                       (js "answer", JString (js "water daily"))] in
  let r := received false 500 (Normal data) in
  (chat_container (document w) = Some ([static_node] ++ [static_node])
   ∧ answers data (str (js "water daily"))
   ∧ json_outcome r = Normal data
   ∧ WithImage.render (H := example_host) (str (js "water daily"))
     = Normal (js "water daily"))
  ∧ fst (WithImage.sendQuestion_resume (H := example_host) (js "now") None r
           (js "how often?") w)
    = Normal tt
  ∧ entries (exec (WithImage.sendQuestion_resume (H := example_host) (js "now") None r
                     (js "how often?")) w)
    = [mkHistoryItem (js "now") (js "how often?") (str (js "water daily"))
         (Some (js "general"))].
Proof.
  intros w data r.
  assert (answers data (str (js "water daily"))) as Ha.
  { split; [discriminate|]. split; by vm_compute. }
  split; [split; [reflexivity|]; split; [exact Ha|]; split; reflexivity|].
  destruct (proj2 (answer_is_shown_and_recorded (H := example_host) (js "now") None r
                     (js "how often?") data (str (js "water daily")) [static_node]
                     static_node w eq_refl Ha) (js "water daily") eq_refl eq_refl)
    as (Hret & _ & _).
  split; [exact Hret|reflexivity].
Defined.

(** ** A response without answer *)

Section Errors.

Context `{Host}.

Lemma apiCall_resume_keeps_history {A} (r : response A) :
  keeps history_part (apiCall_resume r).
Proof. unfold apiCall_resume, console_error, settle. repeat keeps_step. Qed.

Lemma removeLastMessage_keeps_history : keeps history_part removeLastMessage.
Proof. unfold removeLastMessage. repeat keeps_step. Qed.

Lemma get_keeps_history data key : keeps history_part (get data key).
Proof. unfold get. repeat keeps_step. Qed.

Lemma settle_keeps_history {A} (c : completion A) : keeps history_part (settle c).
Proof. unfold settle. repeat keeps_step. Qed.

Lemma TextOnly_addMessageToChat_keeps_history now ty m l v :
  keeps history_part (TextOnly.addMessageToChat now ty m l v).
Proof. unfold TextOnly.addMessageToChat. repeat keeps_step. Qed.

Lemma WithImage_addMessageToChat_keeps_history now ty m l v :
  keeps history_part (WithImage.addMessageToChat now ty m l v).
Proof. unfold WithImage.addMessageToChat, settle. repeat keeps_step. Qed.

Lemma showNotification_keeps_history m t : keeps history_part (showNotification m t).
Proof. unfold showNotification. repeat keeps_step. Qed.

Lemma removeImage_keeps_history : keeps history_part WithImage.removeImage.
Proof. unfold WithImage.removeImage. repeat keeps_step. Qed.

Lemma TextOnly_handler_keeps_history now e :
  keeps history_part
    (removeLastMessage ;;
     TextOnly.addMessageToChat now (js "ai") (str (js "エラー: " ++ e)) false
       (Str (js "danger")) ;;
     showNotification (js "AI相談でエラーが発生しました") (js "danger")).
Proof.
  auto using keeps_bind, removeLastMessage_keeps_history,
    TextOnly_addMessageToChat_keeps_history, showNotification_keeps_history.
Qed.

Lemma WithImage_handler_keeps_history now e :
  keeps history_part
    (removeLastMessage ;;
     WithImage.addMessageToChat now (js "ai") (str (js "エラー: " ++ e)) false
       (Str (js "danger")) ;;
     showNotification (js "AI相談でエラーが発生しました") (js "danger")).
Proof.
  auto using keeps_bind, removeLastMessage_keeps_history,
    WithImage_addMessageToChat_keeps_history, showNotification_keeps_history.
Qed.

Lemma TextOnly_unanswered_keeps_history now throws r q removed detail w :
  TextOnly_unanswered r removed detail →
  history_part (exec (TextOnly.sendQuestion_resume now throws r q) w) = history_part w.
Proof.
  intros Hr. unfold exec, TextOnly.sendQuestion_resume.
  apply kept_try_catch; [|intros e w' _; apply TextOnly_handler_keeps_history].
  apply kept_bind; [apply apiCall_resume_keeps_history|].
  intros data w' Hdata. rewrite apiCall_resume_outcome in Hdata.
  apply kept_bind; [apply removeLastMessage_keeps_history|]. intros _ w1 _.
  apply kept_bind; [apply get_keeps_history|]. intros status w2 Hget.
  apply TextOnly_unanswered_cases in Hr
    as [(e & Hout & _)|[(Hout & _)|(data' & Hout & Hnull & Hstatus & _)]];
    rewrite Hout in Hdata; try discriminate; injection Hdata as <- <-.
  - discriminate.
  - rewrite get_not_null in Hget by done. injection Hget as <- <-.
    rewrite Hstatus.
    apply keeps_bind; [apply TextOnly_addMessageToChat_keeps_history|].
    intros _. apply showNotification_keeps_history.
Qed.

Lemma WithImage_unanswered_keeps_history now throws r q removed detail w :
  WithImage_unanswered r removed detail →
  history_part (exec (WithImage.sendQuestion_resume now throws r q) w) = history_part w.
Proof.
  intros Hr. unfold exec, WithImage.sendQuestion_resume. rewrite json_outcome_settle.
  apply kept_try_catch; [|intros e w' _; apply WithImage_handler_keeps_history].
  apply kept_bind; [apply settle_keeps_history|].
  intros data w' Hdata.
  apply kept_bind; [apply removeLastMessage_keeps_history|]. intros _ w1 _.
  apply kept_bind; [apply get_keeps_history|]. intros status w2 Hget.
  apply WithImage_unanswered_cases in Hr
    as [(e & Hout & _)|[(Hout & _)
       |[(data' & Hout & Hnull & Hstatus & _ & Hrender)
        |(data' & Hout & Hnull & Hstatus & _)]]];
    rewrite Hout in Hdata; try discriminate; injection Hdata as <- <-.
  - discriminate.
  - rewrite get_not_null in Hget by done. injection Hget as <- <-.
    rewrite Hstatus.
    apply kept_bind; [|intros _ w3 _; apply removeImage_keeps_history].
    apply kept_bind; [apply WithImage_addMessageToChat_keeps_history|].
    intros [] w3 Hadd.
    rewrite (WithImage_addMessageToChat_throws _ _ _ _ _ _ detail) in Hadd; [done|].
    by rewrite WithImage_content_ai.
  - rewrite get_not_null in Hget by done. injection Hget as <- <-.
    rewrite Hstatus.
    apply keeps_bind; [|intros _; apply removeImage_keeps_history].
    apply keeps_bind; [apply WithImage_addMessageToChat_keeps_history|].
    intros _. apply showNotification_keeps_history.
Qed.

Lemma same_history_part w after :
  history_part after = history_part w → same_history w after.
Proof. unfold history_part, same_history. by intros [= -> -> -> ->]. Qed.

(** The two statements every error branch ends with. *)
Lemma TextOnly_report now text children w0 w1 :
  chat_container (document w1) = Some children →
  notifications (document w1) = notifications (document w0) →
  history_part w1 = history_part w0 →
  post (TextOnly.addMessageToChat now (js "ai") (str text) false (Str (js "danger")) ;;
        showNotification (js "AI相談でエラーが発生しました") (js "danger"))
    (fun _ => reported 0 children text w0) never w1.
Proof.
  intros Hc Hn Hh. apply post_bind.
  edestruct TextOnly_addMessageToChat_page as (node & Heq & Hm & Hl & Hv & _);
    [|eapply post_equation; [exact Heq|]].
  { exact Hc. }
  apply post_update. unfold reported. simpl. rewrite Hn, Nat.sub_0_r, firstn_all.
  split; [by apply same_history_part|]. split; [|done].
  exists node. by rewrite decide_True in Hv by done.
Qed.

Lemma WithImage_report now text shown children w0 w1 :
  chat_container (document w1) = Some children →
  notifications (document w1) = notifications (document w0) →
  history_part w1 = history_part w0 →
  WithImage.render (str text) = Normal shown →
  post (WithImage.addMessageToChat now (js "ai") (str text) false (Str (js "danger")) ;;
        showNotification (js "AI相談でエラーが発生しました") (js "danger"))
    (fun _ after => reported 0 children shown w0 after
                    ∧ attachedImage after = attachedImage w1) never w1.
Proof.
  intros Hc Hn Hh Hs. apply post_bind.
  edestruct WithImage_addMessageToChat_page as (node & Heq & Hm & Hl & Hv & _);
    [| |eapply post_equation; [exact Heq|]].
  { exact Hc. }
  { by rewrite WithImage_content_ai. }
  apply post_update. unfold reported. simpl. rewrite Hn, Nat.sub_0_r, firstn_all.
  split; [|done]. split; [by apply same_history_part|]. split; [|done].
  exists node. by rewrite decide_True in Hv by done.
Qed.

(** The handler of [catch]. *)
Lemma TextOnly_handler_report now e children w0 w1 :
  chat_container (document w1) = Some children →
  notifications (document w1) = notifications (document w0) →
  history_part w1 = history_part w0 →
  post (removeLastMessage ;;
        TextOnly.addMessageToChat now (js "ai") (str (js "エラー: " ++ e)) false
          (Str (js "danger")) ;;
        showNotification (js "AI相談でエラーが発生しました") (js "danger"))
    (fun _ => reported 1 children (js "エラー: " ++ e) w0) never w1.
Proof.
  intros Hc Hn Hh.
  apply post_bind. eapply post_equation; [by apply removeLastMessage_some|].
  eapply post_consequence; [by apply TextOnly_report| |done].
  intros [] after Hrep. by apply (reported_shift 1 0).
Qed.

Lemma WithImage_handler_report now e shown children w0 w1 :
  chat_container (document w1) = Some children →
  notifications (document w1) = notifications (document w0) →
  history_part w1 = history_part w0 →
  WithImage.render (str (js "エラー: " ++ e)) = Normal shown →
  post (removeLastMessage ;;
        WithImage.addMessageToChat now (js "ai") (str (js "エラー: " ++ e)) false
          (Str (js "danger")) ;;
        showNotification (js "AI相談でエラーが発生しました") (js "danger"))
    (fun _ after => reported 1 children shown w0 after
                    ∧ attachedImage after = attachedImage w1) never w1.
Proof.
  intros Hc Hn Hh Hs.
  apply post_bind. eapply post_equation; [by apply removeLastMessage_some|].
  eapply post_consequence; [by eapply WithImage_report| |done].
  intros [] after [Hrep Hi]. split; [by apply (reported_shift 1 0)|done].
Qed.

Lemma TextOnly_unanswered_reported now throws r q removed detail children w :
  TextOnly_unanswered r removed detail →
  chat_container (document w) = Some children →
  post (TextOnly.sendQuestion_resume now throws r q)
    (fun _ => reported removed children (js "エラー: " ++ detail) w) never w.
Proof.
  intros Hr Hc. unfold TextOnly.sendQuestion_resume.
  apply post_try_catch, post_bind.
  apply TextOnly_unanswered_cases in Hr
    as [(e & Hout & -> & ->)|[(Hout & -> & ->)
       |(data & Hout & Hnull & Hstatus & -> & ->)]];
    (eapply post_equation; [by rewrite apiCall_resume_outcome, Hout|]).
  - by apply TextOnly_handler_report.
  - apply post_bind. eapply post_equation; [by apply removeLastMessage_some|].
    apply post_bind, post_throw.
    eapply post_consequence; [by apply TextOnly_handler_report| |done].
    intros [] after Hrep. by apply (reported_shift 1 1).
  - apply post_bind. eapply post_equation; [by apply removeLastMessage_some|].
    apply post_bind. eapply post_equation; [by apply get_not_null|].
    cbv beta iota. rewrite Hstatus. apply post_never_any.
    eapply post_consequence; [by apply TextOnly_report| |done].
    intros [] after Hrep. by apply (reported_shift 1 0).
Qed.

Lemma WithImage_unanswered_reported now throws r q removed detail shown children w :
  WithImage_unanswered r removed detail →
  WithImage.render (str (js "エラー: " ++ detail)) = Normal shown →
  chat_container (document w) = Some children →
  post (WithImage.sendQuestion_resume now throws r q)
    (fun _ => reported removed children shown w) never w.
Proof.
  intros Hr Hs Hc. unfold WithImage.sendQuestion_resume. rewrite json_outcome_settle.
  apply post_try_catch, post_bind.
  apply WithImage_unanswered_cases in Hr
    as [(e & Hout & -> & ->)|[(Hout & -> & ->)
       |[(data & Hout & Hnull & Hstatus & -> & Hrender)
        |(data & Hout & Hnull & Hstatus & -> & ->)]]];
    rewrite Hout; (eapply post_equation; [reflexivity|]).
  - eapply post_consequence; [by eapply WithImage_handler_report| |done].
    by intros [] after [Hrep _].
  - apply post_bind. eapply post_equation; [by apply removeLastMessage_some|].
    apply post_bind, post_throw.
    eapply post_consequence; [by eapply WithImage_handler_report| |done].
    intros [] after [Hrep _]. by apply (reported_shift 1 1).
  - apply post_bind. eapply post_equation; [by apply removeLastMessage_some|].
    apply post_bind. eapply post_equation; [by apply get_not_null|].
    cbv beta iota. rewrite Hstatus. apply post_bind, post_bind.
    eapply post_equation.
    { apply WithImage_addMessageToChat_throws. by rewrite WithImage_content_ai. }
    eapply post_consequence; [by eapply WithImage_handler_report| |done].
    intros [] after [Hrep _]. by apply (reported_shift 1 1).
  - apply post_bind. eapply post_equation; [by apply removeLastMessage_some|].
    apply post_bind. eapply post_equation; [by apply get_not_null|].
    cbv beta iota. rewrite Hstatus. apply post_never_any, post_bind.
    eapply post_consequence; [by eapply WithImage_report| |done].
    intros [] after [Hrep _]. apply removeImage_post.
    intros w2 Ht Hw Hch Hsc Hn Hi. apply (reported_shift 1 0).
    destruct Hrep as ((Hthis & Hheap & Hstore & Hnet) & Hnode & Hnote).
    unfold reported, same_history. by rewrite Ht, Hw, Hch, Hsc, Hn.
Qed.

End Errors.

(** X9. When the response carries no answer, the rest of [sendQuestion]
    leaves the manager with its history, the item objects, the store and
    the requests as they were, whether or not the page has a chat. With
    a chat it completes normally (in the revision with image
    attachment, when [render] does not throw on the error message): an
    error message in the danger style is put at the end of the chat and
    a danger notification is shown. The error message takes the place
    of the last chat message when the request failed, the body is not
    JSON, the status is not ['success'] or, in the text-only revision,
    the HTTP status is not ok; it takes the place of the last two (of
    the user's question too, when the "thinking" message is the last)
    when the body is [null] and, in the revision with image
    attachment, when [render] throws on the answer. *)
Theorem unanswered_question_is_reported `{Host} (now : jsstring)
    (throws : option jsstring) (r : response json) (q : jsstring) (removed : nat)
    (detail : jsstring) (w : page) :
  (TextOnly_unanswered r removed detail →
   same_history w (exec (TextOnly.sendQuestion_resume now throws r q) w)
   ∧ ∀ children,
       chat_container (document w) = Some children →
       fst (TextOnly.sendQuestion_resume now throws r q w) = Normal tt
       ∧ reported removed children (js "エラー: " ++ detail) w
           (exec (TextOnly.sendQuestion_resume now throws r q) w))
  ∧ (WithImage_unanswered r removed detail →
     same_history w (exec (WithImage.sendQuestion_resume now throws r q) w)
     ∧ ∀ children shown,
         chat_container (document w) = Some children →
         WithImage.render (str (js "エラー: " ++ detail)) = Normal shown →
         fst (WithImage.sendQuestion_resume now throws r q w) = Normal tt
         ∧ reported removed children shown w
             (exec (WithImage.sendQuestion_resume now throws r q) w)).
Proof.
  split; intros Hr.
  - split; [by eapply same_history_part, TextOnly_unanswered_keeps_history|].
    intros children Hc. by apply post_never_unit, TextOnly_unanswered_reported.
  - split; [by eapply same_history_part, WithImage_unanswered_keeps_history|].
    intros children shown Hc Hs.
    by eapply post_never_unit, WithImage_unanswered_reported.
Qed.

Lemma unanswered_question_is_reported_witness :
  let question := message_node (mkMessage [] [] [] false [] None (js "how often?") []) in
  let thinking := message_node (mkMessage [] [] [] true [] None (js "...") []) in
  let w := set_document
             (with_chat_container (Some [static_node; question; thinking]))
             (start_page empty_dom ∅) in
  let r := received true 200 (Normal JNull) in
  (TextOnly_unanswered (H := example_host) r 2 TypeError
   ∧ chat_container (document w) = Some [static_node; question; thinking])
  ∧ fst (TextOnly.sendQuestion_resume (H := example_host) (js "now") None r
           (js "how often?") w) = Normal tt
  ∧ ∃ node,
      chat_container
        (document (exec (TextOnly.sendQuestion_resume (H := example_host) (js "now")
                           None r (js "how often?")) w))
      = Some [static_node; message_node node]
      ∧ messageContent node = js "エラー: " ++ TypeError.
Proof.
  intros question thinking w r.
  assert (TextOnly_unanswered (H := example_host) r 2 TypeError) as Hr by done.
  split; [split; [exact Hr|reflexivity]|].
  destruct (proj2 (proj1 (unanswered_question_is_reported (H := example_host) (js "now")
                            None r (js "how often?") 2 TypeError w) Hr)
              [static_node; question; thinking] eq_refl)
    as (Hret & _ & (node & Hchat & _ & Hcontent & _) & _).
  split; [exact Hret|]. exists node. split; [exact Hchat|exact Hcontent].
Defined.

(** ** The attached image after a response *)

Section Detached.

Context `{Host}.

Lemma removeLastMessage_keeps_image : keeps attachedImage removeLastMessage.
Proof. unfold removeLastMessage. repeat keeps_step. Qed.

Lemma WithImage_addMessageToChat_keeps_image now ty m l v :
  keeps attachedImage (WithImage.addMessageToChat now ty m l v).
Proof. unfold WithImage.addMessageToChat, settle. repeat keeps_step. Qed.

Lemma WithImage_handler_keeps_image now e :
  keeps attachedImage
    (removeLastMessage ;;
     WithImage.addMessageToChat now (js "ai") (str (js "エラー: " ++ e)) false
       (Str (js "danger")) ;;
     showNotification (js "AI相談でエラーが発生しました") (js "danger")).
Proof.
  unfold showNotification.
  repeat first [ apply removeLastMessage_keeps_image
               | apply WithImage_addMessageToChat_keeps_image
               | keeps_step ].
Qed.

(** The image after the statements of [try], when the body is not
    [null]: detached when the message could be rendered, else as it
    was, the error being thrown. *)
Lemma WithImage_tried_image now throws q data children w0 w :
  data ≠ JNull →
  chat_container (document w) = Some children →
  attachedImage w = attachedImage w0 →
  post (status <- get data (js "status") ;;
        (if strict_eq_string status (js "success") then
           WithImage.addMessageToChat now (js "ai") (field data (js "answer")) false
             (Str (js "default")) ;;
           tag <- read (fun w => selectedTag (this w)) ;;
           addToHistory now throws q (field data (js "answer")) tag ;;
           showNotification (js "AI相談が完了しました") (js "success")
         else
           WithImage.addMessageToChat now (js "ai")
             (str (js "エラー: " ++ template (field data (js "error"))))
             false (Str (js "danger")) ;;
           showNotification (js "AI相談でエラーが発生しました") (js "danger")) ;;
        WithImage.removeImage)
    (fun _ after =>
       attachedImage after = None
       ∧ ∃ shown, WithImage.render (WithImage_message data) = Normal shown)
    (fun _ after =>
       attachedImage after = attachedImage w0
       ∧ ∃ e, WithImage.render (WithImage_message data) = Throw e)
    w.
Proof.
  intros Hnull Hc Hi. unfold WithImage_message.
  apply post_bind. eapply post_equation; [by apply get_not_null|]. cbv beta iota.
  destruct (strict_eq_string (field data (js "status")) (js "success")).
  - destruct (WithImage.render (field data (js "answer"))) as [shown|e] eqn:Hs.
    + apply post_bind, post_bind.
      edestruct WithImage_addMessageToChat_page as (node & Heq & _);
        [| |eapply post_equation; [exact Heq|]].
      { exact Hc. }
      { by rewrite WithImage_content_ai. }
      apply post_bind, post_read, post_bind.
      eapply post_equation; [apply addToHistory_added|]. apply post_update.
      apply removeImage_post. intros w2 _ _ _ _ _ Hnone. eauto.
    + apply post_bind, post_bind. eapply post_equation.
      { apply WithImage_addMessageToChat_throws. by rewrite WithImage_content_ai. }
      cbv beta iota. eauto.
  - destruct (WithImage.render _) as [shown|e] eqn:Hs.
    + apply post_bind, post_bind.
      edestruct WithImage_addMessageToChat_page as (node & Heq & _);
        [| |eapply post_equation; [exact Heq|]].
      { exact Hc. }
      { by rewrite WithImage_content_ai. }
      apply post_update.
      apply removeImage_post. intros w2 _ _ _ _ _ Hnone. eauto.
    + apply post_bind, post_bind. eapply post_equation.
      { apply WithImage_addMessageToChat_throws. by rewrite WithImage_content_ai. }
      cbv beta iota. eauto.
Qed.

End Detached.

(** X10. In the revision with image attachment, on a page with a chat,
    the attached image is detached exactly when the statements of [try]
    run to their end: a body was received and parsed, it is not [null],
    and [render] did not throw on the message shown for it (the answer
    of a body with [status === 'success'], else the error message).
    When the request fails, the body is not JSON or is [null], or
    [render] throws (as it does without [marked] on an answer that is
    not a string), the image stays attached. *)
Theorem image_is_detached_after_a_response `{Host} (now : jsstring)
    (throws : option jsstring) (r : response json) (q : jsstring)
    (children : list chat_node) (w : page) :
  chat_container (document w) = Some children →
  attachedImage (exec (WithImage.sendQuestion_resume now throws r q) w)
  = match json_outcome r with
    | Throw _ | Normal JNull => attachedImage w
    | Normal data =>
        match WithImage.render (WithImage_message data) with
        | Normal _ => None
        | Throw _ => attachedImage w
        end
    end.
Proof.
  intros Hc.
  apply (post_exec _ (fun after => attachedImage after = _)).
  unfold WithImage.sendQuestion_resume. rewrite json_outcome_settle.
  assert (∀ e w1, attachedImage w1 = attachedImage w →
            post (removeLastMessage ;;
                  WithImage.addMessageToChat now (js "ai") (str (js "エラー: " ++ e))
                    false (Str (js "danger")) ;;
                  showNotification (js "AI相談でエラーが発生しました") (js "danger"))
              (fun _ after => attachedImage after = attachedImage w)
              (fun _ after => attachedImage after = attachedImage w) w1) as Hhandler.
  { intros e w1 Hw1.
    apply (keeps_post attachedImage _ (fun i => i = attachedImage w));
      [apply WithImage_handler_keeps_image|done]. }
  apply post_try_catch.
  destruct (json_outcome r) as [data|e]; simpl; [|by apply Hhandler].
  apply post_bind. eapply post_equation; [reflexivity|].
  apply post_bind. eapply post_equation; [by apply removeLastMessage_some|].
  assert (data = JNull ∨ data ≠ JNull) as [->|Hnull] by (destruct data; auto).
  { apply post_bind, post_throw. by apply Hhandler. }
  eapply post_consequence;
    [eapply (WithImage_tried_image now throws q data _ w); [done|reflexivity|done]|..].
  - intros [] after (Hnone & shown & Hs). rewrite Hs. by destruct data.
  - intros e after (Hsame & e' & Hs). rewrite Hs.
    replace (match data with
             | JNull => attachedImage w
             | _ => attachedImage w
             end) with (attachedImage w) by (by destruct data).
    by apply Hhandler.
Qed.

Lemma image_is_detached_after_a_response_witness :
  let file := mkFile (js "sprout.png") (js "image/png") 1024 in
  let w := set_attachedImage (Some file)
             (set_document (with_chat_container (Some [static_node]))
                (start_page empty_dom ∅)) in
  let respond r :=
    attachedImage (exec (WithImage.sendQuestion_resume (H := example_host) (js "now")
                           None r (js "q")) w) in
  chat_container (document w) = Some [static_node]
  ∧ respond (rejected (js "Failed to fetch")) = Some file
  ∧ respond (received true 200 (Normal JNull)) = Some file
  ∧ respond (received true 200 (Normal (JObject [(js "status", JString (js "success"))])))
    = Some file
  ∧ respond (received true 200 (Normal (JObject [(js "status", JString (js "error"))])))
    = None.
Proof.
  intros file w respond. split; [reflexivity|]. unfold respond.
  split; [|split; [|split]];
    exact (image_is_detached_after_a_response (H := example_host) (js "now") None _
             (js "q") [static_node] w eq_refl).
Defined.

(** ** Sending a question *)

Section Sending.

Context `{Host}.

Lemma TextOnly_sendQuestion_sends now value children w :
  question_input (document w) = Some value →
  trim value ≠ [] →
  chat_container (document w) = Some children →
  post (TextOnly.sendQuestion now)
    (fun pending after =>
       pending = Some (trim value)
       ∧ sent (json_body (trim value) (selectedTag (this w))) (trim value) children
           w after)
    never w.
Proof.
  intros Hq Ht Hc. unfold TextOnly.sendQuestion.
  apply post_bind, post_read. rewrite Hq.
  destruct (trim value) as [|c0 question] eqn:Htrim; [done|]. cbn [falsy].
  apply post_bind.
  edestruct TextOnly_addMessageToChat_page as (user & Heq & Hm & Hl & _ & Hcl);
    [|eapply post_equation; [exact Heq|]].
  { exact Hc. }
  apply post_bind, post_update, post_bind.
  edestruct TextOnly_addMessageToChat_page as (thinking & Heq' & Hm' & Hl' & _ & Hcl');
    [|eapply post_equation; [exact Heq'|]].
  { reflexivity. }
  apply post_bind, post_read, post_bind, post_update, post_ret.
  split; [done|]. unfold sent. simpl. repeat split.
  exists user, thinking. rewrite <-app_assoc. simpl.
  rewrite decide_True in Hcl by done. rewrite decide_False in Hcl'; [done|].
  vm_compute. discriminate.
Qed.

Lemma WithImage_sendQuestion_sends now value children w :
  question_input (document w) = Some value →
  trim value ≠ [] ∨ is_Some (attachedImage w) →
  chat_container (document w) = Some children →
  post (WithImage.sendQuestion now)
    (fun pending after =>
       pending = Some (trim value)
       ∧ sent (form_data (trim value) (selectedTag (this w)) (attachedImage w))
           (trim value) children w after)
    never w.
Proof.
  intros Hq Ht Hc. unfold WithImage.sendQuestion.
  apply post_bind, post_read. rewrite Hq.
  apply post_bind, post_read.
  assert (falsy (trim value) && negb (bool_decide (is_Some (attachedImage w))) = false)
    as ->.
  { destruct Ht as [Ht|Ht].
    - by destruct (trim value).
    - rewrite (bool_decide_eq_true_2 _ Ht). apply andb_false_r. }
  apply post_bind.
  edestruct WithImage_addMessageToChat_page as (user & Heq & Hm & Hl & _ & Hcl);
    [| |eapply post_equation; [exact Heq|]].
  { exact Hc. }
  { apply WithImage_content_user. }
  apply post_bind, post_update, post_bind.
  edestruct WithImage_addMessageToChat_page as (thinking & Heq' & Hm' & Hl' & _ & Hcl');
    [| |eapply post_equation; [exact Heq'|]].
  { reflexivity. }
  { apply WithImage_content_loading. }
  apply post_bind, post_read, post_bind, post_update, post_ret.
  split; [done|]. unfold sent. simpl. repeat split.
  exists user, thinking. rewrite <-app_assoc. simpl.
  rewrite decide_True in Hcl by done. rewrite decide_False in Hcl'.
  - by repeat split.
  - vm_compute. discriminate.
Qed.

End Sending.

(** X11. When the page has a question field and a chat, and the trimmed
    question is not empty (or, in the revision with image attachment, an
    image is attached), [sendQuestion] goes ahead: it shows the trimmed
    question as a user message followed by the "thinking" message,
    empties the question field and issues exactly one POST to
    [/api/ai/consultation] carrying the trimmed question, the selected
    tag and, in that revision, the attached image; the history, the
    store and the notifications are not touched. *)
Theorem question_is_sent `{Host} (now value : jsstring) (children : list chat_node)
    (w : page) :
  question_input (document w) = Some value →
  chat_container (document w) = Some children →
  (trim value ≠ [] →
   fst (TextOnly.sendQuestion now w) = Normal (Some (trim value))
   ∧ sent (json_body (trim value) (selectedTag (this w))) (trim value) children w
       (exec (TextOnly.sendQuestion now) w))
  ∧ (trim value ≠ [] ∨ is_Some (attachedImage w) →
     fst (WithImage.sendQuestion now w) = Normal (Some (trim value))
     ∧ sent (form_data (trim value) (selectedTag (this w)) (attachedImage w))
         (trim value) children w (exec (WithImage.sendQuestion now) w)).
Proof.
  intros Hq Hc. split; intros Ht.
  - destruct (post_never _ _ _ (TextOnly_sendQuestion_sends now value children w Hq Ht Hc))
      as (pending & Hret & -> & Hsent).
    done.
  - destruct (post_never _ _ _ (WithImage_sendQuestion_sends now value children w Hq Ht Hc))
      as (pending & Hret & -> & Hsent).
    done.
Qed.

Lemma question_is_sent_witness :
  let file := mkFile (js "sprout.png") (js "image/png") 1024 in
  let w := set_attachedImage (Some file)
             (set_document (with_question_input (Some (js "  ")))
                (start_page empty_dom ∅)) in
  (question_input (document w) = Some (js "  ")
   ∧ chat_container (document w) = Some []
   ∧ (trim (js "  ") ≠ [] ∨ is_Some (attachedImage w)))
  ∧ network (window (exec (WithImage.sendQuestion (H := example_host) (js "now")) w))
    = [mkRequest (js "/api/ai/consultation") (js "POST")
         (form_data [] (Some (js "general")) (Some file))].
Proof.
  intros file w.
  assert (trim (js "  ") ≠ [] ∨ is_Some (attachedImage w)) as Ht by (right; eauto).
  split; [by repeat split|].
  destruct (proj2 (question_is_sent (H := example_host) (js "now") (js "  ") [] w
                     eq_refl eq_refl) Ht) as (_ & _ & _ & _ & _ & Hnet & _).
  exact Hnet.
Defined.

(** ** Selecting a tag *)

Section Selecting.

Context `{Host}.

Lemma selectTag_page tag w :
  selectTag tag w
  = match querySelector (data_tag_selector tag) (deactivate <$> tag_items (document w)) with
    | Normal found =>
        (Normal tt,
         set_document
           (with_tag_items
              (match found with
               | Some i => alter activate i (deactivate <$> tag_items (document w))
               | None => deactivate <$> tag_items (document w)
               end))
           (set_this (with_selectedTag tag) w))
    | Throw e =>
        (Throw e,
         set_document (with_tag_items (deactivate <$> tag_items (document w)))
           (set_this (with_selectedTag tag) w))
    end.
Proof.
  unfold selectTag, settle, bind, read, update, ret, throw. simpl.
  by destruct (querySelector _ _) as [[i|]|e].
Qed.

End Selecting.

(** X12. [selectTag] leaves at most one tag element active: the one the
    selector finds, if it finds one; every other tag element is made
    inactive, and no element changes its [data-tag]. When the selector
    cannot be parsed, [selectTag] throws with the tag already selected
    and every tag element inactive. *)
Theorem selectTag_activates_at_most_one `{Host} (tag : option jsstring) (w : page) :
  data_tag <$> tag_items (document (exec (selectTag tag) w))
  = data_tag <$> tag_items (document w)
  ∧ selectedTag (this (exec (selectTag tag) w)) = tag
  ∧ match querySelector (data_tag_selector tag) (deactivate <$> tag_items (document w)) with
    | Normal (Some i) =>
        fst (selectTag tag w) = Normal tt
        ∧ ∀ j item, tag_items (document (exec (selectTag tag) w)) !! j = Some item →
                    active item = bool_decide (j = i)
    | Normal None =>
        fst (selectTag tag w) = Normal tt
        ∧ Forall (fun item => active item = false)
            (tag_items (document (exec (selectTag tag) w)))
    | Throw e =>
        fst (selectTag tag w) = Throw e
        ∧ Forall (fun item => active item = false)
            (tag_items (document (exec (selectTag tag) w)))
    end.
Proof.
  unfold exec. rewrite selectTag_page.
  assert (Forall (fun item => active item = false)
            (deactivate <$> tag_items (document w))) as Hoff.
  { apply Forall_fmap, Forall_forall. done. }
  assert (data_tag <$> (deactivate <$> tag_items (document w))
          = data_tag <$> tag_items (document w)) as Htags.
  { rewrite <-list_fmap_compose. by apply list_fmap_ext. }
  destruct (querySelector _ _) as [[i|]|e]; simpl; repeat split; try done.
  - rewrite <-Htags. generalize (deactivate <$> tag_items (document w)). intros l.
    apply list_eq. intros j. rewrite !list_lookup_fmap.
    destruct (decide (j = i)) as [->|Hne].
    + rewrite list_lookup_alter_eq. by destruct (l !! i).
    + by rewrite list_lookup_alter_ne by congruence.
  - intros j item Hj. destruct (decide (j = i)) as [->|Hne].
    + rewrite list_lookup_alter_eq in Hj. rewrite bool_decide_eq_true_2 by done.
      destruct (_ !! i); [|done]. by injection Hj as <-.
    + rewrite list_lookup_alter_ne in Hj by congruence.
      rewrite bool_decide_eq_false_2 by done.
      rewrite Forall_lookup in Hoff. by eapply Hoff.
Qed.

(** ** Quick actions *)

Section Quick.

Context `{Host}.

Lemma TextOnly_quick_tail now action question value children found w :
  trim question = question →
  question ≠ [] →
  question_input (document w) = Some value →
  chat_container (document w) = Some children →
  querySelector (data_tag_selector action) (deactivate <$> tag_items (document w))
  = Normal found →
  post (questionInput <- read (fun w => question_input (document w)) ;;
        match questionInput with
        | Some _ => update (set_document (with_question_input (Some question)))
        | None => ret tt
        end ;;
        selectTag action ;;
        pending <- detached (TextOnly.sendQuestion now) ;;
        ret (mjoin pending))
    (fun pending after =>
       pending = Some question
       ∧ asked action (json_body question action) question children w after)
    never w.
Proof.
  intros Htrim Hne Hq Hc Hsel.
  apply post_bind, post_read. rewrite Hq. apply post_bind, post_update, post_bind.
  eapply post_equation; [rewrite selectTag_page; simpl; rewrite Hsel; reflexivity|].
  apply post_bind. unfold detached. apply post_try_catch, post_bind.
  eapply post_consequence;
    [apply (TextOnly_sendQuestion_sends now question children)| |done].
  - reflexivity.
  - by rewrite Htrim.
  - exact Hc.
  - intros pending after [-> Hsent]. apply post_ret, post_ret.
    rewrite Htrim in *. split; [done|].
    destruct Hsent as (Ht & _ & _ & _ & Hnet & Hin & Hnote & _ & Hchat).
    unfold asked. rewrite Ht, Hnet, Hin, Hnote. simpl. repeat split.
    destruct Hchat as (user & thinking & ? & ? & ? & _ & _ & _ & ?). eauto 10.
Qed.

Lemma WithImage_quick_tail now action question value children found w :
  trim question = question →
  question ≠ [] →
  question_input (document w) = Some value →
  chat_container (document w) = Some children →
  querySelector (data_tag_selector action) (deactivate <$> tag_items (document w))
  = Normal found →
  post (questionInput <- read (fun w => question_input (document w)) ;;
        match questionInput with
        | Some _ => update (set_document (with_question_input (Some question)))
        | None => ret tt
        end ;;
        selectTag action ;;
        pending <- detached (WithImage.sendQuestion now) ;;
        ret (mjoin pending))
    (fun pending after =>
       pending = Some question
       ∧ asked action (form_data question action (attachedImage w)) question
           children w after)
    never w.
Proof.
  intros Htrim Hne Hq Hc Hsel.
  apply post_bind, post_read. rewrite Hq. apply post_bind, post_update, post_bind.
  eapply post_equation; [rewrite selectTag_page; simpl; rewrite Hsel; reflexivity|].
  apply post_bind. unfold detached. apply post_try_catch, post_bind.
  eapply post_consequence;
    [apply (WithImage_sendQuestion_sends now question children)| |done].
  - reflexivity.
  - left. by rewrite Htrim.
  - exact Hc.
  - intros pending after [-> Hsent]. apply post_ret, post_ret.
    rewrite Htrim in *. split; [done|].
    destruct Hsent as (Ht & _ & _ & _ & Hnet & Hin & Hnote & _ & Hchat).
    unfold asked. rewrite Ht, Hnet, Hin, Hnote. simpl. repeat split.
    destruct Hchat as (user & thinking & ? & ? & ? & _ & _ & _ & ?). eauto 10.
Qed.

End Quick.

(** X13. A quick action for harvest, disease or cooking, on a page with a
    question field and a chat (and a selector the browser can parse),
    completes normally in both revisions and asks the question of its
    own case of the [switch], whatever was typed in the question field:
    it selects its own tag, shows that question in the chat followed by
    the "thinking" message, leaves the question field empty and issues
    exactly one request carrying that question and that tag (and, in
    the revision with image attachment, the attached image). The
    history is not touched and no notification is shown. *)
Theorem quick_action_asks_its_question `{Host} (now : jsstring)
    (action : option jsstring) (question value : jsstring)
    (children : list chat_node) (found : option nat) (w : page) :
  (action, question) ∈ quick_questions →
  question_input (document w) = Some value →
  chat_container (document w) = Some children →
  querySelector (data_tag_selector action) (deactivate <$> tag_items (document w))
  = Normal found →
  fst (TextOnly.executeQuickAction now action w) = Normal (Some question)
  ∧ asked action (json_body question action) question children w
      (exec (TextOnly.executeQuickAction now action) w)
  ∧ fst (WithImage.executeQuickAction now action w) = Normal (Some question)
  ∧ asked action (form_data question action (attachedImage w)) question children w
      (exec (WithImage.executeQuickAction now action) w).
Proof.
  unfold quick_questions. intros Hq Hin Hc Hsel.
  rewrite !elem_of_cons, elem_of_nil in Hq.
  destruct Hq as [Hq|[Hq|[Hq|[]]]]; injection Hq as -> ->;
    unfold TextOnly.executeQuickAction, WithImage.executeQuickAction; resolve_switch;
    match goal with
    | |- context [with_question_input (Some ?question)] =>
        assert (trim question = question) as Htrim by (vm_compute; reflexivity);
        assert (question ≠ []) as Hne by (vm_compute; discriminate);
        destruct (post_never _ _ _
                    (TextOnly_quick_tail now _ question value children found w
                       Htrim Hne Hin Hc Hsel)) as (p & Hret & -> & Hasked);
        destruct (post_never _ _ _
                    (WithImage_quick_tail now _ question value children found w
                       Htrim Hne Hin Hc Hsel)) as (p' & Hret' & -> & Hasked');
        split; [exact Hret|]; split; [exact Hasked|];
        split; [exact Hret'|exact Hasked']
    end.
Qed.

Lemma quick_action_asks_its_question_witness :
  let w := set_document (with_question_input (Some (js "typed")))
             (start_page empty_dom ∅) in
  let question := js "豆苗の病気を診断してください" in
  ((Some (js "disease"), question) ∈ quick_questions
   ∧ question_input (document w) = Some (js "typed")
   ∧ chat_container (document w) = Some []
   ∧ querySelector (Host := example_host) (data_tag_selector (Some (js "disease")))
       (deactivate <$> tag_items (document w)) = Normal None)
  ∧ fst (TextOnly.executeQuickAction (H := example_host) (js "now")
           (Some (js "disease")) w) = Normal (Some question)
  ∧ network (window (exec (TextOnly.executeQuickAction (H := example_host) (js "now")
                             (Some (js "disease"))) w))
    = [mkRequest (js "/api/ai/consultation") (js "POST")
         (json_body question (Some (js "disease")))].
Proof.
  intros w question.
  assert ((Some (js "disease"), question) ∈ quick_questions) as Hq.
  { unfold quick_questions. apply list_elem_of_further, list_elem_of_here. }
  split; [by repeat split|].
  destruct (quick_action_asks_its_question (H := example_host) (js "now")
              (Some (js "disease")) question (js "typed") [] None w Hq eq_refl
              eq_refl eq_refl) as (Hret & Hasked & _).
  split; [exact Hret|].
  destruct Hasked as (_ & _ & Hnet & _). exact Hnet.
Defined.

Section QuickWithoutField.

Context `{Host}.

Lemma quick_tail_without_field (send : script (option jsstring)) action question
    found w :
  (∀ w', question_input (document w') = None → send w' = (Throw TypeError, w')) →
  question_input (document w) = None →
  querySelector (data_tag_selector action) (deactivate <$> tag_items (document w))
  = Normal found →
  post (questionInput <- read (fun w => question_input (document w)) ;;
        match questionInput with
        | Some _ => update (set_document (with_question_input (Some question)))
        | None => ret tt
        end ;;
        selectTag action ;;
        pending <- detached send ;;
        ret (mjoin pending))
    (fun pending after => pending = None ∧ rejected_unasked action w after)
    never w.
Proof.
  intros Hsend Hq Hsel.
  apply post_bind, post_read. rewrite Hq. apply post_bind, post_ret, post_bind.
  eapply post_equation; [rewrite selectTag_page, Hsel; reflexivity|].
  apply post_bind. unfold detached. apply post_try_catch, post_bind.
  eapply post_equation; [by apply Hsend|].
  unfold unhandledrejection, console_error, showNotification.
  apply post_bind, post_bind, post_update, post_update.
  by split.
Qed.

End QuickWithoutField.

(** X14. A quick action for harvest, disease or cooking on a page without
    question field still completes normally and selects its tag, but
    asks nothing: no request is issued and the chat is as it was; the
    [sendQuestion] it started is rejected with a TypeError, which the
    window's handler logs and shows as a "network error" warning. *)
Theorem quick_action_without_question_field `{Host} (now : jsstring)
    (action : option jsstring) (found : option nat) (w : page) :
  quick_action action = true →
  question_input (document w) = None →
  querySelector (data_tag_selector action) (deactivate <$> tag_items (document w))
  = Normal found →
  (fst (TextOnly.executeQuickAction now action w) = Normal None
   ∧ rejected_unasked action w (exec (TextOnly.executeQuickAction now action) w))
  ∧ (fst (WithImage.executeQuickAction now action w) = Normal None
     ∧ rejected_unasked action w (exec (WithImage.executeQuickAction now action) w)).
Proof.
  unfold quick_action. intros Hq Hin Hsel.
  apply orb_true_iff in Hq as [Hq|Hq]; [apply orb_true_iff in Hq as [Hq|Hq]|];
    apply bool_decide_eq_true in Hq; subst action;
    unfold TextOnly.executeQuickAction, WithImage.executeQuickAction; resolve_switch;
    match goal with
    | |- context [with_question_input (Some ?question)] =>
        destruct (post_never _ _ _
                    (quick_tail_without_field (TextOnly.sendQuestion now) _ question
                       found w (TextOnly_sendQuestion_no_input now) Hin Hsel))
          as (p & Hret & -> & Hafter);
        destruct (post_never _ _ _
                    (quick_tail_without_field (WithImage.sendQuestion now) _ question
                       found w (WithImage_sendQuestion_no_input now) Hin Hsel))
          as (p' & Hret' & -> & Hafter');
        split; split; assumption
    end.
Qed.

Lemma quick_action_without_question_field_witness :
  let w := set_document (with_question_input None) (start_page empty_dom ∅) in
  (quick_action (Some (js "cooking")) = true
   ∧ question_input (document w) = None
   ∧ querySelector (Host := example_host) (data_tag_selector (Some (js "cooking")))
       (deactivate <$> tag_items (document w)) = Normal None)
  ∧ fst (WithImage.executeQuickAction (H := example_host) (js "now")
           (Some (js "cooking")) w) = Normal None
  ∧ rejected_unasked (Some (js "cooking")) w
      (exec (WithImage.executeQuickAction (H := example_host) (js "now")
               (Some (js "cooking"))) w).
Proof.
  intros w. split; [repeat split|].
  apply (proj2 (quick_action_without_question_field (H := example_host) (js "now")
                  (Some (js "cooking")) None w eq_refl eq_refl eq_refl)).
Defined.

(** ** Invariants of the page *)

Section Preserves.

Context {A B : Type} (I : page → Prop).

Lemma preserves_ret (a : A) : preserves I (ret a).
Proof. by intros w. Qed.

Lemma preserves_throw e : preserves I (throw (A := A) e).
Proof. by intros w. Qed.

Lemma preserves_read (g : page → A) : preserves I (read g).
Proof. by intros w. Qed.

Lemma preserves_update g : (∀ w, I w → I (g w)) → preserves I (update g).
Proof. intros Hg w. apply Hg. Qed.

Lemma preserves_bind (m : script A) (k : A → script B) :
  preserves I m → (∀ a, preserves I (k a)) → preserves I (bind m k).
Proof.
  intros Hm Hk w Hw. unfold bind. specialize (Hm w Hw).
  destruct (m w) as [[a|e] w']; simpl in *; [|done].
  by apply Hk.
Qed.

Lemma preserves_try_catch (b : script A) (h : jsstring → script A) :
  preserves I b → (∀ e, preserves I (h e)) → preserves I (try_catch b h).
Proof.
  intros Hb Hh w Hw. unfold try_catch. specialize (Hb w Hw).
  destruct (b w) as [[a|e] w']; simpl in *; [done|].
  by apply Hh.
Qed.

Lemma preserves_at (m : script A) w : preserves I m → I w → I (snd (m w)).
Proof. intros Hm. apply Hm. Qed.

End Preserves.

Lemma bind_read {A B} (f : page → A) (k : A → script B) w :
  bind (read f) k w = k (f w) w.
Proof. reflexivity. Qed.

(** Steps through a computation that preserves an invariant; [tac]
    shows that an update does. *)
Ltac preserves_step tac :=
  first
    [ apply preserves_ret
    | apply preserves_throw
    | apply preserves_read
    | apply preserves_update; tac
    | apply preserves_bind; [|intros]
    | apply preserves_try_catch; [|intros]
    | match goal with
      | |- preserves _ (match ?x with _ => _ end) => destruct x
      | |- preserves _ (if ?x then _ else _) => destruct x
      end ].

(** ** Attached images *)

Ltac images_update :=
  let w := fresh "w" in
  let Himage := fresh "Himage" in
  let Hnetwork := fresh "Hnetwork" in
  intros w [Himage Hnetwork]; split; simpl;
  rewrite ?Forall_app, ?Forall_singleton; done.

Section Images.

Context `{Host}.

Lemma handleImageSelect_checked files : preserves images_checked (handleImageSelect files).
Proof.
  unfold handleImageSelect. destruct (files !! 0) as [file|]; [|apply preserves_ret].
  destruct (5 * 1024 * 1024 <? file_size file)%N eqn:Hsize.
  { unfold showNotification. repeat preserves_step images_update. }
  destruct (startsWith (file_type file) (js "image/")) eqn:Htype; simpl.
  - apply preserves_update. intros w [_ Hnetwork]. split; [|done].
    split; [|done]. by apply N.ltb_ge.
  - unfold showNotification. repeat preserves_step images_update.
Qed.

Lemma showPreview_onload_checked previewImage :
  preserves images_checked (showPreview_onload previewImage).
Proof. unfold showPreview_onload. repeat preserves_step images_update. Qed.

Lemma removeImage_checked : preserves images_checked WithImage.removeImage.
Proof. unfold WithImage.removeImage. repeat preserves_step images_update. Qed.

Lemma selectTag_checked tag : preserves images_checked (selectTag tag).
Proof. unfold selectTag, settle. repeat preserves_step images_update. Qed.

Lemma WithImage_sendQuestion_checked now :
  preserves images_checked (WithImage.sendQuestion now).
Proof.
  intros w Hw. assert (checked (attachedImage w)) as Himage by apply Hw.
  unfold WithImage.sendQuestion. rewrite bind_read.
  destruct (question_input (document w)) as [value|]; [|done].
  unfold WithImage.getAttachedImage. rewrite bind_read.
  generalize dependent (attachedImage w). intros image Himage.
  eapply (preserves_at images_checked); [|exact Hw].
  unfold WithImage.addMessageToChat, showNotification, fetch.
  repeat preserves_step images_update.
Qed.

Lemma WithImage_executeQuickAction_checked now action :
  preserves images_checked (WithImage.executeQuickAction now action).
Proof.
  unfold WithImage.executeQuickAction, detached, unhandledrejection, console_error,
    showNotification.
  repeat first [ apply WithImage_sendQuestion_checked
               | apply selectTag_checked
               | preserves_step images_update ].
Qed.

Lemma WithImage_sendQuestion_resume_checked now throws r question :
  preserves images_checked (WithImage.sendQuestion_resume now throws r question).
Proof.
  unfold WithImage.sendQuestion_resume, addToHistory, new_object, storage_set,
    JSON_stringify, localStorage_setItem, console_error, showNotification,
    WithImage.addMessageToChat, removeLastMessage, settle, get.
  repeat first [ apply removeImage_checked | preserves_step images_update ].
Qed.

Lemma handle_checked e : preserves images_checked (handle e).
Proof.
  destruct e; simpl;
    unfold listener, window_error, detached, unhandledrejection, console_error,
      showNotification;
    repeat first [ apply handleImageSelect_checked
                 | apply showPreview_onload_checked
                 | apply removeImage_checked
                 | apply selectTag_checked
                 | apply WithImage_sendQuestion_checked
                 | apply WithImage_executeQuickAction_checked
                 | apply WithImage_sendQuestion_resume_checked
                 | preserves_step images_update ].
Qed.

End Images.

(** X15. Only checked images are sent. If the attached image and the
    images of the requests so far are at most 5 MiB in size and of a
    type starting with [image/], then they still are after any events of
    the consultation page (files chosen in the image input, previews
    loaded, the image removed, tags selected, questions sent, quick
    actions, responses): whatever file is offered, a request only ever
    carries an image that [handleImageSelect] let through. *)
Theorem only_checked_images_are_sent `{Host} (es : list page_event) (w : page) :
  images_checked w → images_checked (events es w).
Proof.
  revert w. induction es as [|e es IH]; intros w Hw; [done|].
  simpl. apply IH. by apply handle_checked.
Qed.

Lemma only_checked_images_are_sent_witness :
  let photo := mkFile (js "sprout.png") (js "image/png") 1024 in
  let scan := mkFile (js "sprout.pdf") (js "application/pdf") 1024 in
  let film := mkFile (js "sprout.gif") (js "image/gif") (6 * 1024 * 1024) in
  let es := [image_selected [photo]; image_selected [scan]; image_selected [film];
             send_clicked (js "now")] in
  images_checked (start_page empty_dom ∅)
  ∧ image_of <$> network (window (events (H := example_host) es (start_page empty_dom ∅)))
    = [Some photo]
  ∧ images_checked (events (H := example_host) es (start_page empty_dom ∅)).
Proof.
  intros photo scan film es.
  assert (images_checked (start_page empty_dom ∅)) as Hstart.
  { split; [exact Logic.I|apply Forall_nil_2]. }
  split; [exact Hstart|]. split; [by vm_compute|].
  exact (only_checked_images_are_sent (H := example_host) es _ Hstart).
Defined.

(** ** Rendering without [marked] *)

Lemma replace_newlines_no_newline text : 10%N ∉ replace_newlines text.
Proof.
  induction text as [|c text IH]; simpl; [apply not_elem_of_nil|].
  destruct (c =? 10)%N eqn:Hc.
  - change (js "<br>") with [60; 98; 114; 62]%N. simpl.
    repeat (apply not_elem_of_cons; split; [done|]). exact IH.
  - apply N.eqb_neq in Hc. simpl. apply not_elem_of_cons. split; [congruence|done].
Qed.

Lemma replace_newlines_id text : 10%N ∉ text → replace_newlines text = text.
Proof.
  induction text as [|c text IH]; simpl; [done|].
  intros Hc. apply not_elem_of_cons in Hc as [Hc Htext].
  destruct (c =? 10)%N eqn:Heq; [apply N.eqb_eq in Heq; congruence|].
  simpl. by rewrite IH.
Qed.

Lemma replace_newlines_length text :
  length (replace_newlines text)
  = length text + 3 * length (filter (fun c => c = 10%N) text).
Proof.
  induction text as [|c text IH]; simpl; [done|].
  rewrite length_app, IH. destruct (c =? 10)%N eqn:Heq.
  - apply N.eqb_eq in Heq. rewrite filter_cons_True by done.
    change (js "<br>") with [60; 98; 114; 62]%N. simpl. lia.
  - apply N.eqb_neq in Heq. rewrite filter_cons_False by done. simpl. lia.
Qed.

Lemma replace_newlines_bind text :
  replace_newlines text = text ≫= fun c => if decide (c = 10%N) then js "<br>" else [c].
Proof.
  induction text as [|c text IH]; [done|].
  simpl. rewrite IH. f_equal.
  destruct (c =? 10)%N eqn:Hc, (decide (c = 10%N)) as [Heq|Hne]; try done.
  - by apply N.eqb_eq in Hc.
  - by apply N.eqb_neq in Hc.
Qed.

(** X16. When [marked] is not loaded, [MarkdownRenderer.render] returns
    a string with each line feed replaced by the four characters of
    [<br>] and every other character kept, in order. So the result has
    no line feed, is longer by three characters for each line feed of
    the text, and is the text itself when the text has no line feed.
    On a value that is not a string [render] throws. *)
Theorem render_without_marked `{Host} (text : jsstring) :
  marked = None →
  WithImage.render (str text)
  = Normal (text ≫= (fun c => if decide (c = 10%N) then js "<br>" else [c]))
  ∧ (∀ shown,
       WithImage.render (str text) = Normal shown →
       (10%N ∉ shown)
       ∧ length shown = length text + 3 * length (filter (fun c => c = 10%N) text)
       ∧ (10%N ∉ text → shown = text))
  ∧ (∀ value, (∀ s, value ≠ str s) → ∃ error, WithImage.render value = Throw error).
Proof.
  intros Hm. unfold WithImage.render. rewrite Hm. simpl.
  split; [by rewrite replace_newlines_bind|]. split.
  - intros shown [= <-].
    split; [apply replace_newlines_no_newline|].
    split; [apply replace_newlines_length|apply replace_newlines_id].
  - intros [[]|] Hv; eauto. by destruct (Hv s).
Qed.

Lemma render_without_marked_witness :
  marked (Host := example_host) = None
  ∧ WithImage.render (H := example_host) (str [97; 10; 98]%N)
    = Normal ([97%N] ++ js "<br>" ++ [98%N])
  ∧ ∃ error, WithImage.render (H := example_host) (Some (JNumber 7)) = Throw error.
Proof.
  split; [reflexivity|].
  destruct (render_without_marked (H := example_host) [97; 10; 98]%N eq_refl)
    as (Hshown & _ & Hthrows).
  split; [exact Hshown|]. apply Hthrows. discriminate.
Defined.

(** ** The harvest check *)



(** ** The temperature chart *)

Section Chart.

Import DashboardManager.

Variable toLocaleTimeString : jsstring → jsstring.

Lemma tail_drop {A} (l : list A) : tail l = drop 1 l.
Proof. by destruct l. Qed.

Lemma stopAutoUpdate_chart d : temperatureChart (stopAutoUpdate d) = temperatureChart d.
Proof. unfold stopAutoUpdate. by destruct (updateTimer d). Qed.

Lemma call_aligned c d :
  aligned d → aligned (call toLocaleTimeString c d).
Proof.
  unfold aligned. destruct c; simpl.
  - unfold initializeChart. by destruct ctx.
  - unfold updateChartData.
    destruct (temperatureChart d) eqn:Hc, history as [[|item items]|];
      rewrite ?Hc; simpl; try done.
    intros _. by rewrite !length_fmap.
  - unfold loadSampleData, updateChartData.
    destruct (temperatureChart d) eqn:Hc; rewrite ?Hc; simpl; done.
  - unfold addDatapointToChart. destruct (temperatureChart d) as [chart|] eqn:Hc;
      rewrite ?Hc; [|done].
    intros Hlen. case_decide; simpl; [|rewrite !length_app; simpl; lia].
    rewrite !tail_drop, !length_drop, !length_app. simpl. lia.
  - unfold destroyChart. by destruct (temperatureChart d) eqn:Hc; rewrite ?Hc.
  - by rewrite stopAutoUpdate_chart.
  - by rewrite stopAutoUpdate_chart.
  - unfold cleanup, destroyChart. simpl. rewrite stopAutoUpdate_chart.
    by destruct (temperatureChart d) eqn:Hc; simpl; rewrite ?stopAutoUpdate_chart, ?Hc.
Qed.

Lemma add_point_chart timestamp temperature d chart :
  temperatureChart d = Some chart →
  temperatureChart (addDatapointToChart toLocaleTimeString timestamp temperature d)
  = Some (let labels := chart_labels chart ++ [toLocaleTimeString timestamp] in
          let data := chart_data chart ++ [temperature] in
          if decide (24 < length labels)
          then mkChart (tail labels) (tail data)
          else mkChart labels data).
Proof. unfold addDatapointToChart. intros ->. simpl. by case_decide. Qed.

Lemma add_points_chart points d chart :
  temperatureChart d = Some chart →
  length (chart_labels chart) = length (chart_data chart) →
  let n := length (chart_labels chart) in
  let dropped := n + length points - n `max` 24 in
  temperatureChart (add_points toLocaleTimeString points d)
  = Some (mkChart
            (drop dropped
               (chart_labels chart ++ (toLocaleTimeString ∘ fst <$> points)))
            (drop dropped (chart_data chart ++ (snd <$> points)))).
Proof.
  intros Hc Hlen n dropped. subst dropped.
  induction points as [|[timestamp temperature] points IH] using rev_ind.
  - simpl. rewrite !app_nil_r. replace (n + 0 - n `max` 24) with 0 by lia.
    rewrite Hc. by destruct chart.
  - unfold add_points in *. rewrite foldl_snoc. simpl.
    erewrite add_point_chart by exact IH. f_equal. cbn [chart_labels chart_data].
    rewrite !fmap_app, !length_app, !length_drop, !length_app, !length_fmap. simpl.
    rewrite !app_assoc.
    set (old := chart_labels chart ++ (toLocaleTimeString ∘ fst <$> points)).
    set (old' := chart_data chart ++ (snd <$> points)).
    assert (length old = n + length points) as Hold.
    { unfold old. by rewrite length_app, length_fmap. }
    assert (length old' = n + length points) as Hold'.
    { unfold old'. rewrite length_app, length_fmap. fold n. lia. }
    fold n. case_decide as Hfull.
    + rewrite !tail_drop. f_equal.
      * rewrite <-drop_app_le by lia. rewrite drop_drop. f_equal. lia.
      * rewrite <-drop_app_le by lia. rewrite drop_drop. f_equal. lia.
    + replace (n + (length points + 1) - n `max` 24) with 0 by lia.
      replace (n + length points - n `max` 24) with 0 by lia. done.
Qed.

End Chart.

(** X18. The temperature chart always has as many labels as
    temperatures: from the constructor on, whatever the manager is
    called with ([initializeChart], [updateChartData], [loadSampleData],
    [addDatapointToChart], [destroyChart], the update timer started or
    stopped, [cleanup]), the two series of the chart have the same
    length. *)
Theorem chart_series_stay_aligned (toLocaleTimeString : jsstring → jsstring)
    (cs : list DashboardManager.manager_call) :
  DashboardManager.aligned
    (DashboardManager.calls toLocaleTimeString cs DashboardManager.new_DashboardManager).
Proof.
  unfold DashboardManager.calls.
  induction cs as [|c cs IH] using rev_ind; [exact Logic.I|].
  rewrite foldl_snoc. by apply call_aligned.
Qed.

(** X19. [addDatapointToChart] keeps the latest points. On a chart with
    [n] labels and as many temperatures, live points added one after
    the other are appended, and for each point added beyond 24 the
    oldest point is dropped: the chart ends with the last
    [max n 24] of the old points followed by the new ones (or all of
    them, if they are fewer). A chart loaded with more than 24 points
    is therefore never cut down to 24. *)
Theorem chart_keeps_the_latest_points (toLocaleTimeString : jsstring → jsstring)
    (points : list (jsstring * option json)) (d : DashboardManager.dashboard)
    (chart : DashboardManager.chart) :
  DashboardManager.temperatureChart d = Some chart →
  length (DashboardManager.chart_labels chart)
  = length (DashboardManager.chart_data chart) →
  let n := length (DashboardManager.chart_labels chart) in
  let dropped := n + length points - n `max` 24 in
  ∃ chart',
    DashboardManager.temperatureChart
      (DashboardManager.add_points toLocaleTimeString points d) = Some chart'
    ∧ DashboardManager.chart_labels chart'
      = drop dropped (DashboardManager.chart_labels chart
                      ++ (toLocaleTimeString ∘ fst <$> points))
    ∧ DashboardManager.chart_data chart'
      = drop dropped (DashboardManager.chart_data chart ++ (snd <$> points))
    ∧ length (DashboardManager.chart_labels chart')
      = (n + length points) `min` (n `max` 24).
Proof.
  intros Hc Hlen n dropped. eexists. split; [by apply add_points_chart|].
  cbn [DashboardManager.chart_labels DashboardManager.chart_data].
  split; [done|]. split; [done|].
  rewrite length_drop, length_app, length_fmap. lia.
Qed.

Lemma chart_keeps_the_latest_points_witness :
  let d := DashboardManager.loadSampleData (fun s => s) (fun _ => js "10:00")
             (fun _ => 21%float)
             (DashboardManager.initializeChart true DashboardManager.new_DashboardManager) in
  let points := [(js "11:00", Some (JNumber 22)); (js "12:00", Some (JNumber 23))] in
  ∃ chart chart',
    DashboardManager.temperatureChart d = Some chart
    ∧ length (DashboardManager.chart_labels chart) = 24
    ∧ DashboardManager.temperatureChart
        (DashboardManager.add_points (fun s => s) points d) = Some chart'
    ∧ length (DashboardManager.chart_labels chart') = 24
    ∧ last (DashboardManager.chart_data chart') = Some (Some (JNumber 23)).
Proof.
  intros d points. eexists.
  destruct (chart_keeps_the_latest_points (fun s => s) points d _ eq_refl eq_refl)
    as (chart' & Hc & Hlabels & Hdata & Hlen).
  exists chart'. split; [reflexivity|]. split; [reflexivity|].
  split; [exact Hc|]. split; [exact Hlen|]. by rewrite Hdata.
Defined.

(** ** The update timer *)

Section Timer.

Import DashboardManager.

Lemma stopAutoUpdate_one d :
  intervals d = option_list (updateTimer d) →
  intervals (stopAutoUpdate d) = [] ∧ updateTimer (stopAutoUpdate d) = None.
Proof.
  unfold stopAutoUpdate. destruct (updateTimer d) as [t|] eqn:Ht; simpl; [|done].
  intros ->. split; [|done]. by rewrite filter_cons_False, filter_nil by naive_solver.
Qed.

Lemma call_one_interval toLocaleTimeString c d :
  intervals d = option_list (updateTimer d) →
  intervals (call toLocaleTimeString c d)
  = option_list (updateTimer (call toLocaleTimeString c d)).
Proof.
  intros Hd. destruct c; simpl.
  - unfold initializeChart. by destruct ctx.
  - unfold updateChartData. by destruct (temperatureChart d), history as [[|??]|].
  - unfold loadSampleData, updateChartData. by destruct (temperatureChart d).
  - unfold addDatapointToChart. destruct (temperatureChart d); [|done].
    by case_decide.
  - unfold destroyChart. by destruct (temperatureChart d).
  - unfold startAutoUpdate. simpl.
    by destruct (stopAutoUpdate_one d Hd) as [-> _].
  - by destruct (stopAutoUpdate_one d Hd) as [-> ->].
  - unfold cleanup, destroyChart.
    destruct (stopAutoUpdate_one d Hd) as [Hi Ht].
    by destruct (temperatureChart (stopAutoUpdate d)); simpl; rewrite Hi, Ht.
Qed.

Lemma filter_other (l : list positive) x : x ∉ l → filter (fun i => i ≠ x) l = l.
Proof.
  induction l as [|h l IH]; [done|].
  intros Hx. apply not_elem_of_cons in Hx as [Hne Hx].
  rewrite filter_cons_True by congruence. by rewrite IH.
Qed.

Lemma First_starts_intervals handles d :
  intervals (foldl (fun d h => First.startAutoUpdate h d) d handles)
  = intervals d ++ handles
  ∧ updateTimer (foldl (fun d h => First.startAutoUpdate h d) d handles)
    = match last handles with Some h => Some h | None => updateTimer d end.
Proof.
  induction handles as [|h handles IH] using rev_ind.
  - simpl. by rewrite app_nil_r.
  - rewrite foldl_snoc, last_snoc. simpl. destruct IH as [-> _].
    by rewrite app_assoc.
Qed.

End Timer.

(** X20. In the later revision of the dashboard script at most one
    interval is set: from the constructor on, whatever the manager is
    called with, the intervals of the window that are set are exactly
    the one in [updateTimer], if there is one; after [stopAutoUpdate] or
    [cleanup] none is left. *)
Theorem at_most_one_interval_is_set (toLocaleTimeString : jsstring → jsstring)
    (cs : list DashboardManager.manager_call) :
  let d := DashboardManager.calls toLocaleTimeString cs
             DashboardManager.new_DashboardManager in
  DashboardManager.intervals d = option_list (DashboardManager.updateTimer d)
  ∧ DashboardManager.intervals (DashboardManager.stopAutoUpdate d) = []
  ∧ DashboardManager.intervals (DashboardManager.cleanup d) = [].
Proof.
  simpl.
  assert (DashboardManager.intervals
            (DashboardManager.calls toLocaleTimeString cs
               DashboardManager.new_DashboardManager)
          = option_list
              (DashboardManager.updateTimer
                 (DashboardManager.calls toLocaleTimeString cs
                    DashboardManager.new_DashboardManager))) as Hone.
  { unfold DashboardManager.calls.
    induction cs as [|c cs IH] using rev_ind; [done|].
    rewrite foldl_snoc. by apply call_one_interval. }
  split; [exact Hone|].
  destruct (stopAutoUpdate_one _ Hone) as [Hi Ht].
  split; [exact Hi|].
  unfold DashboardManager.cleanup, DashboardManager.destroyChart.
  by destruct (DashboardManager.temperatureChart _).
Qed.

(** X21. In the first revision of the dashboard script a repeated
    [startAutoUpdate] leaks intervals: when it is called again without
    [stopAutoUpdate] in between, each call sets one more interval and
    only the last one is remembered, so that [stopAutoUpdate] (and
    [cleanup]) clears that one and leaves the earlier ones set, out of
    reach of a further [stopAutoUpdate]. *)
Theorem repeated_start_leaks_intervals (earlier : list positive) (latest : positive) :
  NoDup (earlier ++ [latest]) →
  let started :=
    foldl (fun d h => DashboardManager.First.startAutoUpdate h d)
      DashboardManager.new_DashboardManager (earlier ++ [latest]) in
  let stopped := DashboardManager.stopAutoUpdate started in
  DashboardManager.intervals started = earlier ++ [latest]
  ∧ DashboardManager.intervals stopped = earlier
  ∧ DashboardManager.updateTimer stopped = None
  ∧ DashboardManager.stopAutoUpdate stopped = stopped
  ∧ DashboardManager.First.cleanup started = stopped.
Proof.
  intros Hfresh started stopped.
  destruct (First_starts_intervals (earlier ++ [latest])
              DashboardManager.new_DashboardManager) as [Hi Ht].
  fold started in Hi, Ht. rewrite last_snoc in Ht. simpl in Hi.
  assert (stopped
          = DashboardManager.with_updateTimer None
              (DashboardManager.clearInterval latest started)) as Hs.
  { unfold stopped, DashboardManager.stopAutoUpdate. by rewrite Ht. }
  split; [exact Hi|]. split; [|by rewrite Hs].
  rewrite Hs. simpl. rewrite Hi.
  rewrite filter_app, filter_cons_False, filter_nil, app_nil_r by naive_solver.
  apply NoDup_app in Hfresh as (_ & Hnot & _).
  apply filter_other. intros Hin. apply (Hnot latest Hin). by left.
Qed.

Lemma repeated_start_leaks_intervals_witness :
  NoDup ([1%positive; 2%positive] ++ [3%positive])
  ∧ DashboardManager.intervals
      (DashboardManager.stopAutoUpdate
         (foldl (fun d h => DashboardManager.First.startAutoUpdate h d)
            DashboardManager.new_DashboardManager ([1%positive; 2%positive] ++ [3%positive])))
    = [1; 2]%positive.
Proof.
  assert (NoDup ([1%positive; 2%positive] ++ [3%positive])) as Hfresh.
  { apply (bool_decide_unpack _). by vm_compute. }
  split; [exact Hfresh|].
  exact (proj1 (proj2 (repeated_start_leaks_intervals [1; 2]%positive 3%positive Hfresh))).
Defined.

(** ** Selecting a tag again *)

Section SelectingAgain.

Context `{Host}.

Lemma deactivate_deactivate (l : list tag_item) :
  deactivate <$> (deactivate <$> l) = deactivate <$> l.
Proof. rewrite <-list_fmap_compose. by apply list_fmap_ext. Qed.

Lemma deactivate_alter_activate i (l : list tag_item) :
  deactivate <$> alter activate i (deactivate <$> l) = deactivate <$> l.
Proof.
  rewrite <-(deactivate_deactivate l) at 2.
  generalize (deactivate <$> l). intros l'.
  apply list_eq. intros j. rewrite !list_lookup_fmap.
  destruct (decide (j = i)) as [->|Hne].
  - rewrite list_lookup_alter_eq. by destruct (l' !! i).
  - by rewrite list_lookup_alter_ne by congruence.
Qed.

End SelectingAgain.

(** X22. [selectTag] is idempotent: selecting the tag that was just
    selected ends the same way and leaves the page as the first call
    left it. (A tag element that received its click listener twice thus
    behaves as with one.) *)
Theorem selectTag_is_idempotent `{Host} (tag : option jsstring) (w : page) :
  selectTag tag (exec (selectTag tag) w) = selectTag tag w.
Proof.
  unfold exec. rewrite (selectTag_page tag w).
  destruct (querySelector (data_tag_selector tag) (deactivate <$> tag_items (document w)))
    as [[i|]|e] eqn:Hfound; simpl; rewrite selectTag_page; simpl;
    rewrite ?deactivate_alter_activate, ?deactivate_deactivate, Hfound;
    by destruct w as [m a [] b].
Qed.

(** ** The system status *)

Section Status.

Import SystemStatus.

Lemma resume_counts r p :
  isUpdating (updateSystemStatus_resume r p) = false
  ∧ issued (updateSystemStatus_resume r p) = issued p
  ∧ settled (updateSystemStatus_resume r p) = settled p.
Proof.
  unfold updateSystemStatus_resume, apiCall_resume, updateSystemStatusDisplay.
  assert (∀ (l : list (jsstring * jsstring)) q,
            issued (foldl (fun p entry =>
                             match badges p !! badge_id entry.1 with
                             | Some _ =>
                                 with_badges
                                   (<[badge_id entry.1 :=
                                        mkBadge (status_text entry.2)
                                          (status_class entry.2)]> (badges p)) p
                             | None => p
                             end) q l) = issued q
            ∧ settled (foldl (fun p entry =>
                                match badges p !! badge_id entry.1 with
                                | Some _ =>
                                    with_badges
                                      (<[badge_id entry.1 :=
                                           mkBadge (status_text entry.2)
                                             (status_class entry.2)]> (badges p)) p
                                | None => p
                                end) q l) = settled q) as Hfold.
  { induction l as [|entry l IH] using rev_ind; intros q; [done|].
    rewrite foldl_snoc. destruct (IH q) as [Hi Hs].
    by destruct (badges _ !! _). }
  destruct r as [message|[] status [[components|]|error]]; simpl; try done.
Qed.

Lemma step_in_flight p e :
  issued p = settled p + (if isUpdating p then 1 else 0) →
  issued (step p e) = settled (step p e) + (if isUpdating (step p e) then 1 else 0).
Proof.
  intros Hp. destruct e as [|r]; simpl.
  - unfold updateSystemStatus. destruct (isUpdating p) eqn:Hu; simpl; [by rewrite Hu|lia].
  - case_decide as Hlt; [|done].
    destruct (resume_counts r
                (mkStatusPage (isUpdating p) (badges p) (console p) (notifications p)
                   (issued p) (S (settled p)))) as (-> & -> & ->).
    simpl. destruct (isUpdating p); lia.
Qed.

Lemma display_badges components p id :
  let after := snd (updateSystemStatusDisplay (Some components) p) in
  (is_Some (badges after !! id) ↔ is_Some (badges p !! id))
  ∧ (badges after !! id = badges p !! id
     ∨ ∃ b, badges after !! id = Some b ∧ b ∈ shown_badges
            ∧ id ∈ badge_id ∘ fst <$> default [] components).
Proof.
  unfold updateSystemStatusDisplay. cbn [snd].
  induction (default [] components) as [|[component status] l IH] using rev_ind.
  { simpl. split; [done|by left]. }
  rewrite foldl_snoc, fmap_app. simpl.
  set (q := foldl _ p l) in *. destruct IH as [Hdom Hshown].
  destruct (badges q !! badge_id component) as [old|] eqn:Hold; simpl.
  - destruct (decide (id = badge_id component)) as [->|Hne].
    + rewrite lookup_insert_eq. split.
      * rewrite <-Hdom, Hold. split; eauto.
      * right. eexists. split; [done|]. split.
        -- unfold status_text, status_class, shown_badges.
           repeat case_decide; apply list_elem_of_In; vm_compute; auto.
        -- apply elem_of_app. right. by left.
    + rewrite lookup_insert_ne by done. split; [done|].
      destruct Hshown as [?|(b & ? & ? & ?)]; [by left|right].
      exists b. split; [done|]. split; [done|]. apply elem_of_app. by left.
  - split; [done|].
    destruct Hshown as [?|(b & ? & ? & ?)]; [by left|right].
    exists b. split; [done|]. split; [done|]. apply elem_of_app. by left.
Qed.

End Status.

(** X23. At most one status request is under way. From a page where
    nothing was requested, whatever the order in which
    [updateSystemStatus] is called and the responses arrive (rejected,
    with an error status, with an unparsable or a [null] body, or with
    data), the requests issued and not yet settled are one while
    [isUpdating] is set and none otherwise: a call made while a request
    is under way issues no request, and every response, however it is
    handled, resets the flag. *)
Theorem one_status_request_under_way (elements : gmap (list N) SystemStatus.badge)
    (es : list SystemStatus.status_event) :
  let p := SystemStatus.steps es (SystemStatus.start elements) in
  SystemStatus.issued p
  = SystemStatus.settled p + (if SystemStatus.isUpdating p then 1 else 0).
Proof.
  simpl. unfold SystemStatus.steps.
  induction es as [|e es IH] using rev_ind; [done|].
  rewrite foldl_snoc. by apply step_in_flight.
Qed.

(** X24. [updateSystemStatusDisplay] only restyles badges that exist. It
    creates and removes no element; an element it changes is the badge
    [<component>-status] of a component of the data and then shows one
    of the three matching pairs of text and class (available with
    [bg-success], not implemented with [bg-warning], error with
    [bg-danger]); every other element is as it was. On a [null] body it
    throws and changes nothing. *)
Theorem status_display_restyles_existing_badges
    (data : SystemStatus.status_data) (p : SystemStatus.status_page) (id : jsstring) :
  let after := snd (SystemStatus.updateSystemStatusDisplay data p) in
  (is_Some (SystemStatus.badges after !! id) ↔ is_Some (SystemStatus.badges p !! id))
  ∧ (SystemStatus.badges after !! id = SystemStatus.badges p !! id
     ∨ ∃ b components,
         data = Some components
         ∧ SystemStatus.badges after !! id = Some b
         ∧ b ∈ SystemStatus.shown_badges
         ∧ id ∈ SystemStatus.badge_id ∘ fst <$> default [] components)
  ∧ (data = None →
     SystemStatus.updateSystemStatusDisplay data p = (Throw TypeError, p)).
Proof.
  destruct data as [components|]; simpl.
  - destruct (display_badges components p id) as [Hdom [Hsame|(b & Hb & Hin & Hid)]].
    + split; [exact Hdom|]. split; [by left|done].
    + split; [exact Hdom|]. split; [|done]. right. by exists b, components.
  - split; [done|]. split; [by left|done].
Qed.

Lemma status_display_restyles_existing_badges_witness :
  let sensor := SystemStatus.badge_id (js "sensor") in
  let p := SystemStatus.start {[ sensor := SystemStatus.mkBadge (js "-") (js "badge") ]} in
  let data := Some (Some [(js "sensor", js "available"); (js "camera", js "broken")]) in
  let after := snd (SystemStatus.updateSystemStatusDisplay data p) in
  SystemStatus.badges after !! sensor
  = Some (SystemStatus.mkBadge (js "利用可能") (js "badge bg-success"))
  ∧ ¬ is_Some (SystemStatus.badges after !! SystemStatus.badge_id (js "camera")).
Proof.
  intros sensor p data after. split; [by vm_compute|].
  intros Hsome.
  apply (proj1 (proj1 (status_display_restyles_existing_badges data p
                         (SystemStatus.badge_id (js "camera"))))) in Hsome.
  destruct Hsome as [b Hb]. vm_compute in Hb. discriminate.
Defined.
